(** * go-rdbms storage core: slotted heap pages and the page file manager

    A shallow embedding of [internal/storage] (type [HeapPage]) and
    [internal/pager] (type [Pager]), followed by the properties of the
    storage specification that were checked against them.

    Conventions of the embedding:
    - Go's [uint16] values are [Z] with the wrap-around [u16] written at
      every place where the source converts or computes in 16 bits; Go's
      [int] and [int64] values are [Z], wrapped with [i64] where the
      source multiplies or adds offsets;
    - a page buffer [[]byte] is a [list byte]; its capacity is its length,
      as for the buffers [Pager.ReadPage] allocates;
    - the methods of [HeapPage] mutate the buffer in place and may panic
      (slice bounds, or the explicit panic of [setSlot]): they are written
      in a state monad over the buffer whose results are a returned
      value with the new buffer, or a panic. *)

From Stdlib Require Import ZArith List Lia Bool.
From Stdlib Require Import Init.Byte.
From coqutil Require Import Byte.
From stdpp Require Import gmap strings.
Import ListNotations.
Local Open Scope Z_scope.

(** ** Machine integers and byte buffers *)

Definition u16 (z : Z) : Z := z mod 65536.

Definition max_int64 : Z := 9223372036854775807.

(** Two's complement wrap-around of a 64-bit signed integer. *)
Definition i64 (z : Z) : Z := (z + 9223372036854775808) mod 18446744073709551616 - 9223372036854775808.

Definition len {A : Type} (l : list A) : Z := Z.of_nat (length l).

(** [s[lo:hi]] panics unless [0 <= lo <= hi <= cap(s)]. *)
Definition slice_ok (buf : list byte) (lo hi : Z) : bool :=
  (0 <=? lo) && (lo <=? hi) && (hi <=? len buf).

Definition at8 (buf : list byte) (i : Z) : byte := nth (Z.to_nat i) buf x00.

(** The bytes of [buf[lo:hi]]. *)
Definition sub (buf : list byte) (lo hi : Z) : list byte :=
  firstn (Z.to_nat (hi - lo)) (skipn (Z.to_nat lo) buf).

(** Overwrite [buf[lo : lo+len(src)]] with [src]. *)
Definition splice (buf : list byte) (lo : Z) (src : list byte) : list byte :=
  firstn (Z.to_nat lo) buf ++ src ++ skipn (Z.to_nat lo + length src) buf.

(** [binary.LittleEndian.Uint16(buf[base:base+2])]:
    [uint16(b[0]) | uint16(b[1])<<8]. *)
Definition Uint16 (buf : list byte) (base : Z) : Z :=
  Z.lor (byte.unsigned (at8 buf base))
        (Z.shiftl (byte.unsigned (at8 buf (base + 1))) 8).

(** [binary.LittleEndian.PutUint16(buf[base:base+2], v)]:
    [b[0] = byte(v); b[1] = byte(v >> 8)]. *)
Definition PutUint16 (buf : list byte) (base v : Z) : list byte :=
  splice buf base [byte.of_Z v; byte.of_Z (Z.shiftr v 8)].

(** ** Slotted heap page ([internal/storage]) *)

Module HeapPage.

Definition DefaultPageSize : Z := 4096.
Definition hdrSize : Z := 8.
Definition slotSize : Z := 4.

(** The three [errors.New] values of the package. *)
Inductive error : Type :=
| ErrPageBufferTooSmall   (* "page buffer too small" *)
| ErrPageIsFull           (* "page is full" *)
| ErrSlotNotFound.        (* "slot not found" *)

Inductive panic : Type :=
| SliceOutOfRange              (* runtime error: slice bounds out of range *)
| InvalidSlotIndex (i : Z).    (* panic(fmt.Sprintf("invalid slot index %d", i)) *)

Inductive res (A : Type) : Type :=
| Ret (a : A) (buf : list byte)
| Abort (p : panic).
Arguments Ret {A} a buf.
Arguments Abort {A} p.

(** A method of [*HeapPage]: it runs on the buffer [p.buf]. *)
Definition M (A : Type) : Type := list byte -> res A.

Definition ret {A : Type} (a : A) : M A := fun buf => Ret a buf.

Definition bind {A B : Type} (m : M A) (f : A -> M B) : M B :=
  fun buf => match m buf with
             | Ret a buf' => f a buf'
             | Abort p => Abort p
             end.

Definition raise {A : Type} (p : panic) : M A := fun _ => Abort p.

Notation "x <- m ;; k" := (bind m (fun x => k))
  (at level 62, m at next level, right associativity).
Notation "m ;;; k" := (bind m (fun _ => k))
  (at level 62, right associativity).

Definition load16 (base : Z) : M Z := fun buf =>
  if slice_ok buf base (base + 2) then Ret (Uint16 buf base) buf
  else Abort SliceOutOfRange.

Definition store16 (base v : Z) : M unit := fun buf =>
  if slice_ok buf base (base + 2) then Ret tt (PutUint16 buf base v)
  else Abort SliceOutOfRange.

(** [copy(p.buf[lo:hi], src)]: copies [min(hi-lo, len(src))] bytes. *)
Definition copy (lo hi : Z) (src : list byte) : M unit := fun buf =>
  if slice_ok buf lo hi
  then Ret tt (splice buf lo (firstn (Z.to_nat (hi - lo)) src))
  else Abort SliceOutOfRange.

(** [append([]byte(nil), p.buf[lo:hi]...)] *)
Definition read_slice (lo hi : Z) : M (list byte) := fun buf =>
  if slice_ok buf lo hi then Ret (sub buf lo hi) buf
  else Abort SliceOutOfRange.

(** *** Header and slot accessors *)

Definition slotCount : M Z := load16 0.
Definition freeStart : M Z := load16 2.
Definition freeEnd : M Z := load16 4.
Definition flags : M Z := load16 6.
Definition setSlotCount (v : Z) : M unit := store16 0 v.
Definition setFreeStart (v : Z) : M unit := store16 2 v.
Definition setFreeEnd (v : Z) : M unit := store16 4 v.
Definition setFlags (v : Z) : M unit := store16 6 v.

Definition slot (i : Z) : M (Z * Z * bool) :=
  if i <? 0 then ret (0, 0, false)
  else
    sc <- slotCount ;;
    if i >=? sc then ret (0, 0, false)
    else
      let base := hdrSize + i * slotSize in
      off <- load16 base ;;
      ln <- load16 (base + 2) ;;
      ret (off, ln, true).

Definition setSlot (i off ln : Z) : M unit :=
  if i <? 0 then raise (InvalidSlotIndex i)
  else
    sc <- slotCount ;;
    if i >? sc then raise (InvalidSlotIndex i)
    else
      let base := hdrSize + i * slotSize in
      store16 base off ;;;
      store16 (base + 2) ln.

Definition freeSpace : M Z :=
  fe <- freeEnd ;;
  fs0 <- freeStart ;;
  let fs := fe - fs0 in
  if fs <? 0 then ret 0 else ret (u16 fs).

(** *** Public API *)

(** [NewHeapPage(buf)]: the returned [*HeapPage] is the buffer itself.
    The three header reads of the condition cannot panic after the length
    check, so reading all of them before the test is what [&&] does. *)
Definition NewHeapPage : M (option error) := fun buf =>
  if len buf <? hdrSize then Ret (Some ErrPageBufferTooSmall) buf
  else
    (sc <- slotCount ;;
     fs <- freeStart ;;
     fe <- freeEnd ;;
     if (sc =? 0) && (fs =? 0) && (fe =? 0) then
       setSlotCount 0 ;;;
       setFreeStart hdrSize ;;;
       setFreeEnd (u16 (len buf)) ;;;
       setFlags 0 ;;;
       ret None
     else ret None) buf.

Definition Insert (rec : list byte) : M (Z * option error) :=
  let need := u16 (u16 (len rec) + slotSize) in
  fs <- freeSpace ;;
  if fs <? need then ret (-1, Some ErrPageIsFull)
  else
    fe <- freeEnd ;;
    let newEnd := u16 (fe - u16 (len rec)) in
    fe' <- freeEnd ;;
    copy newEnd fe' rec ;;;
    slotID <- slotCount ;;
    sc <- slotCount ;;
    setSlotCount (u16 (sc + 1)) ;;;
    fst <- freeStart ;;
    setFreeStart (u16 (fst + slotSize)) ;;;
    setSlot slotID newEnd (u16 (len rec)) ;;;
    setFreeEnd newEnd ;;;
    ret (slotID, None).

Definition Get (slotID : Z) : M (list byte * bool) :=
  s <- slot slotID ;;
  let '(off, ln, ok) := s in
  if negb ok || (ln =? 0) then ret ([], false)
  else
    r <- read_slice off (off + ln) ;;
    ret (r, true).

Definition Delete (slotID : Z) : M (option error) :=
  s <- slot slotID ;;
  let '(off, ln, ok) := s in
  if negb ok || (ln =? 0) then ret (Some ErrSlotNotFound)
  else
    setSlot slotID off 0 ;;;
    ret None.

Definition Update (slotID : Z) (rec : list byte) : M (option error) :=
  e <- Delete slotID ;;
  match e with
  | Some err => ret (Some err)
  | None =>
      r <- Insert rec ;;
      ret (snd r)
  end.

End HeapPage.

(** ** The page as the header and directory describe it *)

Import HeapPage.

Definition hSlotCount (buf : list byte) : Z := Uint16 buf 0.
Definition hFreeStart (buf : list byte) : Z := Uint16 buf 2.
Definition hFreeEnd (buf : list byte) : Z := Uint16 buf 4.
Definition hFlags (buf : list byte) : Z := Uint16 buf 6.
Definition slotOff (buf : list byte) (i : Z) : Z := Uint16 buf (hdrSize + i * slotSize).
Definition slotLen (buf : list byte) (i : Z) : Z := Uint16 buf (hdrSize + i * slotSize + 2).

(** A slot is live when it is in the directory with a non-zero length. *)
Definition live (buf : list byte) (s : Z) : Prop :=
  0 <= s < hSlotCount buf /\ slotLen buf s <> 0.

(** The bytes a live slot designates. *)
Definition record (buf : list byte) (s : Z) : list byte :=
  sub buf (slotOff buf s) (slotOff buf s + slotLen buf s).

(** Invariants 1, 3 and 4 of the data model: the directory ends at
    [freeStart], the free region is [freeStart, freeEnd) inside the
    buffer, and every directory entry designates bytes of the data region
    [freeEnd, len(buf)). *)
Record page_inv (buf : list byte) : Prop := {
  inv_dir : hFreeStart buf = hdrSize + slotSize * hSlotCount buf;
  inv_free : hFreeStart buf <= hFreeEnd buf;
  inv_end : hFreeEnd buf <= len buf;
  inv_slots : forall i, 0 <= i < hSlotCount buf ->
      hFreeEnd buf <= slotOff buf i /\ slotOff buf i + slotLen buf i <= len buf
}.

(** The invariant as a check that runs on a concrete page. *)
Definition check_page (buf : list byte) : bool :=
  (hFreeStart buf =? hdrSize + slotSize * hSlotCount buf)
  && (hFreeStart buf <=? hFreeEnd buf)
  && (hFreeEnd buf <=? len buf)
  && forallb (fun n => let i := Z.of_nat n in
                (hFreeEnd buf <=? slotOff buf i)
                && (slotOff buf i + slotLen buf i <=? len buf))
             (seq 0 (Z.to_nat (hSlotCount buf))).

(** ** The buffers the operations leave *)

Definition zeros (n : Z) : list byte := repeat x00 (Z.to_nat n).

(** The buffer after the six writes of a successful [Insert], in the
    order of the source: record bytes, [slotCount], [freeStart], the new
    directory entry (offset, then length), [freeEnd]. *)
Definition insert_image (buf rec : list byte) : list byte :=
  let l := u16 (len rec) in
  let sc := hSlotCount buf in
  let newEnd := u16 (hFreeEnd buf - l) in
  let b1 := splice buf newEnd (firstn (Z.to_nat (hFreeEnd buf - newEnd)) rec) in
  let b2 := PutUint16 b1 0 (u16 (sc + 1)) in
  let b3 := PutUint16 b2 2 (u16 (hFreeStart buf + slotSize)) in
  let b4 := PutUint16 b3 (hdrSize + sc * slotSize) newEnd in
  let b5 := PutUint16 b4 (hdrSize + sc * slotSize + 2) l in
  PutUint16 b5 4 newEnd.

(** The buffer after a successful [Delete]: the entry's offset is
    written back and its length is set to 0. *)
Definition delete_image (buf : list byte) (s : Z) : list byte :=
  PutUint16 (PutUint16 buf (hdrSize + s * slotSize) (slotOff buf s))
            (hdrSize + s * slotSize + 2) 0.

(** The buffer after the auto-initialization of [NewHeapPage]. *)
Definition fresh_image (buf : list byte) : list byte :=
  PutUint16 (PutUint16 (PutUint16 (PutUint16 buf 0 0) 2 hdrSize) 4 (u16 (len buf))) 6 0.

(** ** Sequences of operations and the pages they reach *)

Inductive op : Type :=
| OpInsert (rec : list byte)
| OpGet (s : Z)
| OpDelete (s : Z)
| OpUpdate (s : Z) (rec : list byte).

Definition step (o : op) : M unit :=
  match o with
  | OpInsert rec => Insert rec ;;; ret tt
  | OpGet s => Get s ;;; ret tt
  | OpDelete s => Delete s ;;; ret tt
  | OpUpdate s rec => Update s rec ;;; ret tt
  end.

Fixpoint run (ops : list op) : M unit :=
  match ops with
  | [] => ret tt
  | o :: ops' => step o ;;; run ops'
  end.

(** [Pager.Open] accepts a page size when it is a positive multiple of 512. *)
Definition valid_page_size (pageSize : Z) : bool :=
  negb ((pageSize <=? 0) || negb (Z.rem pageSize 512 =? 0)).

(** A page whose 16-bit arithmetic cannot wrap: the invariant holds and
    [freeEnd + 4] fits in 16 bits. Every page of a valid page size below
    65536 is of this kind, see [fresh_sane]. *)
Definition tame (buf : list byte) : Prop := page_inv buf /\ hFreeEnd buf <= 65531.

(** A fresh page over a buffer whose length is a multiple of 65536: the
    header says freeEnd = 0, and nothing can be inserted. *)
Definition stuck (buf : list byte) : Prop :=
  hdrSize <= len buf /\ hSlotCount buf = 0 /\ hFreeEnd buf = 0.

Definition sane (buf : list byte) : Prop := tame buf \/ stuck buf.

(** How a page may change: the free region only shrinks, the directory
    only grows, and a tombstone stays a tombstone. *)
Definition evolves (buf buf' : list byte) : Prop :=
  hFreeStart buf <= hFreeStart buf'
  /\ hFreeEnd buf' <= hFreeEnd buf
  /\ hSlotCount buf <= hSlotCount buf'
  /\ forall i, 0 <= i < hSlotCount buf -> slotLen buf i = 0 -> slotLen buf' i = 0.

(** The operations whose record length wraps in the 16-bit sum
    [uint16(len(rec)) + slotSize] of [Insert]. *)
Definition wraps (o : op) : Prop :=
  match o with
  | OpInsert rec | OpUpdate _ rec => 65532 <= u16 (len rec)
  | OpGet _ | OpDelete _ => False
  end.

(** ** Page file manager ([internal/pager]) *)

Module Pager.

Inductive os_error : Type :=
| ErrClosed            (* os.ErrClosed *)
| ErrNotExist          (* ENOENT *)
| ErrPermission        (* EACCES *)
| ErrIsDirectory       (* EISDIR *)
| ErrNegativeOffset    (* "negative offset" of ReadAt and WriteAt *)
| ErrInvalidArgument   (* EINVAL *)
| EOF.                 (* io.EOF *)

(** The file system: the contents of the files, by path, and the paths
    at which the operating system refuses to open or create a file, with
    the error it gives there (a missing directory, a directory in the
    way, missing rights). The [os.File] calls of the source are modelled
    on it as the [os] package documents them, on a file system that has
    room and no faults: apart from a refused or empty path in
    [OpenFile], a call fails only for a closed handle, a negative offset
    or size, or a byte range beyond the largest [int64] offset. *)
Record disk : Type := {
  files : gmap string (list byte);
  refused : gmap string os_error
}.

(** [d !! path], [<[path := c]> d] and [∅] read, write and start from the
    files of a file system; what is refused stays as it is. *)
#[global] Instance disk_lookup : Lookup string (list byte) disk :=
  fun path d => files d !! path.

#[global] Instance disk_insert : base.Insert string (list byte) disk :=
  fun path c d => {| files := <[path := c]> (files d); refused := refused d |}.

#[global] Instance disk_empty : Empty disk := {| files := ∅; refused := ∅ |}.

Inductive error : Type :=
| ErrInvalidPageSize (n : Z)   (* "invalid page size: %d" *)
| ErrInvalidPageID (id : Z)    (* "invalid page ID: %d" *)
| ErrIO (e : os_error).

Record File : Type := { fname : string; fclosed : bool }.

(** [os.OpenFile(path, os.O_RDWR|os.O_CREATE, 0666)]: it fails with
    ENOENT for the empty path and with the error of the file system for a
    path that is refused; otherwise an absent file is created empty and
    a present one keeps its contents. *)
Definition OpenFile (path : string) (d : disk) : os_error + (File * disk) :=
  if String.eqb path EmptyString then inl ErrNotExist
  else match refused d !! path with
       | Some e => inl e
       | None =>
           inr ({| fname := path; fclosed := false |},
                match d !! path with
                | Some _ => d
                | None => <[path := []]> d
                end)
       end.

Definition FileClose (f : File) : File * option os_error :=
  if fclosed f then (f, Some ErrClosed)
  else ({| fname := fname f; fclosed := true |}, None).

(** [f.Stat()] followed by [.Size()]. *)
Definition StatSize (f : File) (d : disk) : os_error + Z :=
  if fclosed f then inl ErrClosed
  else match d !! fname f with
       | Some c => inr (len c)
       | None => inl ErrNotExist
       end.

(** [f.Truncate(n)]: the file gets [n] bytes; new bytes read as zero. *)
Definition Truncate (f : File) (n : Z) (d : disk) : os_error + disk :=
  if fclosed f then inl ErrClosed
  else if n <? 0 then inl ErrInvalidArgument
  else match d !! fname f with
       | Some c =>
           inr (<[fname f := firstn (Z.to_nat n) c ++ zeros (n - len c)]> d)
       | None => inl ErrNotExist
       end.

(** [f.WriteAt(b, off)]: a write past the end extends the file, the gap
    reading as zero. *)
Definition WriteAt (f : File) (b : list byte) (off : Z) (d : disk) : os_error + disk :=
  if fclosed f then inl ErrClosed
  else if off <? 0 then inl ErrNegativeOffset
  else if off + len b >? max_int64 then inl ErrInvalidArgument
  else match d !! fname f with
       | Some c =>
           inr (<[fname f := splice (c ++ zeros (off + len b - len c)) off b]> d)
       | None => inl ErrNotExist
       end.

(** [f.ReadAt(buf, off)]: fills [buf] from the file; fewer bytes than
    [len(buf)] come with [io.EOF]. *)
Definition ReadAt (f : File) (buf : list byte) (off : Z) (d : disk)
  : list byte * option os_error :=
  if fclosed f then (buf, Some ErrClosed)
  else if off <? 0 then (buf, Some ErrNegativeOffset)
  else match d !! fname f with
       | Some c =>
           let data := sub c off (Z.min (off + len buf) (len c)) in
           (splice buf 0 data, if len data <? len buf then Some EOF else None)
       | None => (buf, Some ErrNotExist)
       end.

Definition Sync (f : File) : option os_error :=
  if fclosed f then Some ErrClosed else None.

Record Pager : Type := { f : File; pageSize : Z }.

Definition Open (path : string) (pageSize : Z) (d : disk) : (error + Pager) * disk :=
  if (pageSize <=? 0) || negb (Z.rem pageSize 512 =? 0)
  then (inl (ErrInvalidPageSize pageSize), d)
  else match OpenFile path d with
       | inl e => (inl (ErrIO e), d)
       | inr (file, d') => (inr {| f := file; pageSize := pageSize |}, d')
       end.

Definition Close (p : Pager) : Pager * option error :=
  let '(file, e) := FileClose (f p) in
  ({| f := file; pageSize := pageSize p |},
   match e with Some e => Some (ErrIO e) | None => None end).

Definition ensureSize (p : Pager) (n : Z) (d : disk) : option error * disk :=
  match StatSize (f p) d with
  | inl e => (Some (ErrIO e), d)
  | inr size =>
      if size >=? n then (None, d)
      else match Truncate (f p) n d with
           | inl e => (Some (ErrIO e), d)
           | inr d' => (None, d')
           end
  end.

Definition ReadPage (p : Pager) (pageID : Z) (d : disk) : (error + list byte) * disk :=
  if pageID <? 0 then (inl (ErrInvalidPageID pageID), d)
  else
    let off := i64 (pageID * pageSize p) in
    let buf := zeros (pageSize p) in
    match StatSize (f p) d with
    | inl e => (inl (ErrIO e), d)
    | inr size =>
        if off >=? size then
          match ensureSize p (i64 (off + pageSize p)) d with
          | (Some e, d') => (inl e, d')
          | (None, d') => (inr buf, d')
          end
        else
          match ReadAt (f p) buf off d with
          | (buf', None) | (buf', Some EOF) => (inr buf', d)
          | (_, Some e) => (inl (ErrIO e), d)
          end
    end.

Definition WritePage (p : Pager) (pageID : Z) (buf : list byte) (d : disk)
  : option error * disk :=
  if negb (len buf =? pageSize p) then (Some (ErrInvalidPageSize (len buf)), d)
  else
    let off := i64 (pageID * pageSize p) in
    match ensureSize p (i64 (off + pageSize p)) d with
    | (Some e, d') => (Some e, d')
    | (None, d') =>
        match WriteAt (f p) buf off d' with
        | inl e => (Some (ErrIO e), d')
        | inr d'' => (None, d'')
        end
    end.

Definition Flush (p : Pager) : option error :=
  match Sync (f p) with Some e => Some (ErrIO e) | None => None end.

Definition PageSize (p : Pager) : Z := pageSize p.

End Pager.

(** The [ps] bytes at offset [off] of the file at [path] are [B]. *)
Definition page_on_disk (d : Pager.disk) (path : string)
    (off ps : Z) (B : list byte) : Prop :=
  exists c, d !! path = Some c
            /\ off + ps <= len c
            /\ sub c off (off + ps) = B.

(** An open handle on an existing file. *)
Definition opened (p : Pager.Pager) (d : Pager.disk) : Prop :=
  Pager.fclosed (Pager.f p) = false
  /\ exists c, d !! Pager.fname (Pager.f p) = Some c.


(** ** The writes of the operations *)

(** The two ways an operation changes the buffer: a successful [Insert]
    and a successful [Delete] ([Update] is one after the other). *)
Inductive write : list byte -> list byte -> Prop :=
| write_insert (buf rec : list byte) :
    u16 (len rec) + slotSize <= hFreeEnd buf - hFreeStart buf ->
    write buf (insert_image buf rec)
| write_delete (buf : list byte) (s : Z) :
    live buf s -> write buf (delete_image buf s).

Inductive writes : list byte -> list byte -> Prop :=
| writes_nil (buf : list byte) : writes buf buf
| writes_cons (buf b1 b2 : list byte) :
    write buf b1 -> writes b1 b2 -> writes buf b2.

(** Directory entries designate ranges that go down the page: a later
    slot ends before an earlier one begins. *)
Definition packed (buf : list byte) : Prop :=
  forall i j, 0 <= i -> i < j -> j < hSlotCount buf ->
    slotOff buf j + slotLen buf j <= slotOff buf i.

(** The byte ranges of two slots do not meet. *)
Definition disjoint_slots (buf : list byte) (i j : Z) : Prop :=
  slotOff buf i + slotLen buf i <= slotOff buf j
  \/ slotOff buf j + slotLen buf j <= slotOff buf i.


(** The [ps] bytes that a file of contents [c] holds from offset [off]
    on, the bytes past its end reading as zero. *)
Definition page_of (c : list byte) (off ps : Z) : list byte :=
  sub (c ++ zeros (off + ps - len c)) off (off + ps).

(** ** The command ([cmd/minirdb]) *)

Module Main.

Import Pager.

(** How [main] ends: at one of its [log.Fatalf] calls, which exit the
    process with status 1, or after its final [fmt.Println]. *)
Inductive outcome : Type :=
| Usage                     (* "Usage: minirdb <dbfile>" *)
| OpenFailed (e : error)    (* "Error opening database file: %v" *)
| ReadFailed (e : error)    (* "Error reading page: %v" *)
| WriteFailed (e : error)   (* "Error writing page: %v" *)
| FlushFailed (e : error)   (* "Error flushing page: %v" *)
| Done.                     (* "OK: wrote magic to page0" *)

(** [[]byte{'M', 'R', 'D', 'B'}] *)
Definition magic : list byte := [x4d; x52; x44; x42].

(** [main] on [os.Args] and the file system. [copy(buf[:4], magic)]
    overwrites the first four bytes of the buffer that [ReadPage]
    returned. The deferred [p.Close()] runs when [main] returns and is
    skipped by [log.Fatalf]; it leaves the file system as it is. *)
Definition main (args : list string) (d : disk) : outcome * disk :=
  if (length args <? 2)%nat then (Usage, d)
  else
    let dbfile := nth 1%nat args EmptyString in
    match Open dbfile 4096 d with
    | (inl e, d0) => (OpenFailed e, d0)
    | (inr p, d0) =>
        match ReadPage p 0 d0 with
        | (inl e, d1) => (ReadFailed e, d1)
        | (inr buf, d1) =>
            let buf := splice buf 0 magic in
            match WritePage p 0 buf d1 with
            | (Some e, d2) => (WriteFailed e, d2)
            | (None, d2) =>
                match Flush p with
                | Some e => (FlushFailed e, d2)
                | None => (Done, d2)
                end
            end
        end
    end.

End Main.

(** ** Byte-buffer lemmas *)

Section Buffers.

Implicit Types (buf src : list byte) (lo hi base i v : Z).

Ltac len_solve := unfold len in *; cbn [length] in *; lia.

Lemma len_nonneg {A : Type} (l : list A) : 0 <= len l.
Proof. unfold len. lia. Qed.

Lemma len_app {A : Type} (l1 l2 : list A) : len (l1 ++ l2) = len l1 + len l2.
Proof. unfold len. rewrite length_app. lia. Qed.

Lemma len_firstn {A : Type} (l : list A) (n : Z) :
  0 <= n -> len (firstn (Z.to_nat n) l) = Z.min n (len l).
Proof. intros Hn. unfold len. rewrite length_firstn. lia. Qed.

Lemma len_splice buf lo src :
  0 <= lo -> lo + len src <= len buf -> len (splice buf lo src) = len buf.
Proof.
  intros Hlo Hhi. unfold splice, len in *.
  rewrite !length_app, length_firstn, length_skipn. lia.
Qed.

Lemma at8_splice_in buf lo src i :
  0 <= lo -> lo + len src <= len buf -> lo <= i < lo + len src ->
  at8 (splice buf lo src) i = at8 src (i - lo).
Proof.
  intros Hlo Hhi Hi. unfold at8, splice, len in *.
  rewrite app_nth2; rewrite length_firstn; [|lia].
  rewrite app_nth1 by lia. f_equal. lia.
Qed.

Lemma at8_splice_out buf lo src i :
  0 <= lo -> lo + len src <= len buf -> 0 <= i ->
  i < lo \/ lo + len src <= i ->
  at8 (splice buf lo src) i = at8 buf i.
Proof.
  intros Hlo Hhi Hi [Hlt | Hge]; unfold at8, splice, len in *.
  - rewrite app_nth1 by (rewrite length_firstn; lia).
    apply nth_firstn_lt || (rewrite nth_firstn; destruct (Nat.ltb_spec (Z.to_nat i) (Z.to_nat lo)); [reflexivity | lia]).
  - rewrite app_nth2; rewrite length_firstn; [|lia].
    rewrite app_nth2 by lia. rewrite nth_skipn. f_equal. lia.
Qed.

Lemma at8_0 (a : byte) (l : list byte) : at8 (a :: l) 0 = a.
Proof. reflexivity. Qed.

Lemma at8_1 (a b : byte) (l : list byte) : at8 (a :: b :: l) 1 = b.
Proof. reflexivity. Qed.

Lemma at8_ext (a b : list byte) :
  len a = len b -> (forall i, 0 <= i < len a -> at8 a i = at8 b i) -> a = b.
Proof.
  intros Hlen Hnth. unfold len in *.
  apply (nth_ext a b x00 x00); [lia|].
  intros n Hn. specialize (Hnth (Z.of_nat n)). unfold at8 in Hnth.
  rewrite Nat2Z.id in Hnth. apply Hnth. lia.
Qed.

Lemma len_sub buf lo hi :
  0 <= lo -> lo <= hi -> hi <= len buf -> len (sub buf lo hi) = hi - lo.
Proof.
  intros Hlo Hle Hhi. unfold sub, len in *.
  rewrite length_firstn, length_skipn. lia.
Qed.

Lemma at8_sub buf lo hi i :
  0 <= lo -> 0 <= i < hi - lo -> at8 (sub buf lo hi) i = at8 buf (lo + i).
Proof.
  intros Hlo Hi. unfold at8, sub.
  rewrite nth_firstn. destruct (Nat.ltb_spec (Z.to_nat i) (Z.to_nat (hi - lo))); [|lia].
  rewrite nth_skipn. f_equal. lia.
Qed.

Lemma sub_splice_same buf lo src :
  0 <= lo -> lo + len src <= len buf ->
  sub (splice buf lo src) lo (lo + len src) = src.
Proof.
  intros Hlo Hhi. pose proof (len_nonneg src) as Hs.
  apply at8_ext.
  - rewrite len_sub; rewrite ?len_splice; lia.
  - intros i Hi. rewrite len_sub in Hi; rewrite ?len_splice; try lia.
    rewrite at8_sub by lia. rewrite at8_splice_in by lia. f_equal. lia.
Qed.

Lemma sub_splice_out buf lo src a b :
  0 <= lo -> lo + len src <= len buf ->
  0 <= a -> a <= b -> b <= len buf ->
  b <= lo \/ lo + len src <= a ->
  sub (splice buf lo src) a b = sub buf a b.
Proof.
  intros Hlo Hhi Ha Hab Hb Hdis.
  apply at8_ext.
  - rewrite !len_sub; rewrite ?len_splice; lia.
  - intros i Hi. rewrite len_sub in Hi; rewrite ?len_splice; try lia.
    rewrite !at8_sub by lia. apply at8_splice_out; lia.
Qed.

Lemma sub_all (l : list byte) : sub l 0 (len l) = l.
Proof.
  unfold sub, len. cbn [Z.to_nat skipn]. rewrite Z.sub_0_r, Nat2Z.id.
  apply firstn_all.
Qed.

Lemma lor_shift8 (a b : Z) :
  0 <= a < 256 -> 0 <= b -> Z.lor a (Z.shiftl b 8) = a + 256 * b.
Proof.
  intros Ha Hb. rewrite <- Z.add_nocarry_lor.
  - rewrite Z.shiftl_mul_pow2 by lia. change (2 ^ 8) with 256. lia.
  - apply Z.bits_inj'. intros n Hn. rewrite Z.land_spec, Z.bits_0.
    destruct (Z.ltb_spec n 8) as [Hlt | Hge].
    + rewrite (Z.shiftl_spec_low b 8 n) by lia. apply andb_false_r.
    + replace a with (a mod 2 ^ 8) by (apply Z.mod_small; change (2 ^ 8) with 256; lia).
      rewrite Z.mod_pow2_bits_high by lia. reflexivity.
Qed.

Lemma Uint16_arith buf base :
  Uint16 buf base
  = byte.unsigned (at8 buf base) + 256 * byte.unsigned (at8 buf (base + 1)).
Proof.
  unfold Uint16.
  pose proof (byte.unsigned_range (at8 buf base)) as H0.
  pose proof (byte.unsigned_range (at8 buf (base + 1))) as H1.
  change (2 ^ 8) with 256 in *. apply lor_shift8; lia.
Qed.

Lemma Uint16_range buf base : 0 <= Uint16 buf base < 65536.
Proof.
  rewrite Uint16_arith.
  pose proof (byte.unsigned_range (at8 buf base)) as H0.
  pose proof (byte.unsigned_range (at8 buf (base + 1))) as H1.
  change (2 ^ 8) with 256 in *. lia.
Qed.

Lemma len_PutUint16 buf base v :
  0 <= base -> base + 2 <= len buf -> len (PutUint16 buf base v) = len buf.
Proof. intros. unfold PutUint16. apply len_splice; len_solve. Qed.

Lemma Uint16_splice_out buf lo src base :
  0 <= lo -> lo + len src <= len buf -> 0 <= base ->
  base + 2 <= lo \/ lo + len src <= base ->
  Uint16 (splice buf lo src) base = Uint16 buf base.
Proof.
  intros Hlo Hhi Hb Hdis. unfold Uint16.
  rewrite !at8_splice_out by lia. reflexivity.
Qed.

Lemma Uint16_Put_same buf base v :
  0 <= base -> base + 2 <= len buf ->
  Uint16 (PutUint16 buf base v) base = u16 v.
Proof.
  intros Hb Hhi. rewrite Uint16_arith. unfold PutUint16.
  rewrite !at8_splice_in by (len_solve).
  replace (base - base) with 0 by lia.
  replace (base + 1 - base) with 1 by lia.
  rewrite at8_0, at8_1.
  rewrite !byte.unsigned_of_Z. unfold byte.wrap, u16.
  rewrite Z.shiftr_div_pow2 by lia.
  change (2 ^ 8) with 256.
  Z.div_mod_to_equations. lia.
Qed.

Lemma Uint16_Put_other buf base v b :
  0 <= base -> base + 2 <= len buf -> 0 <= b ->
  b + 2 <= base \/ base + 2 <= b ->
  Uint16 (PutUint16 buf base v) b = Uint16 buf b.
Proof.
  intros. unfold PutUint16. apply Uint16_splice_out; len_solve.
Qed.

Lemma at8_Put_other buf base v i :
  0 <= base -> base + 2 <= len buf -> 0 <= i ->
  i < base \/ base + 2 <= i ->
  at8 (PutUint16 buf base v) i = at8 buf i.
Proof.
  intros. unfold PutUint16. apply at8_splice_out; len_solve.
Qed.

Lemma sub_Put_other buf base v a b :
  0 <= base -> base + 2 <= len buf ->
  0 <= a -> a <= b -> b <= len buf ->
  b <= base \/ base + 2 <= a ->
  sub (PutUint16 buf base v) a b = sub buf a b.
Proof.
  intros. unfold PutUint16. apply sub_splice_out; len_solve.
Qed.

(** Writing back the value a field already holds changes nothing. *)
Lemma PutUint16_same_value buf base :
  0 <= base -> base + 2 <= len buf ->
  PutUint16 buf base (Uint16 buf base) = buf.
Proof.
  intros Hb Hhi. apply at8_ext.
  - apply len_PutUint16; lia.
  - intros i Hi. rewrite len_PutUint16 in Hi by lia.
    destruct (Z_lt_dec i base); [apply at8_Put_other; lia|].
    destruct (Z_le_dec (base + 2) i); [apply at8_Put_other; lia|].
    unfold PutUint16. rewrite at8_splice_in by (len_solve).
    rewrite Uint16_arith.
    pose proof (byte.unsigned_range (at8 buf base)) as H0.
    pose proof (byte.unsigned_range (at8 buf (base + 1))) as H1.
    change (2 ^ 8) with 256 in *.
    assert (i = base \/ i = base + 1) as [-> | ->] by lia.
    + replace (base - base) with 0 by lia. rewrite at8_0.
      rewrite <- (byte.of_Z_unsigned (at8 buf base)) at 2.
      apply byte.unsigned_inj. rewrite !byte.unsigned_of_Z. unfold byte.wrap.
      change (2 ^ 8) with 256. Z.div_mod_to_equations. lia.
    + replace (base + 1 - base) with 1 by lia. rewrite at8_1.
      rewrite <- (byte.of_Z_unsigned (at8 buf (base + 1))) at 2.
      apply byte.unsigned_inj. rewrite !byte.unsigned_of_Z. unfold byte.wrap.
      rewrite Z.shiftr_div_pow2 by lia. change (2 ^ 8) with 256.
      Z.div_mod_to_equations. lia.
Qed.

End Buffers.

Lemma check_page_sound (buf : list byte) : check_page buf = true -> page_inv buf.
Proof.
  unfold check_page. rewrite !andb_true_iff.
  intros [[[Hd Hf] He] Hs]. split; try lia.
  intros i Hi. rewrite forallb_forall in Hs.
  specialize (Hs (Z.to_nat i)). rewrite Z2Nat.id in Hs by lia.
  rewrite andb_true_iff in Hs.
  assert (In (Z.to_nat i) (seq 0 (Z.to_nat (hSlotCount buf)))) as Hin
    by (apply in_seq; lia).
  apply Hs in Hin. lia.
Qed.

Lemma page_inv_len (buf : list byte) : page_inv buf -> hdrSize <= len buf.
Proof.
  intros [Hd Hf He _]. pose proof (Uint16_range buf 0) as Hr.
  unfold hSlotCount, hdrSize, slotSize in *. lia.
Qed.

(** ** Running the accessors *)

Section Running.

Implicit Types (buf : list byte) (base v i : Z).

Lemma bind_ok {A B : Type} (m : M A) (f : A -> M B) buf a buf' :
  m buf = Ret a buf' -> bind m f buf = f a buf'.
Proof. intros H. unfold bind. rewrite H. reflexivity. Qed.

Lemma bind_abort {A B : Type} (m : M A) (f : A -> M B) buf p :
  m buf = Abort p -> bind m f buf = Abort p.
Proof. intros H. unfold bind. rewrite H. reflexivity. Qed.

Lemma bind_inv {A B : Type} (m : M A) (f : A -> M B) buf b buf' :
  bind m f buf = Ret b buf' ->
  exists a buf1, m buf = Ret a buf1 /\ f a buf1 = Ret b buf'.
Proof.
  unfold bind. destruct (m buf) as [a buf1 | p]; [eauto | discriminate].
Qed.

Lemma slice_ok_true buf lo hi :
  0 <= lo -> lo <= hi -> hi <= len buf -> slice_ok buf lo hi = true.
Proof. intros. unfold slice_ok. rewrite !andb_true_iff. lia. Qed.

Lemma slice_ok_iff buf lo hi :
  slice_ok buf lo hi = true <-> 0 <= lo /\ lo <= hi /\ hi <= len buf.
Proof. unfold slice_ok. rewrite !andb_true_iff. lia. Qed.

Lemma load16_ok base buf :
  0 <= base -> base + 2 <= len buf -> load16 base buf = Ret (Uint16 buf base) buf.
Proof. intros. unfold load16. rewrite slice_ok_true by lia. reflexivity. Qed.

Lemma store16_ok base v buf :
  0 <= base -> base + 2 <= len buf ->
  store16 base v buf = Ret tt (PutUint16 buf base v).
Proof. intros. unfold store16. rewrite slice_ok_true by lia. reflexivity. Qed.

Lemma load16_inv base buf v buf' :
  load16 base buf = Ret v buf' ->
  buf' = buf /\ v = Uint16 buf base /\ 0 <= base /\ base + 2 <= len buf.
Proof.
  unfold load16. destruct (slice_ok buf base (base + 2)) eqn:E; [|discriminate].
  apply slice_ok_iff in E. intros [= <- <-]. repeat split; lia.
Qed.

Lemma store16_inv base v buf u buf' :
  store16 base v buf = Ret u buf' ->
  buf' = PutUint16 buf base v /\ 0 <= base /\ base + 2 <= len buf.
Proof.
  unfold store16. destruct (slice_ok buf base (base + 2)) eqn:E; [|discriminate].
  apply slice_ok_iff in E. intros H. inversion H; subst. repeat split; lia.
Qed.

Lemma slotCount_ok buf : hdrSize <= len buf -> slotCount buf = Ret (hSlotCount buf) buf.
Proof. unfold hdrSize. intros. apply load16_ok; lia. Qed.

Lemma freeStart_ok buf : hdrSize <= len buf -> freeStart buf = Ret (hFreeStart buf) buf.
Proof. unfold hdrSize. intros. apply load16_ok; lia. Qed.

Lemma freeEnd_ok buf : hdrSize <= len buf -> freeEnd buf = Ret (hFreeEnd buf) buf.
Proof. unfold hdrSize. intros. apply load16_ok; lia. Qed.

(** [freeSpace] is [max(0, freeEnd - freeStart)]. *)
Lemma freeSpace_ok buf :
  hdrSize <= len buf ->
  freeSpace buf = Ret (Z.max 0 (hFreeEnd buf - hFreeStart buf)) buf.
Proof.
  intros H. unfold freeSpace.
  rewrite (bind_ok _ _ _ _ _ (freeEnd_ok buf H)).
  rewrite (bind_ok _ _ _ _ _ (freeStart_ok buf H)).
  pose proof (Uint16_range buf 2). pose proof (Uint16_range buf 4).
  unfold hFreeEnd, hFreeStart in *.
  destruct (Z.ltb_spec (Uint16 buf 4 - Uint16 buf 2) 0); unfold ret; f_equal.
  - lia.
  - unfold u16. rewrite Z.mod_small by lia. lia.
Qed.

Lemma slot_out buf i :
  hdrSize <= len buf -> ~ (0 <= i < hSlotCount buf) ->
  slot i buf = Ret (0, 0, false) buf.
Proof.
  intros H Hi. unfold slot.
  destruct (Z.ltb_spec i 0); [reflexivity|].
  rewrite (bind_ok _ _ _ _ _ (slotCount_ok buf H)).
  destruct (Z.geb_spec i (hSlotCount buf)); [reflexivity | lia].
Qed.

Lemma slot_in buf i :
  0 <= i < hSlotCount buf -> hdrSize + slotSize * hSlotCount buf <= len buf ->
  slot i buf = Ret (slotOff buf i, slotLen buf i, true) buf.
Proof.
  intros Hi Hlen. unfold slot, hdrSize, slotSize in *.
  destruct (Z.ltb_spec i 0); [lia|].
  rewrite (bind_ok _ _ _ _ _ (slotCount_ok buf ltac:(unfold hdrSize; lia))).
  destruct (Z.geb_spec i (hSlotCount buf)); [lia|].
  cbv zeta.
  rewrite (bind_ok _ _ _ _ _ (load16_ok (8 + i * 4) buf ltac:(lia) ltac:(lia))).
  rewrite (bind_ok _ _ _ _ _ (load16_ok (8 + i * 4 + 2) buf ltac:(lia) ltac:(lia))).
  reflexivity.
Qed.

(** [setSlot] reaches its explicit panic exactly on an index outside
    [0, slotCount]. *)
Lemma setSlot_panic_iff buf i off ln :
  hdrSize <= len buf ->
  (setSlot i off ln buf = Abort (InvalidSlotIndex i)
   <-> ~ (0 <= i <= hSlotCount buf)).
Proof.
  intros Hlen. pose proof (Uint16_range buf 0) as R. fold (hSlotCount buf) in R.
  unfold setSlot.
  destruct (Z.ltb_spec i 0); [split; [intros _; lia | reflexivity]|].
  rewrite (bind_ok _ _ _ _ _ (slotCount_ok buf Hlen)).
  destruct (Z.gtb_spec i (hSlotCount buf)); [split; [intros _; lia | reflexivity]|].
  split; [|lia]. cbv zeta. unfold bind, store16.
  destruct (slice_ok buf _ _); [|discriminate].
  destruct (slice_ok _ _ _); discriminate.
Qed.

Lemma setSlot_ok buf i off ln :
  0 <= i <= hSlotCount buf -> hdrSize + i * slotSize + 4 <= len buf ->
  setSlot i off ln buf
  = Ret tt (PutUint16 (PutUint16 buf (hdrSize + i * slotSize) off)
                      (hdrSize + i * slotSize + 2) ln).
Proof.
  intros Hi Hlen. unfold setSlot, hdrSize, slotSize in *.
  destruct (Z.ltb_spec i 0); [lia|].
  rewrite (bind_ok _ _ _ _ _ (slotCount_ok buf ltac:(unfold hdrSize; lia))).
  destruct (Z.gtb_spec i (hSlotCount buf)); [lia|].
  cbv zeta.
  rewrite (bind_ok _ _ _ _ _ (store16_ok (8 + i * 4) off buf ltac:(lia) ltac:(lia))).
  apply store16_ok; [lia|]. rewrite len_PutUint16 by lia. lia.
Qed.

End Running.

(** ** What a successful [Insert] writes *)

Lemma u16_small (z : Z) : 0 <= z < 65536 -> u16 z = z.
Proof. intros. unfold u16. apply Z.mod_small. lia. Qed.

Lemma u16_range (z : Z) : 0 <= u16 z < 65536.
Proof. unfold u16. apply Z.mod_pos_bound. lia. Qed.

Lemma u16_len_le {A : Type} (l : list A) : u16 (len l) <= len l.
Proof. unfold u16. pose proof (len_nonneg l). apply Z.mod_le; lia. Qed.

Ltac buf_solve :=
  repeat match goal with
  | |- context [len (PutUint16 ?b ?base ?v)] =>
      rewrite (len_PutUint16 b base v) by buf_solve
  | |- context [len (splice ?b ?lo ?src)] =>
      rewrite (len_splice b lo src) by buf_solve
  end; lia.

Section InsertImage.

Variables (buf rec : list byte).
Hypothesis Hd : hFreeStart buf = hdrSize + slotSize * hSlotCount buf.
Hypothesis He : hFreeEnd buf <= len buf.
Hypothesis Hfit : u16 (len rec) + slotSize <= hFreeEnd buf - hFreeStart buf.

Lemma insert_bounds :
  0 <= hSlotCount buf /\ 0 <= u16 (len rec) /\ hFreeEnd buf < 65536
  /\ u16 (hFreeEnd buf - u16 (len rec)) = hFreeEnd buf - u16 (len rec)
  /\ u16 (hSlotCount buf + 1) = hSlotCount buf + 1
  /\ u16 (hFreeStart buf + slotSize) = hFreeStart buf + slotSize
  /\ u16 (u16 (len rec) + slotSize) = u16 (len rec) + slotSize
  /\ len (firstn (Z.to_nat (u16 (len rec))) rec) = u16 (len rec).
Proof.
  pose proof (Uint16_range buf 0). pose proof (Uint16_range buf 4).
  pose proof (u16_range (len rec)). pose proof (u16_len_le rec).
  unfold hSlotCount, hFreeEnd, hFreeStart, hdrSize, slotSize in *.
  repeat split; try lia; try (apply u16_small; lia).
  rewrite len_firstn by lia. lia.
Qed.

Lemma Insert_ok :
  Insert rec buf = Ret (hSlotCount buf, None) (insert_image buf rec).
Proof.
  destruct insert_bounds as (Hsc & Hl & Hfe & Ee & Esc & Efs & Eneed & Hr).
  unfold hdrSize, slotSize in *.
  assert (Hlen : hdrSize <= len buf) by (unfold hdrSize; lia).
  unfold Insert, insert_image. cbv zeta.
  rewrite (bind_ok _ _ _ _ _ (freeSpace_ok buf Hlen)).
  change slotSize with 4. rewrite Eneed.
  destruct (Z.ltb_spec (Z.max 0 (hFreeEnd buf - hFreeStart buf)) (u16 (len rec) + 4)); [lia|].
  rewrite (bind_ok _ _ _ _ _ (freeEnd_ok buf Hlen)).
  rewrite (bind_ok _ _ _ _ _ (freeEnd_ok buf Hlen)).
  rewrite Ee. replace (hFreeEnd buf - (hFreeEnd buf - u16 (len rec))) with (u16 (len rec)) by lia.
  set (e := hFreeEnd buf - u16 (len rec)).
  set (r := firstn (Z.to_nat (u16 (len rec))) rec) in *.
  set (b1 := splice buf e r).
  assert (copy e (hFreeEnd buf) rec buf = Ret tt b1) as Hcopy.
  { unfold copy. rewrite slice_ok_true by lia.
    subst b1 r e. repeat f_equal. lia. }
  rewrite (bind_ok _ _ _ _ _ Hcopy).
  assert (L1 : len b1 = len buf) by (subst b1; apply len_splice; lia).
  assert (S1 : hSlotCount b1 = hSlotCount buf)
    by (subst b1; apply Uint16_splice_out; lia).
  assert (F1 : hFreeStart b1 = hFreeStart buf)
    by (subst b1; apply Uint16_splice_out; lia).
  rewrite (bind_ok _ _ _ _ _ (slotCount_ok b1 ltac:(unfold hdrSize in *; lia))).
  rewrite (bind_ok _ _ _ _ _ (slotCount_ok b1 ltac:(unfold hdrSize in *; lia))).
  rewrite S1, Esc.
  set (b2 := PutUint16 b1 0 (hSlotCount buf + 1)).
  rewrite (bind_ok _ _ _ _ _ (store16_ok 0 _ b1 ltac:(lia) ltac:(unfold hdrSize in *; lia))
           : bind (setSlotCount _) _ b1 = _).
  fold b2.
  assert (L2 : len b2 = len buf) by (subst b2; rewrite len_PutUint16; unfold hdrSize in *; lia).
  assert (F2 : hFreeStart b2 = hFreeStart buf).
  { subst b2. unfold hFreeStart. rewrite Uint16_Put_other; unfold hdrSize in *; try lia. exact F1. }
  rewrite (bind_ok _ _ _ _ _ (freeStart_ok b2 ltac:(unfold hdrSize in *; lia))).
  rewrite F2, Efs.
  set (b3 := PutUint16 b2 2 (hFreeStart buf + 4)).
  rewrite (bind_ok _ _ _ _ _ (store16_ok 2 _ b2 ltac:(lia) ltac:(unfold hdrSize in *; lia))
           : bind (setFreeStart _) _ b2 = _).
  fold b3.
  assert (L3 : len b3 = len buf) by (subst b3; rewrite len_PutUint16; unfold hdrSize in *; lia).
  assert (S3 : hSlotCount b3 = hSlotCount buf + 1).
  { subst b3 b2. unfold hSlotCount.
    rewrite Uint16_Put_other by (unfold hdrSize in *; buf_solve).
    rewrite Uint16_Put_same by (unfold hdrSize in *; lia).
    exact Esc. }
  rewrite (bind_ok _ _ _ _ _
             (setSlot_ok b3 (hSlotCount buf) e (u16 (len rec))
                ltac:(lia) ltac:(unfold hdrSize, slotSize; lia))).
  change slotSize with 4.
  set (b5 := PutUint16 (PutUint16 b3 _ e) _ _).
  assert (L5 : len b5 = len buf) by (subst b5; unfold hdrSize in *; buf_solve).
  rewrite (bind_ok _ _ _ _ _ (store16_ok 4 e b5 ltac:(lia) ltac:(lia))
           : bind (setFreeEnd _) _ b5 = _).
  reflexivity.
Qed.

End InsertImage.

Lemma Uint16_ext (a b : list byte) (base : Z) :
  at8 a base = at8 b base -> at8 a (base + 1) = at8 b (base + 1) ->
  Uint16 a base = Uint16 b base.
Proof. intros H0 H1. unfold Uint16. rewrite H0, H1. reflexivity. Qed.

Lemma sub_ext (a b : list byte) (lo hi : Z) :
  len a = len b -> 0 <= lo -> lo <= hi -> hi <= len a ->
  (forall j, lo <= j < hi -> at8 a j = at8 b j) ->
  sub a lo hi = sub b lo hi.
Proof.
  intros Hlen Hlo Hle Hhi Hj. apply at8_ext.
  - rewrite !len_sub; lia.
  - intros i Hi. rewrite len_sub in Hi by lia.
    rewrite !at8_sub by lia. apply Hj. lia.
Qed.

Section InsertImageFacts.

Variables (buf rec : list byte).
Hypothesis Hd : hFreeStart buf = hdrSize + slotSize * hSlotCount buf.
Hypothesis He : hFreeEnd buf <= len buf.
Hypothesis Hfit : u16 (len rec) + slotSize <= hFreeEnd buf - hFreeStart buf.

Ltac image_setup :=
  destruct (insert_bounds buf rec Hd Hfit) as (Hsc & Hl & Hfe & Ee & Esc & Efs & Eneed & Hr);
  unfold insert_image; cbv zeta;
  unfold hdrSize, slotSize in *;
  rewrite ?Ee, ?Esc, ?Efs;
  replace (hFreeEnd buf - (hFreeEnd buf - u16 (len rec))) with (u16 (len rec)) by lia.

Lemma len_insert_image : len (insert_image buf rec) = len buf.
Proof. image_setup. buf_solve. Qed.

Lemma insert_image_slotCount :
  hSlotCount (insert_image buf rec) = hSlotCount buf + 1.
Proof.
  image_setup. unfold hSlotCount at 1.
  rewrite !Uint16_Put_other by buf_solve.
  rewrite Uint16_Put_same by buf_solve. exact Esc.
Qed.

Lemma insert_image_freeStart :
  hFreeStart (insert_image buf rec) = hFreeStart buf + slotSize.
Proof.
  image_setup. unfold hFreeStart at 1.
  rewrite !Uint16_Put_other by buf_solve.
  rewrite Uint16_Put_same by buf_solve. exact Efs.
Qed.

Lemma insert_image_freeEnd :
  hFreeEnd (insert_image buf rec) = hFreeEnd buf - u16 (len rec).
Proof.
  image_setup. unfold hFreeEnd at 1.
  rewrite Uint16_Put_same by buf_solve. exact Ee.
Qed.

Lemma insert_image_flags : hFlags (insert_image buf rec) = hFlags buf.
Proof.
  image_setup. unfold hFlags.
  rewrite !Uint16_Put_other by buf_solve.
  apply Uint16_splice_out; lia.
Qed.

Lemma insert_image_slotOff :
  slotOff (insert_image buf rec) (hSlotCount buf) = hFreeEnd buf - u16 (len rec).
Proof.
  image_setup. unfold slotOff, hdrSize, slotSize.
  rewrite !Uint16_Put_other by buf_solve.
  rewrite Uint16_Put_same by buf_solve. exact Ee.
Qed.

Lemma insert_image_slotLen :
  slotLen (insert_image buf rec) (hSlotCount buf) = u16 (len rec).
Proof.
  image_setup. unfold slotLen, hdrSize, slotSize.
  rewrite !Uint16_Put_other by buf_solve.
  rewrite Uint16_Put_same by buf_solve.
  apply u16_small. pose proof (u16_range (len rec)). lia.
Qed.

(** Every byte outside the six header bytes, the new directory entry and
    the new record keeps its value. *)
Lemma insert_image_frame (j : Z) :
  6 <= j ->
  j < hFreeStart buf \/ hFreeStart buf + slotSize <= j ->
  j < hFreeEnd buf - u16 (len rec) \/ hFreeEnd buf <= j ->
  at8 (insert_image buf rec) j = at8 buf j.
Proof.
  intros Hj Hdir Hrec. image_setup.
  rewrite !at8_Put_other by buf_solve.
  apply at8_splice_out; lia.
Qed.

(** The new record's bytes: the first [uint16(len(rec))] bytes of [rec]. *)
Lemma insert_image_record :
  sub (insert_image buf rec) (hFreeEnd buf - u16 (len rec)) (hFreeEnd buf)
  = firstn (Z.to_nat (u16 (len rec))) rec.
Proof.
  image_setup.
  rewrite !sub_Put_other by buf_solve.
  set (r := firstn _ rec) in *.
  set (e := hFreeEnd buf - u16 (len rec)).
  replace (hFreeEnd buf) with (e + len r) by (subst e; lia).
  apply sub_splice_same; subst e; lia.
Qed.

Lemma insert_image_old_slot (i : Z) :
  0 <= i < hSlotCount buf ->
  slotOff (insert_image buf rec) i = slotOff buf i
  /\ slotLen (insert_image buf rec) i = slotLen buf i.
Proof.
  intros Hi.
  destruct (insert_bounds buf rec Hd Hfit) as (Hsc & Hl & Hfe & _).
  unfold slotOff, slotLen, hdrSize, slotSize in *.
  split; apply Uint16_ext; apply insert_image_frame; unfold slotSize; lia.
Qed.

Lemma insert_image_old_bytes (lo hi : Z) :
  hFreeEnd buf <= lo -> lo <= hi -> hi <= len buf ->
  sub (insert_image buf rec) lo hi = sub buf lo hi.
Proof.
  intros Hlo Hle Hhi.
  destruct (insert_bounds buf rec Hd Hfit) as (Hsc & Hl & Hfe & _).
  unfold hdrSize, slotSize in *.
  apply sub_ext; rewrite ?len_insert_image; try lia.
  intros j Hj. apply insert_image_frame; unfold slotSize; lia.
Qed.

End InsertImageFacts.

(** ** [Get], [Delete] and the failing [Insert] *)

Section Operations.

Implicit Types (buf rec : list byte) (s i : Z).

Lemma Insert_full buf rec :
  hdrSize <= len buf ->
  Z.max 0 (hFreeEnd buf - hFreeStart buf) < u16 (u16 (len rec) + slotSize) ->
  Insert rec buf = Ret (-1, Some ErrPageIsFull) buf.
Proof.
  intros Hlen Hfull. unfold Insert. cbv zeta.
  rewrite (bind_ok _ _ _ _ _ (freeSpace_ok buf Hlen)).
  destruct (Z.ltb_spec (Z.max 0 (hFreeEnd buf - hFreeStart buf))
                       (u16 (u16 (len rec) + slotSize))); [reflexivity | lia].
Qed.

Lemma Get_found buf s :
  page_inv buf -> live buf s -> Get s buf = Ret (record buf s, true) buf.
Proof.
  intros Hinv [Hs Hln]. pose proof (page_inv_len buf Hinv) as Hlen.
  destruct Hinv as [Hd Hf He Hsl]. destruct (Hsl s Hs) as [Hlo Hhi].
  pose proof (Uint16_range buf 4) as R4. fold (hFreeEnd buf) in R4.
  pose proof (Uint16_range buf (hdrSize + s * slotSize + 2)) as Rl.
  fold (slotLen buf s) in Rl.
  unfold Get.
  rewrite (bind_ok _ _ _ _ _ (slot_in buf s Hs ltac:(lia))).
  destruct (Z.eqb_spec (slotLen buf s) 0); [contradiction|]. cbn [negb orb].
  unfold bind, read_slice. rewrite slice_ok_true by lia. reflexivity.
Qed.

Lemma Get_not_found buf s :
  page_inv buf -> ~ live buf s -> Get s buf = Ret ([], false) buf.
Proof.
  intros Hinv Hnl. pose proof (page_inv_len buf Hinv) as Hlen.
  destruct Hinv as [Hd Hf He Hsl]. unfold Get, live in *.
  destruct (Z_lt_dec s 0) as [Hneg | Hnn];
    [rewrite (bind_ok _ _ _ _ _ (slot_out buf s Hlen ltac:(lia))); reflexivity|].
  destruct (Z_lt_dec s (hSlotCount buf)) as [Hin | Hout];
    [|rewrite (bind_ok _ _ _ _ _ (slot_out buf s Hlen ltac:(lia))); reflexivity].
  rewrite (bind_ok _ _ _ _ _ (slot_in buf s ltac:(lia) ltac:(lia))).
  destruct (Z.eqb_spec (slotLen buf s) 0); [reflexivity | exfalso; apply Hnl; lia].
Qed.

Lemma Delete_found buf s :
  page_inv buf -> live buf s -> Delete s buf = Ret None (delete_image buf s).
Proof.
  intros Hinv [Hs Hln]. pose proof (page_inv_len buf Hinv) as Hlen.
  destruct Hinv as [Hd Hf He Hsl].
  unfold Delete.
  rewrite (bind_ok _ _ _ _ _ (slot_in buf s Hs ltac:(lia))).
  destruct (Z.eqb_spec (slotLen buf s) 0); [contradiction|]. cbn [negb orb].
  rewrite (bind_ok _ _ _ _ _
             (setSlot_ok buf s (slotOff buf s) 0 ltac:(lia)
                ltac:(unfold hdrSize, slotSize in *; lia))).
  reflexivity.
Qed.

Lemma Delete_not_found buf s :
  page_inv buf -> ~ live buf s -> Delete s buf = Ret (Some ErrSlotNotFound) buf.
Proof.
  intros Hinv Hnl. pose proof (page_inv_len buf Hinv) as Hlen.
  destruct Hinv as [Hd Hf He Hsl]. unfold Delete, live in *.
  destruct (Z_lt_dec s 0) as [Hneg | Hnn];
    [rewrite (bind_ok _ _ _ _ _ (slot_out buf s Hlen ltac:(lia))); reflexivity|].
  destruct (Z_lt_dec s (hSlotCount buf)) as [Hin | Hout];
    [|rewrite (bind_ok _ _ _ _ _ (slot_out buf s Hlen ltac:(lia))); reflexivity].
  rewrite (bind_ok _ _ _ _ _ (slot_in buf s ltac:(lia) ltac:(lia))).
  destruct (Z.eqb_spec (slotLen buf s) 0); [reflexivity | exfalso; apply Hnl; lia].
Qed.

End Operations.

Section DeleteImageFacts.

Variables (buf : list byte) (s : Z).
Hypothesis Hs : 0 <= s.
Hypothesis Hlen : hdrSize + s * slotSize + 4 <= len buf.

Lemma delete_image_offset_kept :
  delete_image buf s = PutUint16 buf (hdrSize + s * slotSize + 2) 0.
Proof.
  unfold delete_image, slotOff. unfold hdrSize, slotSize in *.
  rewrite PutUint16_same_value by lia. reflexivity.
Qed.

Lemma len_delete_image : len (delete_image buf s) = len buf.
Proof. unfold delete_image, hdrSize, slotSize in *. buf_solve. Qed.

(** Only the two bytes of the entry's length field may change. *)
Lemma delete_image_frame (j : Z) :
  0 <= j ->
  j < hdrSize + s * slotSize + 2 \/ hdrSize + s * slotSize + 4 <= j ->
  at8 (delete_image buf s) j = at8 buf j.
Proof.
  intros Hj Hout. rewrite delete_image_offset_kept.
  unfold hdrSize, slotSize in *. apply at8_Put_other; lia.
Qed.

Lemma delete_image_header :
  hSlotCount (delete_image buf s) = hSlotCount buf
  /\ hFreeStart (delete_image buf s) = hFreeStart buf
  /\ hFreeEnd (delete_image buf s) = hFreeEnd buf
  /\ hFlags (delete_image buf s) = hFlags buf.
Proof.
  unfold hSlotCount, hFreeStart, hFreeEnd, hFlags.
  repeat split; apply Uint16_ext; apply delete_image_frame;
    unfold hdrSize, slotSize in *; lia.
Qed.

Lemma delete_image_slotOff (i : Z) :
  0 <= i -> slotOff (delete_image buf s) i = slotOff buf i.
Proof.
  intros Hi. unfold slotOff.
  apply Uint16_ext; apply delete_image_frame; unfold hdrSize, slotSize in *; lia.
Qed.

Lemma delete_image_slotLen_same : slotLen (delete_image buf s) s = 0.
Proof.
  rewrite delete_image_offset_kept. unfold slotLen.
  unfold hdrSize, slotSize in *. rewrite Uint16_Put_same by lia. reflexivity.
Qed.

Lemma delete_image_slotLen_other (i : Z) :
  0 <= i -> i <> s -> slotLen (delete_image buf s) i = slotLen buf i.
Proof.
  intros Hi Hne. unfold slotLen.
  apply Uint16_ext; apply delete_image_frame; unfold hdrSize, slotSize in *; lia.
Qed.

Lemma delete_image_bytes (lo hi : Z) :
  hdrSize + s * slotSize + 4 <= lo -> lo <= hi -> hi <= len buf ->
  sub (delete_image buf s) lo hi = sub buf lo hi.
Proof.
  intros Hlo Hle Hhi. unfold hdrSize, slotSize in *.
  apply sub_ext; rewrite ?len_delete_image; try lia.
  intros j Hj. apply delete_image_frame; unfold hdrSize, slotSize; lia.
Qed.

End DeleteImageFacts.

(** ** The invariant is kept *)

Lemma insert_image_inv (buf rec : list byte) :
  page_inv buf ->
  u16 (len rec) + slotSize <= hFreeEnd buf - hFreeStart buf ->
  page_inv (insert_image buf rec).
Proof.
  intros [Hd Hf He Hsl] Hfit.
  destruct (insert_bounds buf rec Hd Hfit) as (Hsc & Hl & Hfe & _).
  split.
  - rewrite insert_image_freeStart, insert_image_slotCount by assumption.
    unfold hdrSize, slotSize in *. lia.
  - rewrite insert_image_freeStart, insert_image_freeEnd by assumption. lia.
  - rewrite insert_image_freeEnd, len_insert_image by assumption. lia.
  - intros i Hi. rewrite insert_image_slotCount in Hi by assumption.
    rewrite insert_image_freeEnd, len_insert_image by assumption.
    destruct (Z.eq_dec i (hSlotCount buf)) as [-> | Hne].
    + rewrite insert_image_slotOff, insert_image_slotLen by assumption. lia.
    + destruct (insert_image_old_slot buf rec Hd He Hfit i ltac:(lia)) as [-> ->].
      specialize (Hsl i ltac:(lia)). lia.
Qed.

Lemma delete_image_inv (buf : list byte) (s : Z) :
  page_inv buf -> 0 <= s < hSlotCount buf -> page_inv (delete_image buf s).
Proof.
  intros [Hd Hf He Hsl] Hs.
  assert (Hlen : hdrSize + s * slotSize + 4 <= len buf)
    by (unfold hdrSize, slotSize in *; lia).
  destruct (delete_image_header buf s ltac:(lia) Hlen) as (Esc & Efs & Efe & _).
  split; rewrite ?Esc, ?Efs, ?Efe, ?len_delete_image by lia; try assumption.
  intros i Hi. rewrite delete_image_slotOff by lia.
  specialize (Hsl i Hi).
  destruct (Z.eq_dec i s) as [-> | Hne].
  - rewrite delete_image_slotLen_same by lia.
    pose proof (Uint16_range buf (hdrSize + s * slotSize + 2)) as R.
    fold (slotLen buf s) in R. lia.
  - rewrite delete_image_slotLen_other by lia. lia.
Qed.

(** ** Construction *)

Section Construction.

Variable buf : list byte.

Lemma NewHeapPage_small :
  len buf < hdrSize -> NewHeapPage buf = Ret (Some ErrPageBufferTooSmall) buf.
Proof.
  intros H. unfold NewHeapPage.
  destruct (Z.ltb_spec (len buf) hdrSize); [reflexivity | lia].
Qed.

Lemma NewHeapPage_fresh :
  hdrSize <= len buf ->
  hSlotCount buf = 0 -> hFreeStart buf = 0 -> hFreeEnd buf = 0 ->
  NewHeapPage buf = Ret None (fresh_image buf).
Proof.
  intros Hlen Hsc Hfs Hfe. unfold NewHeapPage.
  destruct (Z.ltb_spec (len buf) hdrSize); [lia|].
  rewrite (bind_ok _ _ _ _ _ (slotCount_ok buf Hlen)).
  rewrite (bind_ok _ _ _ _ _ (freeStart_ok buf Hlen)).
  rewrite (bind_ok _ _ _ _ _ (freeEnd_ok buf Hlen)).
  rewrite Hsc, Hfs, Hfe. cbn [Z.eqb andb].
  unfold hdrSize in *.
  rewrite (bind_ok _ _ _ _ _ (store16_ok 0 0 buf ltac:(lia) ltac:(lia))
           : bind (setSlotCount _) _ buf = _).
  set (b1 := PutUint16 buf 0 0).
  assert (L1 : len b1 = len buf) by (subst b1; buf_solve).
  rewrite (bind_ok _ _ _ _ _ (store16_ok 2 8 b1 ltac:(lia) ltac:(lia))
           : bind (setFreeStart _) _ b1 = _).
  set (b2 := PutUint16 b1 2 8).
  assert (L2 : len b2 = len buf) by (subst b2; buf_solve).
  rewrite (bind_ok _ _ _ _ _ (store16_ok 4 (u16 (len buf)) b2 ltac:(lia) ltac:(lia))
           : bind (setFreeEnd _) _ b2 = _).
  set (b3 := PutUint16 b2 4 (u16 (len buf))).
  assert (L3 : len b3 = len buf) by (subst b3; buf_solve).
  rewrite (bind_ok _ _ _ _ _ (store16_ok 6 0 b3 ltac:(lia) ltac:(lia))
           : bind (setFlags _) _ b3 = _).
  reflexivity.
Qed.

Lemma NewHeapPage_used :
  hdrSize <= len buf ->
  ~ (hSlotCount buf = 0 /\ hFreeStart buf = 0 /\ hFreeEnd buf = 0) ->
  NewHeapPage buf = Ret None buf.
Proof.
  intros Hlen Hnz. unfold NewHeapPage.
  destruct (Z.ltb_spec (len buf) hdrSize); [lia|].
  rewrite (bind_ok _ _ _ _ _ (slotCount_ok buf Hlen)).
  rewrite (bind_ok _ _ _ _ _ (freeStart_ok buf Hlen)).
  rewrite (bind_ok _ _ _ _ _ (freeEnd_ok buf Hlen)).
  destruct (Z.eqb_spec (hSlotCount buf) 0); [|reflexivity].
  destruct (Z.eqb_spec (hFreeStart buf) 0); [|reflexivity].
  destruct (Z.eqb_spec (hFreeEnd buf) 0); [|reflexivity].
  tauto.
Qed.

Hypothesis Hlen : hdrSize <= len buf.

Lemma len_fresh_image : len (fresh_image buf) = len buf.
Proof. unfold fresh_image, hdrSize in *. buf_solve. Qed.

Lemma fresh_image_header :
  hSlotCount (fresh_image buf) = 0
  /\ hFreeStart (fresh_image buf) = hdrSize
  /\ hFreeEnd (fresh_image buf) = u16 (len buf)
  /\ hFlags (fresh_image buf) = 0.
Proof.
  unfold fresh_image, hSlotCount, hFreeStart, hFreeEnd, hFlags, hdrSize in *.
  pose proof (u16_range (len buf)) as R.
  split; [|split; [|split]].
  - rewrite !Uint16_Put_other by buf_solve. rewrite Uint16_Put_same by buf_solve. reflexivity.
  - rewrite !Uint16_Put_other by buf_solve. rewrite Uint16_Put_same by buf_solve. reflexivity.
  - rewrite !Uint16_Put_other by buf_solve. rewrite Uint16_Put_same by buf_solve.
    apply u16_small. exact R.
  - rewrite Uint16_Put_same by buf_solve. reflexivity.
Qed.

(** Bytes after the header are not touched by the initialization. *)
Lemma fresh_image_frame (j : Z) : hdrSize <= j -> at8 (fresh_image buf) j = at8 buf j.
Proof.
  intros Hj. unfold fresh_image, hdrSize in *.
  rewrite !at8_Put_other by buf_solve. reflexivity.
Qed.

Lemma fresh_image_inv :
  hdrSize <= u16 (len buf) -> page_inv (fresh_image buf).
Proof.
  intros Hfe. destruct fresh_image_header as (Esc & Efs & Efe & _).
  pose proof (u16_len_le buf).
  split; rewrite ?Esc, ?Efs, ?Efe, ?len_fresh_image; unfold hdrSize, slotSize in *; lia.
Qed.

End Construction.

Lemma len_zeros (n : Z) : 0 <= n -> len (zeros n) = n.
Proof. intros. unfold len, zeros. rewrite repeat_length. lia. Qed.

Lemma at8_zeros (n j : Z) : at8 (zeros n) j = x00.
Proof.
  unfold at8, zeros. destruct (Nat.ltb_spec (Z.to_nat j) (Z.to_nat n)).
  - apply nth_repeat_lt. assumption.
  - apply nth_overflow. rewrite repeat_length. lia.
Qed.

(** Header fields read as 0 when the first six bytes are zero. *)
Lemma zero_prefix_header (buf : list byte) :
  firstn 6 buf = zeros 6 ->
  hSlotCount buf = 0 /\ hFreeStart buf = 0 /\ hFreeEnd buf = 0.
Proof.
  intros Hz.
  assert (forall j, 0 <= j < 6 -> at8 buf j = x00) as Hb.
  { intros j Hj. unfold at8.
    rewrite <- (firstn_skipn 6 buf), Hz.
    assert (Z.to_nat j < 6)%nat as Hlt by lia.
    revert Hlt. generalize (Z.to_nat j). intros n Hn.
    do 6 (destruct n as [|n]; [reflexivity|]). lia. }
  unfold hSlotCount, hFreeStart, hFreeEnd.
  rewrite !Uint16_arith.
  rewrite (Hb 0), (Hb (0 + 1)), (Hb 2), (Hb (2 + 1)), (Hb 4), (Hb (4 + 1)) by lia.
  repeat split; reflexivity.
Qed.

(** ** Specification of the successful operations *)

Lemma firstn_len_all (rec : list byte) (n : Z) :
  n = len rec -> firstn (Z.to_nat n) rec = rec.
Proof. intros ->. unfold len. rewrite Nat2Z.id. apply firstn_all. Qed.

(** What [Insert] does when the record and its directory entry fit. *)
Lemma Insert_spec (buf rec : list byte) :
  page_inv buf ->
  len rec + slotSize <= hFreeEnd buf - hFreeStart buf ->
  let buf' := insert_image buf rec in
  Insert rec buf = Ret (hSlotCount buf, None) buf'
  /\ sub buf' (hFreeEnd buf - len rec) (hFreeEnd buf) = rec
  /\ hSlotCount buf' = hSlotCount buf + 1
  /\ slotOff buf' (hSlotCount buf) = hFreeEnd buf - len rec
  /\ slotLen buf' (hSlotCount buf) = len rec
  /\ hFreeStart buf' = hFreeStart buf + slotSize
  /\ hFreeEnd buf' = hFreeEnd buf - len rec
  /\ page_inv buf'.
Proof.
  intros Hinv Hfit buf'. subst buf'.
  pose proof Hinv as [Hd Hf He Hsl].
  pose proof (Uint16_range buf 4) as R4. fold (hFreeEnd buf) in R4.
  pose proof (Uint16_range buf 2) as R2. fold (hFreeStart buf) in R2.
  pose proof (len_nonneg rec) as Hl.
  assert (El : u16 (len rec) = len rec) by (apply u16_small; unfold slotSize in *; lia).
  assert (Hfit' : u16 (len rec) + slotSize <= hFreeEnd buf - hFreeStart buf)
    by (rewrite El; exact Hfit).
  split; [apply Insert_ok; assumption|].
  split; [rewrite <- El at 1; rewrite insert_image_record by assumption;
          apply firstn_len_all; exact El|].
  split; [apply insert_image_slotCount; assumption|].
  split; [rewrite insert_image_slotOff by assumption; lia|].
  split; [rewrite insert_image_slotLen by assumption; lia|].
  split; [apply insert_image_freeStart; assumption|].
  split; [rewrite insert_image_freeEnd by assumption; lia|].
  apply insert_image_inv; assumption.
Qed.

(** A freshly initialized page of [n] bytes, [n] in [8, 65536). *)
Lemma fresh_page (buf : list byte) :
  hdrSize <= len buf < 65536 -> firstn 6 buf = zeros 6 ->
  NewHeapPage buf = Ret None (fresh_image buf)
  /\ page_inv (fresh_image buf)
  /\ hSlotCount (fresh_image buf) = 0
  /\ hFreeStart (fresh_image buf) = hdrSize
  /\ hFreeEnd (fresh_image buf) = len buf.
Proof.
  intros Hlen Hz. destruct (zero_prefix_header buf Hz) as (Hsc & Hfs & Hfe).
  destruct (fresh_image_header buf ltac:(lia)) as (Esc & Efs & Efe & _).
  assert (El : u16 (len buf) = len buf) by (apply u16_small; unfold hdrSize in *; lia).
  split; [apply NewHeapPage_fresh; (lia || assumption)|].
  split; [apply fresh_image_inv; lia|].
  repeat split; try assumption. rewrite Efe. exact El.
Qed.

(** ** Claims on construction and insertion *)

(** The header written by the auto-initialization, for every length:
    [freeEnd] is [len(buf)] truncated to 16 bits. *)
Lemma NewHeapPage_fresh_header (buf : list byte) :
  hdrSize <= len buf -> firstn 6 buf = zeros 6 ->
  exists buf', NewHeapPage buf = Ret None buf'
    /\ hSlotCount buf' = 0
    /\ hFreeStart buf' = hdrSize
    /\ hFreeEnd buf' = len buf mod 65536
    /\ hFlags buf' = 0.
Proof.
  intros Hlen Hz. destruct (zero_prefix_header buf Hz) as (Hsc & Hfs & Hfe).
  destruct (fresh_image_header buf Hlen) as (Esc & Efs & Efe & Efl).
  exists (fresh_image buf).
  split; [apply NewHeapPage_fresh; assumption|].
  repeat split; assumption.
Qed.

(** C3 (amended): constructing a slotted page over a buffer shorter than
    the 8-byte header fails with "page buffer too small"; over a buffer of
    at least 8 and fewer than 65536 bytes whose first six bytes are zero
    it initializes the header to slotCount = 0, freeStart = 8,
    freeEnd = len(buf), flags = 0. *)
Theorem NewHeapPage_auto_init (buf : list byte) :
  (len buf < hdrSize -> NewHeapPage buf = Ret (Some ErrPageBufferTooSmall) buf)
  /\ (hdrSize <= len buf < 65536 -> firstn 6 buf = zeros 6 ->
      exists buf', NewHeapPage buf = Ret None buf'
        /\ hSlotCount buf' = 0
        /\ hFreeStart buf' = hdrSize
        /\ hFreeEnd buf' = len buf
        /\ hFlags buf' = 0).
Proof.
  split; [apply NewHeapPage_small|].
  intros Hlen Hz.
  destruct (NewHeapPage_fresh_header buf ltac:(lia) Hz)
    as (buf' & Hnew & Hsc & Hfs & Hfe & Hfl).
  exists buf'. rewrite Z.mod_small in Hfe by (unfold hdrSize in *; lia).
  repeat (split; [assumption|]). assumption.
Qed.

Lemma NewHeapPage_auto_init_witness :
  NewHeapPage [x00; x01] = Ret (Some ErrPageBufferTooSmall) [x00; x01]
  /\ exists buf', NewHeapPage (zeros 4096) = Ret None buf'
       /\ hSlotCount buf' = 0
       /\ hFreeStart buf' = hdrSize
       /\ hFreeEnd buf' = len (zeros 4096)
       /\ hFlags buf' = 0.
Proof.
  split.
  - apply (proj1 (NewHeapPage_auto_init [x00; x01])). vm_compute. reflexivity.
  - apply (proj2 (NewHeapPage_auto_init (zeros 4096))).
    + vm_compute. split; [discriminate | reflexivity].
    + vm_compute. reflexivity.
Defined.

(** C3, as stated, fails for buffers of 65536 bytes or more: the header
    stores [uint16(len(buf))], so a 65536-byte zero buffer is initialized
    with freeEnd = 0, not 65536. *)
Lemma NewHeapPage_auto_init_counterexample :
  hdrSize <= len (zeros 65536)
  /\ firstn 6 (zeros 65536) = zeros 6
  /\ exists buf', NewHeapPage (zeros 65536) = Ret None buf'
       /\ hFreeEnd buf' = 0
       /\ hFreeEnd buf' <> len (zeros 65536).
Proof.
  assert (Hlen : len (zeros 65536) = 65536) by (apply len_zeros; lia).
  assert (Hz : firstn 6 (zeros 65536) = zeros 6) by (vm_compute; reflexivity).
  destruct (zero_prefix_header _ Hz) as (Hsc & Hfs & Hfe).
  destruct (fresh_image_header (zeros 65536)) as (_ & _ & Efe & _);
    [rewrite Hlen; unfold hdrSize; lia|].
  split; [rewrite Hlen; unfold hdrSize; lia|].
  split; [exact Hz|].
  exists (fresh_image (zeros 65536)).
  split; [apply NewHeapPage_fresh; try assumption; rewrite Hlen; unfold hdrSize; lia|].
  rewrite Efe, Hlen. split; [reflexivity | discriminate].
Qed.

(** C5: on a slotted page whose free space is at least len(R)+4,
    Insert(R) returns the former slotCount as slot ID, stores R in
    [freeEnd - len(R), freeEnd), appends the directory entry
    (newOffset, len(R)), increments slotCount, advances freeStart by 4 and
    sets freeEnd to newOffset; on a fresh 4096-byte page a 100-byte insert
    returns slot 0, stores at 3996..4096 and leaves freeStart = 12,
    freeEnd = 3996. *)
Theorem Insert_success :
  (forall buf rec : list byte,
      page_inv buf ->
      len rec + slotSize <= hFreeEnd buf - hFreeStart buf ->
      exists buf',
        Insert rec buf = Ret (hSlotCount buf, None) buf'
        /\ sub buf' (hFreeEnd buf - len rec) (hFreeEnd buf) = rec
        /\ hSlotCount buf' = hSlotCount buf + 1
        /\ slotOff buf' (hSlotCount buf) = hFreeEnd buf - len rec
        /\ slotLen buf' (hSlotCount buf) = len rec
        /\ hFreeStart buf' = hFreeStart buf + slotSize
        /\ hFreeEnd buf' = hFreeEnd buf - len rec)
  /\ (forall buf rec : list byte,
      len buf = 4096 -> firstn 6 buf = zeros 6 -> len rec = 100 ->
      exists page page',
        NewHeapPage buf = Ret None page
        /\ Insert rec page = Ret (0, None) page'
        /\ sub page' 3996 4096 = rec
        /\ hFreeStart page' = 12
        /\ hFreeEnd page' = 3996).
Proof.
  split.
  - intros buf rec Hinv Hfit. exists (insert_image buf rec).
    destruct (Insert_spec buf rec Hinv Hfit) as (H1 & H2 & H3 & H4 & H5 & H6 & H7 & _).
    repeat (split; [assumption|]). assumption.
  - intros buf rec Hlen Hz Hrec.
    destruct (fresh_page buf ltac:(unfold hdrSize; lia) Hz) as (Hnew & Hinv & Hsc & Hfs & Hfe).
    unfold hdrSize in *.
    destruct (Insert_spec (fresh_image buf) rec Hinv ltac:(unfold slotSize; lia))
      as (H1 & H2 & _ & _ & _ & H6 & H7 & _).
    exists (fresh_image buf), (insert_image (fresh_image buf) rec).
    rewrite Hsc, Hfe, ?Hfs, Hlen, Hrec in *. unfold slotSize in *.
    repeat (split; [assumption|]). assumption.
Qed.

Lemma Insert_success_witness :
  (exists buf',
      Insert [x41; x42; x43] (insert_image (fresh_image (zeros 512)) [x44])
      = Ret (hSlotCount (insert_image (fresh_image (zeros 512)) [x44]), None) buf'
      /\ hFreeStart buf'
         = hFreeStart (insert_image (fresh_image (zeros 512)) [x44]) + slotSize)
  /\ (exists page page',
        NewHeapPage (zeros 4096) = Ret None page
        /\ Insert (repeat x41 100) page = Ret (0, None) page'
        /\ sub page' 3996 4096 = repeat x41 100
        /\ hFreeStart page' = 12
        /\ hFreeEnd page' = 3996).
Proof.
  split.
  - destruct (proj1 Insert_success (insert_image (fresh_image (zeros 512)) [x44])
                [x41; x42; x43]) as (buf' & H1 & _ & _ & _ & _ & H6 & _).
    + apply check_page_sound. vm_compute. reflexivity.
    + vm_compute. discriminate.
    + exists buf'. split; assumption.
  - apply (proj2 Insert_success (zeros 4096) (repeat x41 100)).
    + vm_compute. reflexivity.
    + vm_compute. reflexivity.
    + vm_compute. reflexivity.
Defined.

(** ** Sequences of operations *)

Section Sequences.

Implicit Types (buf rec : list byte) (s i : Z) (o : op) (ops : list op).

Lemma evolves_refl buf : evolves buf buf.
Proof. unfold evolves. split; [|split; [|split]]; try lia. Qed.

Lemma evolves_trans b1 b2 b3 : evolves b1 b2 -> evolves b2 b3 -> evolves b1 b3.
Proof.
  intros (F1 & E1 & S1 & T1) (F2 & E2 & S2 & T2).
  unfold evolves. split; [|split; [|split]]; try lia.
  intros i Hi Hz. apply T2; [lia|]. apply T1; assumption.
Qed.

Lemma insert_evolves buf rec :
  page_inv buf ->
  u16 (len rec) + slotSize <= hFreeEnd buf - hFreeStart buf ->
  evolves buf (insert_image buf rec).
Proof.
  intros [Hd Hf He Hsl] Hfit.
  pose proof (u16_range (len rec)) as Rl.
  unfold evolves.
  rewrite insert_image_freeStart, insert_image_freeEnd, insert_image_slotCount
    by assumption.
  unfold slotSize in *. split; [|split; [|split]]; try lia.
  intros i Hi Hz.
  destruct (insert_image_old_slot buf rec Hd He Hfit i Hi) as [_ ->]. exact Hz.
Qed.

Lemma delete_evolves buf s :
  page_inv buf -> 0 <= s < hSlotCount buf -> evolves buf (delete_image buf s).
Proof.
  intros [Hd Hf He Hsl] Hs.
  assert (Hlen : hdrSize + s * slotSize + 4 <= len buf)
    by (unfold hdrSize, slotSize in *; lia).
  destruct (delete_image_header buf s ltac:(lia) Hlen) as (Esc & Efs & Efe & _).
  unfold evolves. rewrite Esc, Efs, Efe. split; [|split; [|split]]; try lia.
  intros i Hi Hz. destruct (Z.eq_dec i s) as [-> | Hne].
  - apply delete_image_slotLen_same; lia.
  - rewrite delete_image_slotLen_other by lia. exact Hz.
Qed.

Lemma live_dec buf s : {live buf s} + {~ live buf s}.
Proof.
  unfold live.
  destruct (Z_le_dec 0 s); [|right; lia].
  destruct (Z_lt_dec s (hSlotCount buf)); [|right; lia].
  destruct (Z.eq_dec (slotLen buf s) 0); [right; lia | left; lia].
Qed.

(** When [uint16(len(rec))] exceeds [freeEnd], the 16-bit subtraction
    wraps above [freeEnd] and the slice expression panics. *)
Lemma Insert_wrap_abort buf rec :
  hdrSize <= len buf ->
  u16 (u16 (len rec) + slotSize) <= Z.max 0 (hFreeEnd buf - hFreeStart buf) ->
  hFreeEnd buf < u16 (len rec) ->
  Insert rec buf = Abort SliceOutOfRange.
Proof.
  intros Hlen Hpass Hwrap. unfold Insert. cbv zeta.
  rewrite (bind_ok _ _ _ _ _ (freeSpace_ok buf Hlen)).
  destruct (Z.ltb_spec (Z.max 0 (hFreeEnd buf - hFreeStart buf))
                       (u16 (u16 (len rec) + slotSize))); [lia|].
  rewrite (bind_ok _ _ _ _ _ (freeEnd_ok buf Hlen)).
  rewrite (bind_ok _ _ _ _ _ (freeEnd_ok buf Hlen)).
  apply bind_abort. unfold copy.
  pose proof (Uint16_range buf 4) as R4. fold (hFreeEnd buf) in R4.
  pose proof (u16_range (len rec)) as Rl.
  assert (u16 (hFreeEnd buf - u16 (len rec)) = hFreeEnd buf - u16 (len rec) + 65536) as ->.
  { unfold u16 at 1. symmetry. apply (Z.mod_unique _ _ (-1)); lia. }
  unfold slice_ok.
  destruct (Z.leb_spec (hFreeEnd buf - u16 (len rec) + 65536) (hFreeEnd buf)); [lia|].
  rewrite andb_false_r. reflexivity.
Qed.

Lemma Insert_tame buf rec :
  tame buf ->
  Insert rec buf = Ret (-1, Some ErrPageIsFull) buf
  \/ (Insert rec buf = Abort SliceOutOfRange /\ 65532 <= u16 (len rec))
  \/ (u16 (len rec) + slotSize <= hFreeEnd buf - hFreeStart buf
      /\ Insert rec buf = Ret (hSlotCount buf, None) (insert_image buf rec)).
Proof.
  intros [Hinv Hfe]. pose proof (page_inv_len buf Hinv) as Hlen.
  pose proof Hinv as [Hd Hf He Hsl].
  pose proof (u16_range (len rec)) as Rl.
  destruct (Z_lt_dec (Z.max 0 (hFreeEnd buf - hFreeStart buf))
                     (u16 (u16 (len rec) + slotSize))) as [Hfull | Hpass].
  { left. apply Insert_full; assumption. }
  right. destruct (Z_le_dec 65532 (u16 (len rec))) as [Hbig | Hsmall].
  - left. split; [apply Insert_wrap_abort; lia | exact Hbig].
  - right. unfold slotSize in *.
    rewrite (u16_small (u16 (len rec) + 4)) in Hpass by lia.
    split; [lia|]. apply Insert_ok; unfold slotSize; try assumption; lia.
Qed.

Lemma Get_out buf s :
  hdrSize <= len buf -> ~ (0 <= s < hSlotCount buf) -> Get s buf = Ret ([], false) buf.
Proof.
  intros Hlen Hs. unfold Get.
  rewrite (bind_ok _ _ _ _ _ (slot_out buf s Hlen Hs)). reflexivity.
Qed.

Lemma Delete_out buf s :
  hdrSize <= len buf -> ~ (0 <= s < hSlotCount buf) ->
  Delete s buf = Ret (Some ErrSlotNotFound) buf.
Proof.
  intros Hlen Hs. unfold Delete.
  rewrite (bind_ok _ _ _ _ _ (slot_out buf s Hlen Hs)). reflexivity.
Qed.

Lemma Update_run_err s rec buf e b1 :
  Delete s buf = Ret (Some e) b1 -> Update s rec buf = Ret (Some e) b1.
Proof. intros H. unfold Update. rewrite (bind_ok _ _ _ _ _ H). reflexivity. Qed.

Lemma Update_run_ok s rec buf b1 r b2 :
  Delete s buf = Ret None b1 -> Insert rec b1 = Ret r b2 ->
  Update s rec buf = Ret (snd r) b2.
Proof.
  intros H1 H2. unfold Update. rewrite (bind_ok _ _ _ _ _ H1).
  rewrite (bind_ok _ _ _ _ _ H2). reflexivity.
Qed.

Lemma Update_run_abort s rec buf b1 p :
  Delete s buf = Ret None b1 -> Insert rec b1 = Abort p ->
  Update s rec buf = Abort p.
Proof.
  intros H1 H2. unfold Update. rewrite (bind_ok _ _ _ _ _ H1).
  apply bind_abort. exact H2.
Qed.

Lemma delete_image_tame buf s :
  tame buf -> 0 <= s < hSlotCount buf -> tame (delete_image buf s).
Proof.
  intros [Hinv Hfe] Hs. split; [apply delete_image_inv; assumption|].
  destruct Hinv as [Hd Hf He Hsl].
  destruct (delete_image_header buf s ltac:(lia)
              ltac:(unfold hdrSize, slotSize in *; lia)) as (_ & _ & -> & _).
  exact Hfe.
Qed.

Lemma insert_image_tame buf rec :
  tame buf ->
  u16 (len rec) + slotSize <= hFreeEnd buf - hFreeStart buf ->
  tame (insert_image buf rec).
Proof.
  intros [Hinv Hfe] Hfit. split; [apply insert_image_inv; assumption|].
  destruct Hinv as [Hd Hf He Hsl].
  rewrite insert_image_freeEnd by assumption.
  pose proof (u16_range (len rec)). lia.
Qed.

(** One operation on a tame page: it returns on a tame page that evolved
    from the former one, or it panics on a slice expression. *)
Lemma step_tame o buf :
  tame buf ->
  (exists buf', step o buf = Ret tt buf' /\ tame buf' /\ evolves buf buf')
  \/ (step o buf = Abort SliceOutOfRange /\ wraps o).
Proof.
  intros Ht. pose proof Ht as [Hinv Hfe].
  destruct o as [rec | s | s | s rec]; unfold step.
  - destruct (Insert_tame buf rec Ht) as [H | [[H Hw] | [Hfit H]]].
    + left. exists buf. rewrite (bind_ok _ _ _ _ _ H).
      split; [reflexivity|]. split; [assumption | apply evolves_refl].
    + right. split; [apply bind_abort; exact H | exact Hw].
    + left. exists (insert_image buf rec). rewrite (bind_ok _ _ _ _ _ H).
      split; [reflexivity|].
      split; [apply insert_image_tame | apply insert_evolves]; assumption.
  - left. exists buf.
    destruct (live_dec buf s) as [Hl | Hl].
    + rewrite (bind_ok _ _ _ _ _ (Get_found buf s Hinv Hl)).
      split; [reflexivity|]. split; [assumption | apply evolves_refl].
    + rewrite (bind_ok _ _ _ _ _ (Get_not_found buf s Hinv Hl)).
      split; [reflexivity|]. split; [assumption | apply evolves_refl].
  - left. destruct (live_dec buf s) as [Hl | Hl].
    + exists (delete_image buf s).
      rewrite (bind_ok _ _ _ _ _ (Delete_found buf s Hinv Hl)).
      destruct Hl as [Hs _].
      split; [reflexivity|].
      split; [apply delete_image_tame | apply delete_evolves]; assumption.
    + exists buf. rewrite (bind_ok _ _ _ _ _ (Delete_not_found buf s Hinv Hl)).
      split; [reflexivity|]. split; [assumption | apply evolves_refl].
  - destruct (live_dec buf s) as [Hl | Hl].
    + pose proof Hl as [Hs _].
      pose proof (delete_image_tame buf s Ht Hs) as Ht'.
      pose proof (delete_evolves buf s Hinv Hs) as Hev.
      pose proof (Delete_found buf s Hinv Hl) as Hdel.
      destruct (Insert_tame (delete_image buf s) rec Ht') as [H | [[H Hw] | [Hfit H]]].
      * left. exists (delete_image buf s).
        rewrite (bind_ok _ _ _ _ _ (Update_run_ok _ _ _ _ _ _ Hdel H)).
        split; [reflexivity|]. split; assumption.
      * right. split; [|exact Hw].
        apply bind_abort. exact (Update_run_abort _ _ _ _ _ Hdel H).
      * left. exists (insert_image (delete_image buf s) rec).
        rewrite (bind_ok _ _ _ _ _ (Update_run_ok _ _ _ _ _ _ Hdel H)).
        split; [reflexivity|].
        split; [apply insert_image_tame; assumption|].
        eapply evolves_trans; [exact Hev|].
        destruct Ht' as [Hinv' _]. apply insert_evolves; assumption.
    + left. exists buf.
      rewrite (bind_ok _ _ _ _ _
                 (Update_run_err _ rec _ _ _ (Delete_not_found buf s Hinv Hl))).
      split; [reflexivity|]. split; [assumption | apply evolves_refl].
Qed.

Lemma step_stuck o buf :
  stuck buf ->
  step o buf = Ret tt buf \/ (step o buf = Abort SliceOutOfRange /\ wraps o).
Proof.
  intros (Hlen & Hsc & Hfe).
  pose proof (Uint16_range buf 2) as R2. fold (hFreeStart buf) in R2.
  assert (Hmax : Z.max 0 (hFreeEnd buf - hFreeStart buf) = 0) by lia.
  assert (forall rec, Insert rec buf = Ret (-1, Some ErrPageIsFull) buf
                      \/ (Insert rec buf = Abort SliceOutOfRange
                          /\ 65532 <= u16 (len rec))) as Hins.
  { intros rec. pose proof (u16_range (u16 (len rec) + slotSize)) as Rn.
    pose proof (u16_range (len rec)) as Rl.
    destruct (Z.eq_dec (u16 (u16 (len rec) + slotSize)) 0) as [Hz | Hnz].
    - right.
      assert (65532 <= u16 (len rec)) as Hbig.
      { destruct (Z_le_dec 65532 (u16 (len rec))); [assumption|].
        unfold slotSize in Hz. rewrite (u16_small (u16 (len rec) + 4)) in Hz by lia.
        lia. }
      split; [apply Insert_wrap_abort; lia | exact Hbig].
    - left. apply Insert_full; lia. }
  destruct o as [rec | s | s | s rec]; unfold step.
  - destruct (Hins rec) as [H | [H Hw]].
    + left. rewrite (bind_ok _ _ _ _ _ H). reflexivity.
    + right. split; [apply bind_abort; exact H | exact Hw].
  - left. rewrite (bind_ok _ _ _ _ _ (Get_out buf s Hlen ltac:(lia))). reflexivity.
  - left. rewrite (bind_ok _ _ _ _ _ (Delete_out buf s Hlen ltac:(lia))). reflexivity.
  - left.
    rewrite (bind_ok _ _ _ _ _
               (Update_run_err _ rec _ _ _ (Delete_out buf s Hlen ltac:(lia)))).
    reflexivity.
Qed.

Lemma step_sane o buf :
  sane buf ->
  (exists buf', step o buf = Ret tt buf' /\ sane buf' /\ evolves buf buf')
  \/ (step o buf = Abort SliceOutOfRange /\ wraps o).
Proof.
  intros [Ht | Hs].
  - destruct (step_tame o buf Ht) as [(buf' & H & Ht' & Hev) | H]; [left | right; exact H].
    exists buf'. split; [exact H|]. split; [left; exact Ht' | exact Hev].
  - destruct (step_stuck o buf Hs) as [H | H]; [left | right; exact H].
    exists buf. split; [exact H|]. split; [right; exact Hs | apply evolves_refl].
Qed.

Lemma run_sane ops : forall buf,
  sane buf ->
  (exists buf', run ops buf = Ret tt buf' /\ sane buf' /\ evolves buf buf')
  \/ (run ops buf = Abort SliceOutOfRange /\ Exists wraps ops).
Proof.
  induction ops as [| o ops IH]; intros buf Hs; cbn [run].
  - left. exists buf. split; [reflexivity|]. split; [assumption | apply evolves_refl].
  - destruct (step_sane o buf Hs) as [(b1 & H1 & Hs1 & Hev1) | [H1 Hw1]].
    + rewrite (bind_ok _ _ _ _ _ H1).
      destruct (IH b1 Hs1) as [(b2 & H2 & Hs2 & Hev2) | [H2 Hw]];
        [left | right; split; [exact H2 | apply Exists_cons_tl; exact Hw]].
      exists b2. split; [exact H2|]. split; [exact Hs2|].
      eapply evolves_trans; eassumption.
    + right. split; [apply bind_abort; exact H1 | apply Exists_cons_hd; exact Hw1].
Qed.

Lemma run_tame ops buf :
  tame buf ->
  (exists buf', run ops buf = Ret tt buf' /\ tame buf' /\ evolves buf buf')
  \/ (run ops buf = Abort SliceOutOfRange /\ Exists wraps ops).
Proof.
  revert buf. induction ops as [| o ops IH]; intros buf Hs; cbn [run].
  - left. exists buf. split; [reflexivity|]. split; [assumption | apply evolves_refl].
  - destruct (step_tame o buf Hs) as [(b1 & H1 & Hs1 & Hev1) | [H1 Hw1]].
    + rewrite (bind_ok _ _ _ _ _ H1).
      destruct (IH b1 Hs1) as [(b2 & H2 & Hs2 & Hev2) | [H2 Hw]];
        [left | right; split; [exact H2 | apply Exists_cons_tl; exact Hw]].
      exists b2. split; [exact H2|]. split; [exact Hs2|].
      eapply evolves_trans; eassumption.
    + right. split; [apply bind_abort; exact H1 | apply Exists_cons_hd; exact Hw1].
Qed.

(** A fresh page of a valid page size is sane; below 65536 it is tame. *)
Lemma valid_page_size_mod (n : Z) :
  valid_page_size n = true ->
  0 < n /\ (n mod 65536 = 0 \/ 512 <= n mod 65536 <= 65024).
Proof.
  unfold valid_page_size. intros H.
  apply negb_true_iff, orb_false_iff in H. destruct H as [Hpos Hmod].
  apply negb_false_iff in Hmod. apply Z.eqb_eq in Hmod.
  apply Z.leb_gt in Hpos. split; [exact Hpos|].
  rewrite Z.rem_mod_nonneg in Hmod by lia.
  Z.div_mod_to_equations. lia.
Qed.

Lemma fresh_sane buf :
  valid_page_size (len buf) = true -> firstn 6 buf = zeros 6 ->
  NewHeapPage buf = Ret None (fresh_image buf)
  /\ sane (fresh_image buf)
  /\ (len buf < 65536 -> tame (fresh_image buf)).
Proof.
  intros Hv Hz. destruct (valid_page_size_mod _ Hv) as [Hpos Hmod].
  destruct (zero_prefix_header buf Hz) as (Hsc & Hfs & Hfe).
  assert (Hlen : hdrSize <= len buf).
  { unfold valid_page_size in Hv. unfold hdrSize.
    apply negb_true_iff, orb_false_iff in Hv. destruct Hv as [_ Hm].
    apply negb_false_iff, Z.eqb_eq in Hm.
    rewrite Z.rem_mod_nonneg in Hm by lia. Z.div_mod_to_equations. lia. }
  destruct (fresh_image_header buf Hlen) as (Esc & Efs & Efe & _).
  split; [apply NewHeapPage_fresh; assumption|].
  unfold u16 in Efe.
  assert (Htame : 512 <= len buf mod 65536 <= 65024 -> tame (fresh_image buf)).
  { intros Hr. split; [apply fresh_image_inv; unfold u16, hdrSize in *; lia | lia]. }
  split.
  - destruct Hmod as [H0 | Hr]; [right | left; auto].
    split; [rewrite len_fresh_image by assumption; assumption|].
    split; [assumption | lia].
  - intros Hlt. apply Htame. rewrite Z.mod_small by lia.
    rewrite Z.mod_small in Hmod by lia. lia.
Qed.

(** A fresh page over any buffer of 8 to 65531 bytes is tame as well. *)
Lemma fresh_small_tame buf :
  hdrSize <= len buf <= 65531 -> tame (fresh_image buf).
Proof.
  intros Hlen. assert (El : u16 (len buf) = len buf) by (apply u16_small; unfold hdrSize in *; lia).
  destruct (fresh_image_header buf ltac:(lia)) as (_ & _ & Efe & _).
  split; [apply fresh_image_inv; lia | lia].
Qed.

End Sequences.

(** ** Claims on sequences of operations *)

Lemma run_app (ops1 ops2 : list op) (buf b1 : list byte) :
  run ops1 buf = Ret tt b1 -> run (ops1 ++ ops2) buf = run ops2 b1.
Proof.
  revert buf. induction ops1 as [| o ops1 IH]; intros buf H; cbn [run app] in *.
  - unfold ret in H. congruence.
  - apply bind_inv in H. destruct H as ([] & b0 & Hstep & Hrest).
    rewrite (bind_ok _ _ _ _ _ Hstep). apply IH. exact Hrest.
Qed.

(** Sequences without a wrapping record length run to the end. *)
Lemma run_sane_total (ops : list op) (buf : list byte) :
  sane buf -> Forall (fun o => ~ wraps o) ops ->
  exists buf', run ops buf = Ret tt buf'.
Proof.
  intros Hs Hnw. destruct (run_sane ops buf Hs) as [(buf' & H & _) | [_ Hw]].
  - exists buf'. exact H.
  - exfalso. apply Exists_exists in Hw. destruct Hw as (o & Hin & Hw).
    rewrite Forall_forall in Hnw. exact (Hnw o Hin Hw).
Qed.

(** C7: over every sequence of Insert, Get, Delete and Update on a page
    freshly initialized over a buffer of a valid page size, freeStart never
    decreases and freeEnd never increases, so the free space never grows;
    the sequence runs to its end unless a record length wraps in 16 bits,
    in which case a slice expression panics. *)
Theorem free_region_monotone (buf page : list byte) (ops1 ops2 : list op) :
  valid_page_size (len buf) = true -> firstn 6 buf = zeros 6 ->
  NewHeapPage buf = Ret None page ->
  (forall b1 b2,
      run ops1 page = Ret tt b1 -> run ops2 b1 = Ret tt b2 ->
      hFreeStart b1 <= hFreeStart b2
      /\ hFreeEnd b2 <= hFreeEnd b1
      /\ Z.max 0 (hFreeEnd b2 - hFreeStart b2) <= Z.max 0 (hFreeEnd b1 - hFreeStart b1))
  /\ (Forall (fun o => ~ wraps o) ops1 -> exists b1, run ops1 page = Ret tt b1).
Proof.
  intros Hv Hz Hnew. destruct (fresh_sane buf Hv Hz) as (Hnew' & Hsane & _).
  rewrite Hnew' in Hnew. injection Hnew as <-.
  split.
  - intros b1 b2 H1 H2.
    destruct (run_sane ops1 _ Hsane) as [(b1' & H1' & Hs1 & _) | [H1' _]];
      [|congruence].
    rewrite H1 in H1'. injection H1' as <-.
    destruct (run_sane ops2 _ Hs1) as [(b2' & H2' & _ & Hev) | [H2' _]];
      [|congruence].
    rewrite H2 in H2'. injection H2' as <-.
    destruct Hev as (Hfs & Hfe & _). lia.
  - intros Hnw. apply run_sane_total; assumption.
Qed.

Lemma free_region_monotone_witness :
  let page := fresh_image (zeros 512) in
  let page' := delete_image (insert_image page [x41; x42]) 0 in
  (hFreeStart page <= hFreeStart page'
   /\ hFreeEnd page' <= hFreeEnd page
   /\ Z.max 0 (hFreeEnd page' - hFreeStart page')
      <= Z.max 0 (hFreeEnd page - hFreeStart page))
  /\ exists b1, run [OpGet 0] page = Ret tt b1.
Proof.
  intros page page'.
  destruct (free_region_monotone (zeros 512) page
              [OpGet 0] [OpInsert [x41; x42]; OpDelete 0]) as [Hmono Htotal].
  - vm_compute. reflexivity.
  - vm_compute. reflexivity.
  - vm_compute. reflexivity.
  - split.
    + apply (Hmono page page').
      * vm_compute. reflexivity.
      * vm_compute. reflexivity.
    + apply Htotal. constructor; [|constructor]. intros H. exact H.
Defined.

(** C9: over every sequence of Insert, Get, Delete and Update on a page
    freshly initialized over a buffer of a valid page size below 65536,
    the panic of [setSlot] is never reached: the sequence runs to its end,
    or a slice expression of [Insert] panics before any directory write. *)
Theorem setSlot_panic_unreachable (buf page : list byte) (ops : list op) :
  valid_page_size (len buf) = true -> len buf < 65536 ->
  firstn 6 buf = zeros 6 ->
  NewHeapPage buf = Ret None page ->
  (forall i, run ops page <> Abort (InvalidSlotIndex i))
  /\ ((exists buf', run ops page = Ret tt buf')
      \/ (run ops page = Abort SliceOutOfRange /\ Exists wraps ops)).
Proof.
  intros Hv Hlt Hz Hnew. destruct (fresh_sane buf Hv Hz) as (Hnew' & _ & Htame).
  rewrite Hnew' in Hnew. injection Hnew as <-.
  destruct (run_tame ops _ (Htame Hlt)) as [(buf' & H & _) | [H Hw]].
  - split; [intros i; rewrite H; discriminate|]. left. exists buf'. exact H.
  - split; [intros i; rewrite H; discriminate|]. right. split; assumption.
Qed.

Lemma setSlot_panic_unreachable_witness :
  let ops := [OpInsert [x41]; OpUpdate 0 [x42; x43]; OpDelete 1;
              OpInsert (repeat x44 600)] in
  (forall i, run ops (fresh_image (zeros 512)) <> Abort (InvalidSlotIndex i))
  /\ ((exists buf', run ops (fresh_image (zeros 512)) = Ret tt buf')
      \/ (run ops (fresh_image (zeros 512)) = Abort SliceOutOfRange
          /\ Exists wraps ops)).
Proof.
  intros ops.
  apply (setSlot_panic_unreachable (zeros 512)).
  - vm_compute. reflexivity.
  - vm_compute. reflexivity.
  - vm_compute. reflexivity.
  - vm_compute. reflexivity.
Defined.

(** Outside valid page sizes the bound of C9 is 65531, not 65535: on a
    65535-byte buffer a 65535-byte record of 0xFF bytes passes the 16-bit
    space check, overwrites the header, and [setSlot] panics. *)
Example setSlot_panic_on_65535_byte_buffer :
  Insert (repeat xff (Z.to_nat 65535)) (fresh_image (zeros 65535))
  = Abort (InvalidSlotIndex 65535).
Proof. vm_compute. reflexivity. Qed.

(** ** Errors and the buffer *)

Section Errors.

Implicit Types (buf rec : list byte) (s : Z).

Lemma ret_inv {A : Type} (a b : A) buf buf' :
  ret a buf = Ret b buf' -> a = b /\ buf' = buf.
Proof. unfold ret. intros [= -> ->]. split; reflexivity. Qed.

Lemma freeSpace_inv buf v buf' : freeSpace buf = Ret v buf' -> buf' = buf.
Proof.
  unfold freeSpace, freeEnd, freeStart. intros H.
  apply bind_inv in H. destruct H as (fe & b1 & H1 & H).
  apply bind_inv in H. destruct H as (fs & b2 & H2 & H).
  apply load16_inv in H1. apply load16_inv in H2.
  destruct H1 as (-> & _). destruct H2 as (-> & _).
  destruct (fe - fs <? 0); apply ret_inv in H; apply H.
Qed.

Lemma slot_inv buf s r buf' : slot s buf = Ret r buf' -> buf' = buf.
Proof.
  unfold slot, slotCount. intros H.
  destruct (s <? 0); [apply ret_inv in H; apply H|].
  apply bind_inv in H. destruct H as (sc & b1 & H1 & H).
  apply load16_inv in H1. destruct H1 as (-> & _).
  destruct (s >=? sc); [apply ret_inv in H; apply H|].
  cbv zeta in H.
  apply bind_inv in H. destruct H as (off & b2 & H2 & H).
  apply bind_inv in H. destruct H as (ln & b3 & H3 & H).
  apply load16_inv in H2. apply load16_inv in H3.
  destruct H2 as (-> & _). destruct H3 as (-> & _).
  apply ret_inv in H. apply H.
Qed.

(** [Get] never writes. *)
Lemma Get_unchanged buf s r buf' : Get s buf = Ret r buf' -> buf' = buf.
Proof.
  unfold Get. intros H.
  apply bind_inv in H. destruct H as ([[off ln] ok] & b1 & H1 & H).
  apply slot_inv in H1. subst b1.
  destruct (negb ok || (ln =? 0)); [apply ret_inv in H; apply H|].
  apply bind_inv in H. destruct H as (bytes & b2 & H2 & H).
  unfold read_slice in H2. destruct (slice_ok buf off (off + ln)); [|discriminate].
  injection H2 as _ <-. apply ret_inv in H. apply H.
Qed.

(** A failing [Delete] leaves the buffer as it was. *)
Lemma Delete_error_unchanged buf s e buf' :
  Delete s buf = Ret (Some e) buf' -> buf' = buf /\ e = ErrSlotNotFound.
Proof.
  unfold Delete. intros H.
  apply bind_inv in H. destruct H as ([[off ln] ok] & b1 & H1 & H).
  apply slot_inv in H1. subst b1.
  destruct (negb ok || (ln =? 0)).
  - apply ret_inv in H. destruct H as [[= <-] ->]. split; reflexivity.
  - apply bind_inv in H. destruct H as (u & b2 & _ & H).
    apply ret_inv in H. destruct H as [[=] _].
Qed.

(** A failing [Insert] leaves the buffer as it was. *)
Lemma Insert_error_unchanged buf rec id e buf' :
  Insert rec buf = Ret (id, Some e) buf' ->
  buf' = buf /\ e = ErrPageIsFull /\ id = -1.
Proof.
  unfold Insert. cbv zeta. intros H.
  apply bind_inv in H. destruct H as (fs & b1 & H1 & H).
  apply freeSpace_inv in H1. subst b1.
  destruct (fs <? u16 (u16 (len rec) + slotSize)).
  - apply ret_inv in H. destruct H as [[= <- <-] ->]. repeat split.
  - exfalso.
    repeat (apply bind_inv in H; destruct H as (? & ? & _ & H)).
    apply ret_inv in H. destruct H as [[=] _].
Qed.

(** After a failed [Insert] every slot reads as before. *)
Lemma Insert_failure_keeps_records buf rec id e buf' s :
  Insert rec buf = Ret (id, Some e) buf' ->
  buf' = buf /\ Get s buf' = Get s buf.
Proof.
  intros H. apply Insert_error_unchanged in H. destruct H as (-> & _).
  split; reflexivity.
Qed.

(** A failing [Update] has either failed in [Delete], with the buffer as
    it was, or in [Insert], after [Delete] has written the tombstone. *)
Lemma Update_error_cases buf s rec e buf' :
  Update s rec buf = Ret (Some e) buf' ->
  (e = ErrSlotNotFound /\ buf' = buf)
  \/ (e = ErrPageIsFull /\ Delete s buf = Ret None buf').
Proof.
  unfold Update. intros H.
  apply bind_inv in H. destruct H as (d & b1 & Hdel & H).
  destruct d as [err|].
  - apply ret_inv in H. destruct H as [[= ->] ->].
    apply Delete_error_unchanged in Hdel. left. tauto.
  - apply bind_inv in H. destruct H as ([id r] & b2 & Hins & H).
    apply ret_inv in H. destruct H as [Hr ->]. cbn [snd] in Hr. subst r.
    apply Insert_error_unchanged in Hins. destruct Hins as (-> & -> & _).
    right. split; [reflexivity | exact Hdel].
Qed.

(** On a page with a live slot [s], an [Update] that does not fit fails
    with "page is full" after having tombstoned [s]. *)
Lemma Update_full_tombstones buf s rec :
  page_inv buf -> live buf s ->
  hFreeEnd buf - hFreeStart buf < u16 (u16 (len rec) + slotSize) ->
  Update s rec buf = Ret (Some ErrPageIsFull) (delete_image buf s)
  /\ Get s (delete_image buf s) = Ret ([], false) (delete_image buf s)
  /\ delete_image buf s <> buf.
Proof.
  intros Hinv Hl Hfull. pose proof Hl as [Hs Hln].
  pose proof (delete_image_inv buf s Hinv Hs) as Hinv'.
  pose proof Hinv as [Hd Hf He Hsl].
  assert (Hlen : hdrSize + s * slotSize + 4 <= len buf)
    by (unfold hdrSize, slotSize in *; lia).
  destruct (delete_image_header buf s ltac:(lia) Hlen) as (Esc & Efs & Efe & _).
  assert (Hz : slotLen (delete_image buf s) s = 0)
    by (apply delete_image_slotLen_same; lia).
  split; [|split].
  - replace (Some ErrPageIsFull) with (snd (-1, Some ErrPageIsFull)) by reflexivity.
    eapply Update_run_ok; [apply Delete_found; assumption|].
    apply Insert_full; [apply page_inv_len; assumption|].
    rewrite Efs, Efe. lia.
  - apply Get_not_found; [assumption|]. unfold live. lia.
  - intros E. rewrite E in Hz. contradiction.
Qed.

End Errors.

(** ** Claims on failing operations *)

(** For records of at most 65531 bytes the space check of [Insert] is the
    one of the specification, and a failed [Insert] changes nothing. *)
Lemma Insert_full_iff (buf rec : list byte) :
  page_inv buf -> len rec <= 65531 ->
  (Insert rec buf = Ret (-1, Some ErrPageIsFull) buf
   <-> len rec + slotSize > hFreeEnd buf - hFreeStart buf).
Proof.
  intros Hinv Hshort. pose proof (len_nonneg rec) as Hl.
  assert (El : u16 (len rec) = len rec) by (apply u16_small; lia).
  assert (En : u16 (u16 (len rec) + slotSize) = len rec + slotSize)
    by (rewrite El; apply u16_small; unfold slotSize; lia).
  pose proof Hinv as [Hd Hf He Hsl].
  split.
  - intros Hfull.
    destruct (Z_le_dec (len rec + slotSize) (hFreeEnd buf - hFreeStart buf)) as [Hfit|]; [|lia].
    rewrite Insert_ok in Hfull by (rewrite ?El; assumption). discriminate.
  - intros Hno. apply Insert_full; [apply page_inv_len; assumption|].
    rewrite En. lia.
Qed.

(** C1, evaluated on a 512-byte page holding one live 100-byte record in
    slot 0: Update(0, R2) with a 400-byte R2 (404 > 400 bytes free)
    returns "page is full", and the buffer has changed: slot 0 is now a
    tombstone and Get(0) no longer finds the record. *)
Theorem Update_failure_loses_record :
  let page := fresh_image (zeros 512) in
  let R := repeat x41 100 in
  let R2 := repeat x42 400 in
  exists b1 b2,
    Insert R page = Ret (0, None) b1
    /\ Get 0 b1 = Ret (R, true) b1
    /\ len R2 + slotSize > hFreeEnd b1 - hFreeStart b1
    /\ Update 0 R2 b1 = Ret (Some ErrPageIsFull) b2
    /\ b2 <> b1
    /\ slotLen b2 0 = 0
    /\ Get 0 b2 = Ret ([], false) b2.
Proof.
  intros page R R2.
  set (b1 := insert_image page R).
  assert (Hinv : page_inv b1) by (apply check_page_sound; vm_compute; reflexivity).
  assert (Hl : live b1 0) by (split; [vm_compute; split; discriminate || reflexivity
                                     | vm_compute; discriminate]).
  destruct (Update_full_tombstones b1 0 R2 Hinv Hl) as (Hup & Hget & Hne);
    [vm_compute; reflexivity|].
  exists b1, (delete_image b1 0).
  split; [vm_compute; reflexivity|].
  split; [vm_compute; reflexivity|].
  split; [vm_compute; reflexivity|].
  split; [exact Hup|].
  split; [exact Hne|].
  split; [vm_compute; reflexivity | exact Hget].
Qed.

(** C2, evaluated on a fresh 4096-byte page (4088 bytes free): a record
    of 65536 bytes has [uint16(len) = 0], so [Insert] sees a need of 4
    bytes, returns slot 0 without error and stores nothing; a record of
    65532 bytes has a need of 0 and [Insert] panics on its slice
    expression. Neither fails with "page is full". *)
Theorem Insert_oversized_record_not_rejected :
  let page := fresh_image (zeros 4096) in
  let R := repeat x41 (Z.to_nat 65536) in
  let R' := repeat x41 (Z.to_nat 65532) in
  len R + slotSize > hFreeEnd page - hFreeStart page
  /\ (exists page',
        Insert R page = Ret (0, None) page'
        /\ hFreeStart page' = 12 /\ hFreeEnd page' = 4096
        /\ Get 0 page' = Ret ([], false) page')
  /\ len R' + slotSize > hFreeEnd page - hFreeStart page
  /\ Insert R' page = Abort SliceOutOfRange.
Proof.
  intros page R R'.
  split; [vm_compute; reflexivity|].
  split.
  - exists (insert_image page R).
    split; [vm_compute; reflexivity|].
    split; [vm_compute; reflexivity|].
    split; vm_compute; reflexivity.
  - split; vm_compute; reflexivity.
Qed.

(** ** Claims on deletion, update and empty records *)

Section Tombstones.

Variables (buf : list byte) (s : Z).
Hypothesis Hinv : page_inv buf.
Hypothesis Hlive : live buf s.

Lemma delete_image_other_live (t : Z) :
  t <> s -> live buf t ->
  live (delete_image buf s) t /\ record (delete_image buf s) t = record buf t.
Proof.
  intros Hne [Ht Hln]. destruct Hlive as [Hs _].
  pose proof Hinv as [Hd Hf He Hsl].
  assert (Hlen : hdrSize + s * slotSize + 4 <= len buf)
    by (unfold hdrSize, slotSize in *; lia).
  destruct (delete_image_header buf s ltac:(lia) Hlen) as (Esc & _).
  pose proof (delete_image_slotOff buf s ltac:(lia) Hlen t ltac:(lia)) as Eoff.
  pose proof (delete_image_slotLen_other buf s ltac:(lia) Hlen t ltac:(lia) Hne) as Eln.
  split.
  - unfold live. rewrite Esc, Eln. split; assumption.
  - unfold record. rewrite Eoff, Eln.
    destruct (Hsl t Ht) as [Hlo Hhi].
    pose proof (Uint16_range buf (hdrSize + t * slotSize + 2)) as R.
    fold (slotLen buf t) in R.
    apply delete_image_bytes; unfold hdrSize, slotSize in *; lia.
Qed.

Lemma delete_image_not_live : ~ live (delete_image buf s) s.
Proof.
  destruct Hlive as [Hs _]. pose proof Hinv as [Hd Hf He Hsl].
  intros [_ Hln]. apply Hln. apply delete_image_slotLen_same;
    unfold hdrSize, slotSize in *; lia.
Qed.

End Tombstones.

(** C8: on a slotted page with a live slot s, Delete(s) sets the stored
    length of s to 0 and changes no other byte of the page: the stored
    offset and the record's bytes stay; afterwards Get(s) finds nothing,
    Get on every other live slot returns its record as before, and
    freeStart, freeEnd and the free space are unchanged. *)
Theorem Delete_tombstone (buf : list byte) (s : Z) :
  page_inv buf -> live buf s ->
  exists buf',
    Delete s buf = Ret None buf'
    /\ slotLen buf' s = 0
    /\ slotOff buf' s = slotOff buf s
    /\ (forall j, 0 <= j ->
          j < hdrSize + s * slotSize + 2 \/ hdrSize + s * slotSize + 4 <= j ->
          at8 buf' j = at8 buf j)
    /\ sub buf' (slotOff buf s) (slotOff buf s + slotLen buf s) = record buf s
    /\ Get s buf' = Ret ([], false) buf'
    /\ (forall t, t <> s -> live buf t ->
          Get t buf = Ret (record buf t, true) buf
          /\ Get t buf' = Ret (record buf t, true) buf')
    /\ hFreeStart buf' = hFreeStart buf
    /\ hFreeEnd buf' = hFreeEnd buf
    /\ (forall v, freeSpace buf = Ret v buf -> freeSpace buf' = Ret v buf').
Proof.
  intros Hinv Hl. pose proof Hl as [Hs Hln]. pose proof Hinv as [Hd Hf He Hsl].
  assert (Hlen : hdrSize + s * slotSize + 4 <= len buf)
    by (unfold hdrSize, slotSize in *; lia).
  pose proof (delete_image_inv buf s Hinv Hs) as Hinv'.
  destruct (delete_image_header buf s ltac:(lia) Hlen) as (Esc & Efs & Efe & _).
  exists (delete_image buf s).
  split; [apply Delete_found; assumption|].
  split; [apply delete_image_slotLen_same; lia|].
  split; [apply delete_image_slotOff; lia|].
  split; [intros j Hj Hout; apply delete_image_frame; lia|].
  split.
  { destruct (Hsl s Hs) as [Hlo Hhi].
    pose proof (Uint16_range buf (hdrSize + s * slotSize + 2)) as R.
    fold (slotLen buf s) in R.
    apply delete_image_bytes; unfold hdrSize, slotSize in *; lia. }
  split; [apply Get_not_found; [assumption | apply delete_image_not_live; assumption]|].
  split.
  { intros t Hne Ht. split; [apply Get_found; assumption|].
    destruct (delete_image_other_live buf s Hinv Hl t Hne Ht) as [Hl' <-].
    apply Get_found; assumption. }
  split; [exact Efs|]. split; [exact Efe|].
  intros v Hv. rewrite freeSpace_ok in Hv by (apply page_inv_len; assumption).
  injection Hv as <-.
  rewrite freeSpace_ok by (apply page_inv_len; assumption).
  rewrite Efs, Efe. reflexivity.
Qed.

Lemma Delete_tombstone_witness :
  exists buf',
    Delete 0 (insert_image (insert_image (fresh_image (zeros 512)) [x41; x42]) [x43])
    = Ret None buf'
    /\ Get 0 buf' = Ret ([], false) buf'
    /\ Get 1 buf' = Ret ([x43], true) buf'.
Proof.
  destruct (Delete_tombstone
              (insert_image (insert_image (fresh_image (zeros 512)) [x41; x42]) [x43]) 0)
    as (buf' & Hdel & _ & _ & _ & _ & Hget & Hother & _).
  - apply check_page_sound. vm_compute. reflexivity.
  - split; [vm_compute; split; discriminate || reflexivity | vm_compute; discriminate].
  - exists buf'. split; [exact Hdel|]. split; [exact Hget|].
    apply (Hother 1); [discriminate|].
    split; [vm_compute; split; discriminate || reflexivity | vm_compute; discriminate].
Defined.

Lemma page_sized_tame (buf : list byte) :
  page_inv buf -> valid_page_size (len buf) = true -> len buf < 65536 -> tame buf.
Proof.
  intros Hinv Hv Hlt. split; [assumption|].
  destruct (valid_page_size_mod _ Hv) as [Hpos Hmod].
  rewrite Z.mod_small in Hmod by lia. destruct Hinv as [_ _ He _]. lia.
Qed.

(** C10: on a slotted page with at least 4 bytes free, inserting the
    empty record succeeds and returns a fresh slot ID s (the former
    slotCount), but the stored length 0 is the tombstone mark: Get(s)
    finds nothing and Delete(s) fails with "slot not found", at once and,
    on a page of a valid page size below 65536, after every further
    sequence of operations. *)
Theorem Insert_empty_record (buf : list byte) :
  page_inv buf -> slotSize <= hFreeEnd buf - hFreeStart buf ->
  exists buf',
    Insert [] buf = Ret (hSlotCount buf, None) buf'
    /\ hSlotCount buf' = hSlotCount buf + 1
    /\ slotLen buf' (hSlotCount buf) = 0
    /\ Get (hSlotCount buf) buf' = Ret ([], false) buf'
    /\ Delete (hSlotCount buf) buf' = Ret (Some ErrSlotNotFound) buf'
    /\ (valid_page_size (len buf) = true -> len buf < 65536 ->
        forall ops buf'',
          run ops buf' = Ret tt buf'' ->
          Get (hSlotCount buf) buf'' = Ret ([], false) buf''
          /\ Delete (hSlotCount buf) buf'' = Ret (Some ErrSlotNotFound) buf'').
Proof.
  intros Hinv Hfit.
  destruct (Insert_spec buf [] Hinv Hfit) as (Hins & _ & Hsc & _ & Hln & _ & _ & Hinv').
  change (len (@nil byte)) with 0 in Hln.
  pose proof (Uint16_range buf 0) as R0. fold (hSlotCount buf) in R0.
  exists (insert_image buf []).
  assert (Hnl : ~ live (insert_image buf []) (hSlotCount buf))
    by (intros [_ H]; apply H; exact Hln).
  split; [exact Hins|]. split; [exact Hsc|]. split; [exact Hln|].
  split; [apply Get_not_found; assumption|].
  split; [apply Delete_not_found; assumption|].
  intros Hv Hlt ops buf'' Hrun.
  assert (Ht : tame (insert_image buf [])).
  { apply page_sized_tame; rewrite ?len_insert_image; try assumption;
      destruct Hinv; assumption. }
  destruct (run_tame ops _ Ht) as [(b & Hb & [Hinv'' _] & Hev) | [Hb _]];
    [|congruence].
  rewrite Hrun in Hb. injection Hb as <-.
  destruct Hev as (_ & _ & Hgrow & Htomb).
  assert (Hnl' : ~ live buf'' (hSlotCount buf)).
  { intros [_ H]. apply H. apply Htomb; [lia | exact Hln]. }
  split; [apply Get_not_found | apply Delete_not_found]; assumption.
Qed.

Lemma Insert_empty_record_witness :
  let page := fresh_image (zeros 512) in
  let page' := insert_image page [] in
  let page'' := insert_image (delete_image (insert_image page' [x41]) 1) [x42; x43] in
  Insert [] page = Ret (0, None) page'
  /\ Get 0 page' = Ret ([], false) page'
  /\ Delete 0 page' = Ret (Some ErrSlotNotFound) page'
  /\ run [OpInsert [x41]; OpUpdate 1 [x42; x43]] page' = Ret tt page''
  /\ Get 0 page'' = Ret ([], false) page''.
Proof.
  intros page page' page''.
  destruct (Insert_empty_record page)
    as (buf' & Hins & _ & _ & Hget & Hdel & Hnever).
  - apply check_page_sound. vm_compute. reflexivity.
  - vm_compute. discriminate.
  - assert (E : Insert [] page = Ret (0, None) page') by (vm_compute; reflexivity).
    assert (Hrun : run [OpInsert [x41]; OpUpdate 1 [x42; x43]] page' = Ret tt page'')
      by (vm_compute; reflexivity).
    rewrite E in Hins. injection Hins as <-.
    split; [exact E|]. split; [exact Hget|]. split; [exact Hdel|].
    split; [exact Hrun|].
    apply (Hnever ltac:(vm_compute; reflexivity) ltac:(vm_compute; reflexivity)
             _ page'' Hrun).
Defined.

(** What a successful Update does on a slotted page of a valid page
    size below 65536 with a live slot s: it creates the directory entry
    number slotCount_before_update, which designates the first
    [uint16(len(R2))] bytes of R2 (all of R2 when len(R2) < 65536, and
    Get returns R2 there when 0 < len(R2) < 65536), and Get(s) afterwards
    finds nothing; the Update succeeds whenever R2 and a directory entry
    fit in the free space. *)
Theorem Update_moves_record (buf rec : list byte) (s : Z) :
  page_inv buf -> valid_page_size (len buf) = true -> len buf < 65536 ->
  live buf s ->
  (len rec + slotSize <= hFreeEnd buf - hFreeStart buf ->
   exists buf', Update s rec buf = Ret None buf')
  /\ (forall buf',
        Update s rec buf = Ret None buf' ->
        hSlotCount buf' = hSlotCount buf + 1
        /\ slotLen buf' (hSlotCount buf) = u16 (len rec)
        /\ record buf' (hSlotCount buf) = firstn (Z.to_nat (u16 (len rec))) rec
        /\ (len rec < 65536 -> record buf' (hSlotCount buf) = rec)
        /\ (0 < len rec < 65536 -> Get (hSlotCount buf) buf' = Ret (rec, true) buf')
        /\ Get s buf' = Ret ([], false) buf').
Proof.
  intros Hinv Hv Hlt Hl. pose proof Hl as [Hs Hln].
  pose proof (page_sized_tame buf Hinv Hv Hlt) as Ht.
  pose proof (delete_image_tame buf s Ht Hs) as Ht1.
  pose proof Ht1 as [Hinv1 _].
  pose proof (Delete_found buf s Hinv Hl) as Hdel.
  pose proof Hinv as [Hd Hf He Hsl]. pose proof Hinv1 as [Hd1 Hf1 He1 Hsl1].
  assert (Hlen : hdrSize + s * slotSize + 4 <= len buf)
    by (unfold hdrSize, slotSize in *; lia).
  destruct (delete_image_header buf s ltac:(lia) Hlen) as (Esc & Efs & Efe & _).
  pose proof (len_nonneg rec) as Hrec.
  pose proof (Uint16_range buf 4) as R4. fold (hFreeEnd buf) in R4.
  pose proof (Uint16_range buf 2) as R2. fold (hFreeStart buf) in R2.
  set (b1 := delete_image buf s) in *.
  split.
  - intros Hfit. exists (insert_image b1 rec).
    replace (@None error) with (snd (hSlotCount b1, @None error)) by reflexivity.
    eapply Update_run_ok; [exact Hdel|].
    apply Insert_ok; try assumption.
    rewrite Efs, Efe, u16_small by (unfold slotSize in *; lia). exact Hfit.
  - intros buf' Hup.
    destruct (Insert_tame b1 rec Ht1) as [H | [[H _] | [Hfit H]]].
    + rewrite (Update_run_ok _ _ _ _ _ _ Hdel H) in Hup. discriminate.
    + rewrite (Update_run_abort _ _ _ _ _ Hdel H) in Hup. discriminate.
    + rewrite (Update_run_ok _ _ _ _ _ _ Hdel H) in Hup. injection Hup as <-.
      pose proof (insert_image_inv b1 rec Hinv1 Hfit) as Hinv2.
      assert (Esc2 : hSlotCount (insert_image b1 rec) = hSlotCount b1 + 1)
        by (apply insert_image_slotCount; assumption).
      assert (Eoff2 : slotOff (insert_image b1 rec) (hSlotCount b1)
                      = hFreeEnd b1 - u16 (len rec))
        by (apply insert_image_slotOff; assumption).
      assert (Eln2 : slotLen (insert_image b1 rec) (hSlotCount b1) = u16 (len rec))
        by (apply insert_image_slotLen; assumption).
      assert (Erec2 : sub (insert_image b1 rec) (hFreeEnd b1 - u16 (len rec)) (hFreeEnd b1)
                      = firstn (Z.to_nat (u16 (len rec))) rec)
        by (apply insert_image_record; assumption).
      assert (Eold : slotLen (insert_image b1 rec) s = slotLen b1 s)
        by (apply insert_image_old_slot; (assumption || lia)).
      rewrite Esc in *.
      assert (Erec : record (insert_image b1 rec) (hSlotCount buf)
                     = firstn (Z.to_nat (u16 (len rec))) rec).
      { unfold record. rewrite Eoff2, Eln2.
        replace (hFreeEnd b1 - u16 (len rec) + u16 (len rec)) with (hFreeEnd b1) by lia.
        exact Erec2. }
      assert (Efull : len rec < 65536 -> firstn (Z.to_nat (u16 (len rec))) rec = rec).
      { intros Hsmall. apply firstn_len_all. apply u16_small. lia. }
      split; [exact Esc2|]. split; [exact Eln2|]. split; [exact Erec|].
      split; [intros Hsmall; rewrite Erec; apply Efull; exact Hsmall|].
      split.
      * intros Hpos.
        assert (Hl2 : live (insert_image b1 rec) (hSlotCount buf)).
        { split; [lia|]. rewrite Eln2, u16_small by lia. lia. }
        rewrite (Get_found _ _ Hinv2 Hl2), Erec, Efull by lia. reflexivity.
      * apply Get_not_found; [assumption|]. intros [_ Hnz]. apply Hnz.
        rewrite Eold. subst b1. apply delete_image_slotLen_same; lia.
Qed.

Lemma Update_moves_record_witness :
  exists buf',
    Update 0 [x43; x44; x45] (insert_image (fresh_image (zeros 512)) [x41; x42])
    = Ret None buf'
    /\ Get 1 buf' = Ret ([x43; x44; x45], true) buf'
    /\ Get 0 buf' = Ret ([], false) buf'.
Proof.
  destruct (Update_moves_record
              (insert_image (fresh_image (zeros 512)) [x41; x42]) [x43; x44; x45] 0)
    as [Hex Hall].
  - apply check_page_sound. vm_compute. reflexivity.
  - vm_compute. reflexivity.
  - vm_compute. reflexivity.
  - split; [vm_compute; split; discriminate || reflexivity | vm_compute; discriminate].
  - destruct Hex as (buf' & Hup); [vm_compute; discriminate|].
    destruct (Hall buf' Hup) as (_ & _ & _ & _ & Hget & Hold).
    exists buf'. split; [exact Hup|]. split; [|exact Hold].
    apply Hget. vm_compute. split; reflexivity.
Defined.

(** C6, evaluated on a 512-byte page whose slot 0 holds a 2-byte record:
    a record R2 of 65537 bytes has [uint16(len) = 1], so the [Insert]
    inside [Update] sees a need of 5 bytes and stores one byte. Update(0,
    R2) returns no error and slot 0 is tombstoned, but the new slot 1
    holds only the first byte of R2: R2 is not assigned to it, and Get(1)
    returns one byte. *)
Theorem Update_oversized_record_truncated :
  let page0 := fresh_image (zeros 512) in
  let page := insert_image page0 [x41; x42] in
  let R2 := x43 :: repeat x44 (Z.to_nat 65536) in
  NewHeapPage (zeros 512) = Ret None page0
  /\ Insert [x41; x42] page0 = Ret (0, None) page
  /\ live page 0 /\ hSlotCount page = 1 /\ len R2 = 65537
  /\ exists page',
       Update 0 R2 page = Ret None page'
       /\ hSlotCount page' = 2
       /\ slotLen page' 1 = 1
       /\ record page' 1 = [x43]
       /\ record page' 1 <> R2
       /\ Get 1 page' = Ret ([x43], true) page'
       /\ Get 0 page' = Ret ([], false) page'.
Proof.
  intros page0 page R2.
  split; [vm_compute; reflexivity|].
  split; [vm_compute; reflexivity|].
  split; [split; [vm_compute; split; [discriminate | reflexivity] | vm_compute; discriminate]|].
  split; [vm_compute; reflexivity|].
  split; [vm_compute; reflexivity|].
  exists (insert_image (delete_image page 0) R2).
  split; [vm_compute; reflexivity|].
  split; [vm_compute; reflexivity|].
  split; [vm_compute; reflexivity|].
  assert (Hrec : record (insert_image (delete_image page 0) R2) 1 = [x43])
    by (vm_compute; reflexivity).
  split; [exact Hrec|].
  split; [rewrite Hrec; discriminate|].
  split; vm_compute; reflexivity.
Qed.

(** ** The page file round trip *)

Section PagerFacts.

Import Pager.

Implicit Types (p q : Pager) (d : disk) (c B : list byte) (pageID ps : Z).

Lemma disk_lookup_insert d (path : string) c : (<[path := c]> d) !! path = Some c.
Proof. destruct d as [fs rf]. apply (lookup_insert_eq fs). Qed.

Lemma disk_lookup_insert_ne d (path other : string) c :
  path <> other -> (<[path := c]> d) !! other = d !! other.
Proof. intros Hne. destruct d as [fs rf]. apply (lookup_insert_ne fs). exact Hne. Qed.

Lemma disk_insert_insert d (path : string) c c' :
  <[path := c]> (<[path := c']> d) = <[path := c]> d.
Proof.
  destruct d as [fs rf]. unfold insert, disk_insert. cbn [files refused].
  f_equal. apply (insert_insert_eq fs).
Qed.

Lemma refused_insert d (path : string) c : refused (<[path := c]> d) = refused d.
Proof. reflexivity. Qed.

Lemma i64_small (z : Z) : - max_int64 - 1 <= z <= max_int64 -> i64 z = z.
Proof. unfold i64, max_int64. intros H. rewrite Z.mod_small; lia. Qed.

Lemma zeros_nil (n : Z) : n <= 0 -> zeros n = [].
Proof. intros H. unfold zeros. replace (Z.to_nat n) with 0%nat by lia. reflexivity. Qed.

Lemma splice_all (buf src : list byte) : len src = len buf -> splice buf 0 src = src.
Proof.
  intros H. unfold splice, len in *. cbn [Z.to_nat firstn app Nat.add].
  rewrite skipn_all2 by lia. apply app_nil_r.
Qed.

Lemma String_eqb_empty (path : string) :
  path <> EmptyString -> String.eqb path EmptyString = false.
Proof. intros Hne. apply String.eqb_neq. exact Hne. Qed.

Lemma OpenFile_ok (path : string) d :
  path <> EmptyString -> refused d !! path = None ->
  OpenFile path d
  = inr ({| fname := path; fclosed := false |},
         match d !! path with Some _ => d | None => <[path := []]> d end).
Proof.
  intros Hne Hr. unfold OpenFile. rewrite String_eqb_empty by exact Hne.
  rewrite Hr. reflexivity.
Qed.

Lemma OpenFile_inv (path : string) d :
  match OpenFile path d with
  | inl e => (path = EmptyString /\ e = ErrNotExist) \/ refused d !! path = Some e
  | inr (file, d') =>
      path <> EmptyString /\ refused d !! path = None
      /\ file = {| fname := path; fclosed := false |}
      /\ d' = match d !! path with Some _ => d | None => <[path := []]> d end
  end.
Proof.
  unfold OpenFile. destruct (String.eqb_spec path EmptyString) as [E | Hne].
  - left. split; [exact E | reflexivity].
  - destruct (refused d !! path) as [e|] eqn:Hr.
    + right. reflexivity.
    + split; [exact Hne|]. split; [reflexivity|]. split; reflexivity.
Qed.

Lemma Open_ok (path : string) ps d :
  valid_page_size ps = true ->
  path <> EmptyString -> refused d !! path = None ->
  exists p d',
    Open path ps d = (inr p, d')
    /\ fname (f p) = path /\ pageSize p = ps /\ opened p d'
    /\ (forall c, d !! path = Some c -> d' = d).
Proof.
  intros Hv Hne Hr. unfold valid_page_size in Hv. unfold Open.
  apply negb_true_iff in Hv. rewrite Hv. rewrite (OpenFile_ok path d Hne Hr).
  eexists; eexists. split; [reflexivity|]. cbn [f fname pageSize].
  split; [reflexivity|]. split; [reflexivity|]. unfold opened. cbn [f fname fclosed].
  destruct (d !! path) as [c|] eqn:E.
  - split; [split; [reflexivity | exists c; exact E]|]. reflexivity.
  - split; [split; [reflexivity | exists []; apply disk_lookup_insert]|]. discriminate.
Qed.

Lemma Open_inv (path : string) ps d p d' :
  Open path ps d = (inr p, d') ->
  valid_page_size ps = true /\ fname (f p) = path /\ pageSize p = ps /\ opened p d'
  /\ (forall c, d !! path = Some c -> d' = d)
  /\ path <> EmptyString /\ refused d' !! path = None.
Proof.
  intros H. assert (Hv : valid_page_size ps = true).
  { unfold Open in H. unfold valid_page_size.
    destruct ((ps <=? 0) || negb (Z.rem ps 512 =? 0)); [discriminate | reflexivity]. }
  assert (Hfile : path <> EmptyString /\ refused d !! path = None).
  { unfold Open in H. pose proof (OpenFile_inv path d) as Hi.
    destruct ((ps <=? 0) || negb (Z.rem ps 512 =? 0)); [discriminate|].
    destruct (OpenFile path d) as [e | [file d0]]; [discriminate|].
    destruct Hi as (Hne & Hr & _). split; assumption. }
  destruct Hfile as [Hne Hr].
  destruct (Open_ok path ps d Hv Hne Hr) as (p0 & d0 & H0 & Hname & Hps & Hop & Hkeep).
  rewrite H in H0. injection H0 as <- <-.
  split; [exact Hv|]. split; [exact Hname|]. split; [exact Hps|]. split; [exact Hop|].
  split; [exact Hkeep|]. split; [exact Hne|].
  unfold Open in H. apply negb_true_iff in Hv. rewrite Hv in H.
  rewrite (OpenFile_ok path d Hne Hr) in H. injection H as _ <-.
  destruct (d !! path); [exact Hr | rewrite refused_insert; exact Hr].
Qed.

Lemma ReadPage_on_disk p d pageID B :
  opened p d -> 0 <= pageID -> 0 < pageSize p -> len B = pageSize p ->
  0 <= i64 (pageID * pageSize p) ->
  page_on_disk d (fname (f p)) (i64 (pageID * pageSize p)) (pageSize p) B ->
  ReadPage p pageID d = (inr B, d).
Proof.
  intros [Hopen _] Hid Hps HB Hoff (c & Hc & Hlen & Hsub).
  unfold ReadPage, StatSize.
  destruct (Z.ltb_spec pageID 0); [lia|].
  rewrite Hopen, Hc. cbv zeta.
  set (off := i64 (pageID * pageSize p)) in *.
  destruct (Z.geb_spec off (len c)); [lia|].
  unfold ReadAt. rewrite Hopen, Hc.
  destruct (Z.ltb_spec off 0); [lia|].
  rewrite len_zeros by lia.
  rewrite Z.min_l by lia. rewrite Hsub.
  rewrite splice_all by (rewrite len_zeros; lia).
  destruct (Z.ltb_spec (len B) (pageSize p)); [lia|]. reflexivity.
Qed.

(** The pager never changes what the file system refuses. *)
Lemma ensureSize_refused p (n : Z) d : refused (snd (ensureSize p n d)) = refused d.
Proof.
  unfold ensureSize, StatSize, Truncate.
  destruct (fclosed (f p)); [reflexivity|].
  destruct (d !! fname (f p)) as [c|]; [|reflexivity].
  destruct (len c >=? n); [reflexivity|].
  destruct (n <? 0); reflexivity.
Qed.

Lemma WritePage_refused p d pageID B :
  refused (snd (WritePage p pageID B d)) = refused d.
Proof.
  unfold WritePage. destruct (negb (len B =? pageSize p)); [reflexivity|]. cbv zeta.
  pose proof (ensureSize_refused p (i64 (i64 (pageID * pageSize p) + pageSize p)) d) as He.
  destruct (ensureSize p _ d) as [[e|] d1]; cbn [snd] in *; [exact He|].
  unfold WriteAt. destruct (fclosed (f p)); [exact He|].
  destruct (_ <? 0); [exact He|]. destruct (_ >? max_int64); [exact He|].
  destruct (d1 !! fname (f p)); exact He.
Qed.

Lemma ReadPage_refused p d pageID :
  refused (snd (ReadPage p pageID d)) = refused d.
Proof.
  unfold ReadPage. destruct (pageID <? 0); [reflexivity|]. cbv zeta.
  destruct (StatSize (f p) d) as [e | size]; [reflexivity|].
  destruct (_ >=? size).
  - pose proof (ensureSize_refused p (i64 (i64 (pageID * pageSize p) + pageSize p)) d) as He.
    destruct (ensureSize p _ d) as [[e|] d1]; exact He.
  - destruct (ReadAt _ _ _ d) as [buf' [[]|]]; reflexivity.
Qed.

(** [WritePage] succeeds whenever the wrapped offset is a file offset
    whose page ends within [int64]. *)
Lemma WritePage_at p d pageID B :
  opened p d -> 0 < pageSize p -> len B = pageSize p ->
  0 <= i64 (pageID * pageSize p) ->
  i64 (pageID * pageSize p) + pageSize p <= max_int64 ->
  exists d',
    WritePage p pageID B d = (None, d')
    /\ opened p d'
    /\ page_on_disk d' (fname (f p)) (i64 (pageID * pageSize p)) (pageSize p) B.
Proof.
  intros [Hopen (c & Hc)] Hps HB Hoff Hend.
  set (off := i64 (pageID * pageSize p)) in *.
  (* the file after [ensureSize] *)
  assert (exists c1 d1,
             ensureSize p (off + pageSize p) d = (None, d1)
             /\ d1 !! fname (f p) = Some c1 /\ off + pageSize p <= len c1)
    as (c1 & d1 & Hens & Hc1 & Hlen1).
  { unfold ensureSize, StatSize. rewrite Hopen, Hc.
    destruct (Z.geb_spec (len c) (off + pageSize p)) as [Hge | Hlt].
    - exists c, d. split; [reflexivity|]. split; [exact Hc | lia].
    - unfold Truncate. rewrite Hopen, Hc.
      destruct (Z.ltb_spec (off + pageSize p) 0); [lia|].
      eexists; eexists. split; [reflexivity|].
      split; [apply disk_lookup_insert|].
      rewrite len_app, len_firstn, len_zeros by lia. lia. }
  unfold WritePage.
  destruct (Z.eqb_spec (len B) (pageSize p)); [|lia]. cbn [negb]. cbv zeta.
  fold off.
  rewrite (i64_small (off + pageSize p)) by (unfold max_int64 in *; lia).
  rewrite Hens. unfold WriteAt. rewrite Hopen, Hc1.
  destruct (Z.ltb_spec off 0); [lia|].
  destruct (Z.gtb_spec (off + len B) max_int64); [lia|].
  rewrite zeros_nil by lia. rewrite app_nil_r.
  eexists. split; [reflexivity|].
  split; [split; [exact Hopen | eexists; apply disk_lookup_insert]|].
  exists (splice c1 off B).
  split; [apply disk_lookup_insert|].
  split; [rewrite len_splice by lia; lia|].
  replace (off + pageSize p) with (off + len B) by lia.
  apply sub_splice_same; lia.
Qed.

(** A [WritePage] that returned no error wrote at a file offset whose
    page ends within [int64]. *)
Lemma WritePage_inv p d pageID B d' :
  WritePage p pageID B d = (None, d') ->
  len B = pageSize p
  /\ 0 <= i64 (pageID * pageSize p)
  /\ i64 (pageID * pageSize p) + pageSize p <= max_int64.
Proof.
  unfold WritePage. cbv zeta.
  destruct (Z.eqb_spec (len B) (pageSize p)) as [HB | ]; [|discriminate]. cbn [negb].
  set (off := i64 (pageID * pageSize p)).
  destruct (ensureSize p (i64 (off + pageSize p)) d) as [[e|] d1]; [discriminate|].
  unfold WriteAt. destruct (fclosed (f p)); [discriminate|].
  destruct (Z.ltb_spec off 0); [discriminate|].
  destruct (Z.gtb_spec (off + len B) max_int64); [discriminate|].
  intros _. lia.
Qed.

(** The round trip for every page identifier, when [WritePage] returns no
    error: the page is read back, whatever offset the identifier wrapped
    to. *)
Lemma WritePage_success_roundtrip p d pageID B d1 :
  opened p d -> 0 < pageSize p -> 0 <= pageID ->
  WritePage p pageID B d = (None, d1) ->
  Flush p = None /\ ReadPage p pageID d1 = (inr B, d1).
Proof.
  intros Hop Hps Hid Hw.
  destruct (WritePage_inv p d pageID B d1 Hw) as (HB & Hoff & Hend).
  destruct (WritePage_at p d pageID B Hop Hps HB Hoff Hend) as (d' & Hw' & Hop' & Hpage).
  rewrite Hw in Hw'. injection Hw' as <-.
  split; [destruct Hop as [Hcl _]; unfold Flush, Sync; rewrite Hcl; reflexivity|].
  apply ReadPage_on_disk; assumption.
Qed.

(** C4 (amended): for every pageID >= 0 whose page ends within the
    [int64] file offsets, (pageID+1) * pageSize <= 2^63 - 1, and every
    buffer B of length pageSize, on a handle returned by Open (on a file
    system without faults) WritePage(pageID, B); Flush(); ReadPage(pageID)
    returns exactly B, and so does ReadPage(pageID) on a handle obtained
    by closing and reopening the same path with the same page size. *)
Theorem write_flush_read_roundtrip (path : string) ps d p d0 pageID B :
  Open path ps d = (inr p, d0) ->
  0 <= pageID -> len B = ps -> (pageID + 1) * ps <= max_int64 ->
  exists d1,
    WritePage p pageID B d0 = (None, d1)
    /\ Flush p = None
    /\ ReadPage p pageID d1 = (inr B, d1)
    /\ exists p' q,
         Close p = (p', None)
         /\ Open path ps d1 = (inr q, d1)
         /\ ReadPage q pageID d1 = (inr B, d1).
Proof.
  intros Hopen Hid HB Hmax.
  destruct (Open_inv path ps d p d0 Hopen) as (Hv & Hname & Hps & Hop & _ & Hne & Hr0).
  destruct (valid_page_size_mod ps Hv) as [Hpos _].
  assert (Eoff : i64 (pageID * pageSize p) = pageID * pageSize p)
    by (apply i64_small; rewrite Hps; unfold max_int64 in *; nia).
  assert (Hoff : 0 <= i64 (pageID * pageSize p)) by (rewrite Eoff, Hps; nia).
  destruct (WritePage_at p d0 pageID B Hop ltac:(lia) ltac:(lia) Hoff
              ltac:(rewrite Eoff, Hps; lia))
    as (d1 & Hw & Hop1 & Hpage).
  exists d1. split; [exact Hw|].
  pose proof Hop1 as [Hcl (c1 & Hc1)].
  split; [unfold Flush, Sync; rewrite Hcl; reflexivity|].
  split; [apply ReadPage_on_disk; try assumption; rewrite ?Hps; lia|].
  assert (Hr1 : refused d1 !! path = None).
  { pose proof (WritePage_refused p d0 pageID B) as E. rewrite Hw in E.
    cbn [snd] in E. rewrite E. exact Hr0. }
  destruct (Open_ok path ps d1 Hv Hne Hr1) as (q & d2 & Hq & Hqname & Hqps & Hqop & Hkeep).
  rewrite Hname in Hc1. rewrite (Hkeep c1 Hc1) in *.
  exists {| f := {| fname := fname (f p); fclosed := true |}; pageSize := pageSize p |}, q.
  split; [unfold Close, FileClose; rewrite Hcl; reflexivity|].
  split; [exact Hq|].
  apply ReadPage_on_disk; try assumption; rewrite ?Hqps, <- ?Hps; try lia.
  rewrite Hqname, <- Hname. exact Hpage.
Qed.

Lemma write_flush_read_roundtrip_witness :
  let p := {| f := {| fname := "db"; fclosed := false |}; pageSize := 512 |} in
  let B := repeat xff 512 in
  exists d1,
    WritePage p 5 B (<["db"%string := []]> ∅) = (None, d1)
    /\ Flush p = None
    /\ ReadPage p 5 d1 = (inr B, d1)
    /\ exists p' q,
         Close p = (p', None)
         /\ Open "db" 512 d1 = (inr q, d1)
         /\ ReadPage q 5 d1 = (inr B, d1).
Proof.
  intros p B.
  apply (write_flush_read_roundtrip "db" 512 ∅ p (<["db"%string := []]> ∅) 5 B).
  - vm_compute. reflexivity.
  - vm_compute. discriminate.
  - vm_compute. reflexivity.
  - vm_compute. discriminate.
Defined.

(** C4, as stated, fails for page identifiers whose offset leaves the
    [int64] range: with 4096-byte pages, [2^51 * 4096] wraps to [-2^63],
    [WriteAt] rejects the negative offset, and so does [ReadAt]. *)
Lemma write_flush_read_roundtrip_counterexample :
  let B := repeat xff 4096 in
  exists p d0,
    Open "db" 4096 ∅ = (inr p, d0)
    /\ 0 <= 2 ^ 51 /\ len B = 4096
    /\ WritePage p (2 ^ 51) B d0 = (Some (ErrIO ErrNegativeOffset), d0)
    /\ Flush p = None
    /\ ReadPage p (2 ^ 51) d0 = (inl (ErrIO ErrNegativeOffset), d0).
Proof.
  intros B.
  exists {| f := {| fname := "db"; fclosed := false |}; pageSize := 4096 |},
         (<["db"%string := []]> ∅).
  split; [vm_compute; reflexivity|].
  split; [vm_compute; discriminate|].
  split; [vm_compute; reflexivity|].
  split; [vm_compute; reflexivity|].
  split; vm_compute; reflexivity.
Qed.

End PagerFacts.


(** ** Pages reached by operations *)

Section Writes.

Implicit Types (buf rec : list byte) (s i : Z) (o : op) (ops : list op).

Lemma write_tame buf b : tame buf -> write buf b -> tame b.
Proof.
  intros Ht Hw. destruct Hw as [buf rec Hfit | buf s [Hs _]].
  - apply insert_image_tame; assumption.
  - apply delete_image_tame; assumption.
Qed.

Lemma writes_tame buf b : tame buf -> writes buf b -> tame b.
Proof.
  intros Ht Hw. induction Hw as [| buf b1 b2 H1 _ IH]; [assumption|].
  apply IH. eapply write_tame; eassumption.
Qed.

Lemma writes_one buf b : write buf b -> writes buf b.
Proof. intros H. eapply writes_cons; [exact H | apply writes_nil]. Qed.

Lemma writes_trans b1 b2 b3 : writes b1 b2 -> writes b2 b3 -> writes b1 b3.
Proof.
  intros H12 H23. induction H12 as [| buf b b' H _ IH]; [assumption|].
  eapply writes_cons; [exact H | apply IH; exact H23].
Qed.

(** An invariant of the two writes on tame pages holds on every page
    reached. *)
Lemma writes_invariant (P : list byte -> Prop) buf b :
  (forall b0 rec, tame b0 -> P b0 ->
     u16 (len rec) + slotSize <= hFreeEnd b0 - hFreeStart b0 ->
     P (insert_image b0 rec)) ->
  (forall b0 s, tame b0 -> P b0 -> live b0 s -> P (delete_image b0 s)) ->
  tame buf -> P buf -> writes buf b -> P b.
Proof.
  intros Hins Hdel Ht HP Hw. induction Hw as [| buf b1 b2 H1 _ IH]; [assumption|].
  apply IH; [eapply write_tame; eassumption|].
  destruct H1 as [buf rec Hfit | buf s Hl]; [apply Hins | apply Hdel]; assumption.
Qed.

(** What one operation on a tame page leaves is reached by writes. *)
Lemma step_writes o buf buf' :
  tame buf -> step o buf = Ret tt buf' -> writes buf buf'.
Proof.
  intros Ht. pose proof Ht as [Hinv Hfe].
  destruct o as [rec | s | s | s rec]; unfold step; intros H.
  - destruct (Insert_tame buf rec Ht) as [E | [[E _] | [Hfit E]]].
    + rewrite (bind_ok _ _ _ _ _ E) in H. injection H as <-. apply writes_nil.
    + rewrite (bind_abort _ _ _ _ E) in H. discriminate.
    + rewrite (bind_ok _ _ _ _ _ E) in H. injection H as <-.
      apply writes_one, write_insert. exact Hfit.
  - apply bind_inv in H. destruct H as (r & b1 & Hget & H).
    apply Get_unchanged in Hget. subst b1. injection H as <-. apply writes_nil.
  - destruct (live_dec buf s) as [Hl | Hl].
    + rewrite (bind_ok _ _ _ _ _ (Delete_found buf s Hinv Hl)) in H.
      injection H as <-. apply writes_one, write_delete. exact Hl.
    + rewrite (bind_ok _ _ _ _ _ (Delete_not_found buf s Hinv Hl)) in H.
      injection H as <-. apply writes_nil.
  - destruct (live_dec buf s) as [Hl | Hl].
    + pose proof Hl as [Hs _].
      pose proof (delete_image_tame buf s Ht Hs) as Ht'.
      pose proof (Delete_found buf s Hinv Hl) as Hdel.
      assert (Hw1 : writes buf (delete_image buf s))
        by (apply writes_one, write_delete; exact Hl).
      destruct (Insert_tame (delete_image buf s) rec Ht') as [E | [[E _] | [Hfit E]]].
      * rewrite (bind_ok _ _ _ _ _ (Update_run_ok _ _ _ _ _ _ Hdel E)) in H.
        injection H as <-. exact Hw1.
      * rewrite (bind_abort _ _ _ _ (Update_run_abort _ _ _ _ _ Hdel E)) in H.
        discriminate.
      * rewrite (bind_ok _ _ _ _ _ (Update_run_ok _ _ _ _ _ _ Hdel E)) in H.
        injection H as <-.
        eapply writes_trans; [exact Hw1|]. apply writes_one, write_insert. exact Hfit.
    + rewrite (bind_ok _ _ _ _ _
                 (Update_run_err _ rec _ _ _ (Delete_not_found buf s Hinv Hl))) in H.
      injection H as <-. apply writes_nil.
Qed.

Lemma run_writes ops : forall buf buf',
  tame buf -> run ops buf = Ret tt buf' -> writes buf buf'.
Proof.
  induction ops as [| o ops IH]; intros buf buf' Ht H; cbn [run] in H.
  - injection H as <-. apply writes_nil.
  - apply bind_inv in H. destruct H as ([] & b1 & Hstep & Hrest).
    pose proof (step_writes o buf b1 Ht Hstep) as Hw.
    eapply writes_trans; [exact Hw|].
    apply IH; [eapply writes_tame; eassumption | exact Hrest].
Qed.

(** A property kept by the two writes holds after every run. *)
Lemma run_invariant (P : list byte -> Prop) ops buf buf' :
  (forall b0 rec, tame b0 -> P b0 ->
     u16 (len rec) + slotSize <= hFreeEnd b0 - hFreeStart b0 ->
     P (insert_image b0 rec)) ->
  (forall b0 s, tame b0 -> P b0 -> live b0 s -> P (delete_image b0 s)) ->
  tame buf -> P buf -> run ops buf = Ret tt buf' -> P buf'.
Proof.
  intros Hins Hdel Ht HP Hrun.
  apply (writes_invariant P buf buf' Hins Hdel Ht HP).
  apply (run_writes ops); assumption.
Qed.

End Writes.


(** ** Further facts on the operations *)

Lemma valid_page_size_small (n : Z) :
  valid_page_size n = true -> n < 65536 -> 512 <= n <= 65024.
Proof.
  intros Hv Hlt. destruct (valid_page_size_mod n Hv) as [Hpos Hmod].
  rewrite Z.mod_small in Hmod by lia. lia.
Qed.

Section MoreOperations.

Implicit Types (buf rec : list byte) (s t i : Z) (ops : list op).

(** A successful [Insert] on a tame page is the one of [Insert_ok]. *)
Lemma Insert_tame_success buf rec id b :
  tame buf -> Insert rec buf = Ret (id, None) b ->
  id = hSlotCount buf
  /\ u16 (len rec) + slotSize <= hFreeEnd buf - hFreeStart buf
  /\ b = insert_image buf rec.
Proof.
  intros Ht H. destruct (Insert_tame buf rec Ht) as [E | [[E _] | [Hfit E]]];
    rewrite E in H; try discriminate.
  injection H as <- <-. repeat split; assumption.
Qed.

Lemma insert_image_live_old buf rec t :
  page_inv buf ->
  u16 (len rec) + slotSize <= hFreeEnd buf - hFreeStart buf ->
  live buf t ->
  live (insert_image buf rec) t /\ record (insert_image buf rec) t = record buf t.
Proof.
  intros Hinv Hfit [Ht Hln]. pose proof Hinv as [Hd Hf He Hsl].
  assert (Eo : slotOff (insert_image buf rec) t = slotOff buf t)
    by (apply insert_image_old_slot; assumption).
  assert (El : slotLen (insert_image buf rec) t = slotLen buf t)
    by (apply insert_image_old_slot; assumption).
  assert (Esc : hSlotCount (insert_image buf rec) = hSlotCount buf + 1)
    by (apply insert_image_slotCount; assumption).
  split.
  - unfold live. rewrite Esc, El. split; [lia | assumption].
  - unfold record. rewrite Eo, El. destruct (Hsl t Ht) as [Hlo Hhi].
    pose proof (Uint16_range buf (hdrSize + t * slotSize + 2)) as R.
    fold (slotLen buf t) in R.
    apply insert_image_old_bytes; (assumption || lia).
Qed.

Lemma insert_image_packed buf rec :
  page_inv buf -> packed buf ->
  u16 (len rec) + slotSize <= hFreeEnd buf - hFreeStart buf ->
  packed (insert_image buf rec).
Proof.
  intros Hinv Hp Hfit i j Hi Hij Hj. pose proof Hinv as [Hd Hf He Hsl].
  rewrite insert_image_slotCount in Hj by assumption.
  assert (Ei : slotOff (insert_image buf rec) i = slotOff buf i)
    by (apply insert_image_old_slot; (assumption || lia)).
  rewrite Ei.
  destruct (Z.eq_dec j (hSlotCount buf)) as [-> | Hne].
  - rewrite insert_image_slotOff, insert_image_slotLen by assumption.
    destruct (Hsl i ltac:(lia)) as [Hlo _]. lia.
  - assert (Eo : slotOff (insert_image buf rec) j = slotOff buf j)
      by (apply insert_image_old_slot; (assumption || lia)).
    assert (El : slotLen (insert_image buf rec) j = slotLen buf j)
      by (apply insert_image_old_slot; (assumption || lia)).
    rewrite Eo, El. apply Hp; lia.
Qed.

Lemma delete_image_packed buf s :
  page_inv buf -> packed buf -> 0 <= s < hSlotCount buf ->
  packed (delete_image buf s).
Proof.
  intros Hinv Hp Hs i j Hi Hij Hj. pose proof Hinv as [Hd Hf He Hsl].
  assert (Hlen : hdrSize + s * slotSize + 4 <= len buf)
    by (unfold hdrSize, slotSize in *; lia).
  destruct (delete_image_header buf s ltac:(lia) Hlen) as (Esc & _).
  rewrite Esc in Hj. rewrite !delete_image_slotOff by lia.
  specialize (Hp i j Hi Hij Hj).
  destruct (Z.eq_dec j s) as [-> | Hne].
  - rewrite delete_image_slotLen_same by lia.
    pose proof (Uint16_range buf (hdrSize + s * slotSize + 2)) as R.
    fold (slotLen buf s) in R. lia.
  - rewrite delete_image_slotLen_other by lia. exact Hp.
Qed.

(** Lengths and flags are kept by every run on a tame page. *)
Lemma run_len_flags ops buf buf' :
  tame buf -> run ops buf = Ret tt buf' ->
  len buf' = len buf /\ hFlags buf' = hFlags buf.
Proof.
  intros Ht Hrun.
  apply (run_invariant (fun b => len b = len buf /\ hFlags b = hFlags buf) ops buf buf');
    try assumption; [| |split; reflexivity].
  - intros b0 rec [[Hd Hf He Hsl] _] [E1 E2] Hfit.
    rewrite len_insert_image, insert_image_flags by assumption. split; assumption.
  - intros b0 s [[Hd Hf He Hsl] _] [E1 E2] [Hs _].
    assert (Hlen : hdrSize + s * slotSize + 4 <= len b0)
      by (unfold hdrSize, slotSize in *; lia).
    destruct (delete_image_header b0 s ltac:(lia) Hlen) as (_ & _ & _ & Efl).
    rewrite len_delete_image, Efl by lia. split; assumption.
Qed.

(** The data region present at the start is never written again. *)
Lemma run_data_region ops buf buf' :
  tame buf -> run ops buf = Ret tt buf' ->
  hFreeEnd buf' <= hFreeEnd buf
  /\ forall j, hFreeEnd buf <= j -> at8 buf' j = at8 buf j.
Proof.
  intros Ht Hrun.
  apply (run_invariant
           (fun b => hFreeEnd b <= hFreeEnd buf
                     /\ forall j, hFreeEnd buf <= j -> at8 b j = at8 buf j)
           ops buf buf'); try assumption; [| |split; [lia | reflexivity]].
  - intros b0 rec [[Hd Hf He Hsl] _] [E1 E2] Hfit.
    pose proof (u16_range (len rec)) as Rl.
    pose proof (Uint16_range b0 0) as R0. fold (hSlotCount b0) in R0.
    rewrite insert_image_freeEnd by assumption. split; [lia|].
    intros j Hj. rewrite <- (E2 j Hj).
    apply insert_image_frame; try assumption; unfold hdrSize, slotSize in *; lia.
  - intros b0 s [[Hd Hf He Hsl] _] [E1 E2] [Hs _].
    assert (Hlen : hdrSize + s * slotSize + 4 <= len b0)
      by (unfold hdrSize, slotSize in *; lia).
    destruct (delete_image_header b0 s ltac:(lia) Hlen) as (_ & _ & Efe & _).
    rewrite Efe. split; [assumption|].
    intros j Hj. rewrite <- (E2 j Hj).
    apply delete_image_frame; unfold hdrSize, slotSize in *; lia.
Qed.

(** A directory entry keeps its offset; its length stays or becomes 0. *)
Lemma run_slot_entry ops buf buf' t :
  tame buf -> run ops buf = Ret tt buf' -> 0 <= t < hSlotCount buf ->
  hSlotCount buf <= hSlotCount buf'
  /\ slotOff buf' t = slotOff buf t
  /\ (slotLen buf' t = slotLen buf t \/ slotLen buf' t = 0).
Proof.
  intros Ht Hrun Hin.
  apply (run_invariant
           (fun b => hSlotCount buf <= hSlotCount b
                     /\ slotOff b t = slotOff buf t
                     /\ (slotLen b t = slotLen buf t \/ slotLen b t = 0))
           ops buf buf'); try assumption;
    [| |split; [lia | split; [reflexivity | left; reflexivity]]].
  - intros b0 rec [[Hd Hf He Hsl] _] (E1 & E2 & E3) Hfit.
    rewrite insert_image_slotCount by assumption.
    assert (Eo : slotOff (insert_image b0 rec) t = slotOff b0 t)
      by (apply insert_image_old_slot; (assumption || lia)).
    assert (El : slotLen (insert_image b0 rec) t = slotLen b0 t)
      by (apply insert_image_old_slot; (assumption || lia)).
    rewrite Eo, El. split; [lia | split; assumption].
  - intros b0 s [[Hd Hf He Hsl] _] (E1 & E2 & E3) [Hs _].
    assert (Hlen : hdrSize + s * slotSize + 4 <= len b0)
      by (unfold hdrSize, slotSize in *; lia).
    destruct (delete_image_header b0 s ltac:(lia) Hlen) as (Esc & _).
    rewrite Esc, delete_image_slotOff by lia. split; [lia | split; [assumption|]].
    destruct (Z.eq_dec t s) as [-> | Hne].
    + right. apply delete_image_slotLen_same; lia.
    + rewrite delete_image_slotLen_other by lia. assumption.
Qed.

Lemma run_packed ops buf buf' :
  tame buf -> packed buf -> run ops buf = Ret tt buf' -> packed buf'.
Proof.
  intros Ht Hp Hrun.
  apply (run_invariant packed ops buf buf'); try assumption.
  - intros b0 rec [Hinv _] Hp0 Hfit. apply insert_image_packed; assumption.
  - intros b0 s [Hinv _] Hp0 [Hs _]. apply delete_image_packed; assumption.
Qed.

End MoreOperations.

(** ** The file behind a pager *)

Section PagerContents.

Import Pager.

Implicit Types (p q : Pager) (d : disk) (c B : list byte) (pageID ps : Z).

Lemma at8_app_zeros c (k x : Z) : at8 (c ++ zeros k) x = at8 c x.
Proof.
  unfold at8, zeros.
  destruct (Nat.ltb_spec (Z.to_nat x) (length c)) as [Hlt | Hge].
  - apply app_nth1. exact Hlt.
  - rewrite app_nth2 by lia. rewrite nth_repeat.
    symmetry. apply nth_overflow. exact Hge.
Qed.

Lemma len_page_of c (off ps : Z) :
  0 <= off -> 0 <= ps -> len (page_of c off ps) = ps.
Proof.
  intros Hoff Hps. unfold page_of. pose proof (len_nonneg c) as Hc.
  rewrite len_sub; try lia.
  rewrite len_app. destruct (Z.le_gt_cases (off + ps) (len c)).
  - rewrite zeros_nil by lia. unfold len at 2. cbn [length]. lia.
  - rewrite len_zeros by lia. lia.
Qed.

Lemma at8_page_of c (off ps k : Z) :
  0 <= off -> 0 <= k < ps -> at8 (page_of c off ps) k = at8 c (off + k).
Proof.
  intros Hoff Hk. unfold page_of.
  rewrite at8_sub by lia. apply at8_app_zeros.
Qed.

Lemma at8_past_end c (x : Z) : len c <= x -> at8 c x = x00.
Proof. intros H. unfold at8, len in *. apply nth_overflow. lia. Qed.

Lemma page_of_ext c c' (off ps : Z) :
  0 <= off -> 0 <= ps ->
  (forall k, 0 <= k < ps -> at8 c' (off + k) = at8 c (off + k)) ->
  page_of c' off ps = page_of c off ps.
Proof.
  intros Hoff Hps H. apply at8_ext.
  - rewrite !len_page_of; lia.
  - intros k Hk. rewrite len_page_of in Hk by lia.
    rewrite !at8_page_of by lia. apply H. lia.
Qed.

Lemma page_of_past_end c (off ps : Z) :
  0 <= off -> 0 <= ps -> len c <= off -> page_of c off ps = zeros ps.
Proof.
  intros Hoff Hps Hc. apply at8_ext.
  - rewrite len_page_of, len_zeros; lia.
  - intros k Hk. rewrite len_page_of in Hk by lia.
    rewrite at8_page_of, at8_zeros by lia. apply at8_past_end. lia.
Qed.

(** What [ReadPage] returns and leaves on the disk, for a page that ends
    within the [int64] offsets. *)
Lemma ReadPage_result p d c pageID :
  fclosed (f p) = false -> d !! fname (f p) = Some c ->
  0 <= pageID -> 0 < pageSize p -> (pageID + 1) * pageSize p <= max_int64 ->
  ReadPage p pageID d =
    (inr (page_of c (pageID * pageSize p) (pageSize p)),
     if pageID * pageSize p <? len c then d
     else <[fname (f p) := c ++ zeros ((pageID + 1) * pageSize p - len c)]> d).
Proof.
  intros Hopen Hc Hid Hps Hmax. pose proof (len_nonneg c) as Hlc.
  assert (Eoff : i64 (pageID * pageSize p) = pageID * pageSize p)
    by (apply i64_small; unfold max_int64 in *; nia).
  unfold ReadPage, StatSize.
  destruct (Z.ltb_spec pageID 0); [lia|].
  rewrite Hopen, Hc. cbv zeta. rewrite Eoff.
  set (off := pageID * pageSize p) in *.
  assert (Hoff : 0 <= off) by (unfold off; nia).
  replace ((pageID + 1) * pageSize p) with (off + pageSize p) in * by (unfold off; lia).
  destruct (Z.geb_spec off (len c)) as [Hge | Hlt];
    destruct (Z.ltb_spec off (len c)); try lia.
  - rewrite i64_small by (unfold max_int64 in *; lia).
    unfold ensureSize, StatSize. rewrite Hopen, Hc.
    destruct (Z.geb_spec (len c) (off + pageSize p)); [lia|].
    unfold Truncate. rewrite Hopen, Hc.
    destruct (Z.ltb_spec (off + pageSize p) 0); [lia|].
    rewrite firstn_all2 by (unfold len in *; lia).
    rewrite page_of_past_end by lia. reflexivity.
  - unfold ReadAt. rewrite Hopen, Hc.
    destruct (Z.ltb_spec off 0); [lia|].
    rewrite len_zeros by lia.
    set (data := sub c off (Z.min (off + pageSize p) (len c))).
    assert (Hdata : len data = Z.min (off + pageSize p) (len c) - off)
      by (apply len_sub; lia).
    assert (E : splice (zeros (pageSize p)) 0 data = page_of c off (pageSize p)).
    { apply at8_ext.
      - rewrite len_splice, len_page_of; rewrite ?len_zeros; lia.
      - intros k Hk. rewrite len_splice in Hk; rewrite ?len_zeros in *; try lia.
        rewrite at8_page_of by lia.
        destruct (Z.lt_ge_cases k (len data)) as [Hin | Hout].
        + rewrite at8_splice_in; rewrite ?len_zeros; try lia.
          rewrite Z.sub_0_r. unfold data. apply at8_sub; lia.
        + rewrite at8_splice_out; rewrite ?len_zeros; try lia.
          rewrite at8_zeros. symmetry. apply at8_past_end. lia. }
    rewrite E.
    destruct (len data <? pageSize p); reflexivity.
Qed.

(** What a [WritePage] of a page that ends within the [int64] offsets
    leaves on the disk. *)
Lemma WritePage_result p d c pageID B :
  fclosed (f p) = false -> d !! fname (f p) = Some c ->
  0 <= pageID -> 0 < pageSize p -> (pageID + 1) * pageSize p <= max_int64 ->
  len B = pageSize p ->
  WritePage p pageID B d =
    (None,
     <[fname (f p) :=
         splice (c ++ zeros ((pageID + 1) * pageSize p - len c))
                (pageID * pageSize p) B]> d).
Proof.
  intros Hopen Hc Hid Hps Hmax HB. pose proof (len_nonneg c) as Hlc.
  assert (Eoff : i64 (pageID * pageSize p) = pageID * pageSize p)
    by (apply i64_small; unfold max_int64 in *; nia).
  unfold WritePage.
  destruct (Z.eqb_spec (len B) (pageSize p)); [|lia]. cbn [negb]. cbv zeta.
  rewrite Eoff.
  set (off := pageID * pageSize p) in *.
  assert (Hoff : 0 <= off) by (unfold off; nia).
  replace ((pageID + 1) * pageSize p) with (off + pageSize p) in * by (unfold off; lia).
  rewrite i64_small by (unfold max_int64 in *; lia).
  unfold ensureSize, StatSize. rewrite Hopen, Hc.
  destruct (Z.geb_spec (len c) (off + pageSize p)) as [Hge | Hlt].
  - unfold WriteAt. rewrite Hopen, Hc.
    destruct (Z.ltb_spec off 0); [lia|].
    destruct (Z.gtb_spec (off + len B) max_int64); [lia|].
    rewrite HB. reflexivity.
  - unfold Truncate. rewrite Hopen, Hc.
    destruct (Z.ltb_spec (off + pageSize p) 0); [lia|].
    unfold WriteAt. rewrite Hopen, disk_lookup_insert.
    destruct (Z.ltb_spec off 0); [lia|].
    destruct (Z.gtb_spec (off + len B) max_int64); [lia|].
    rewrite firstn_all2 by (unfold len in *; lia).
    rewrite disk_insert_insert.
    rewrite (zeros_nil (off + len B - _))
      by (rewrite len_app, len_zeros by lia; lia).
    rewrite app_nil_r. reflexivity.
Qed.

(** The file after a page write: its length, and its bytes. *)
Lemma len_written c B (off : Z) :
  0 <= off -> len (splice (c ++ zeros (off + len B - len c)) off B)
              = Z.max (len c) (off + len B).
Proof.
  intros Hoff. pose proof (len_nonneg c) as Hc. pose proof (len_nonneg B) as Hb.
  assert (L : len (c ++ zeros (off + len B - len c)) = Z.max (len c) (off + len B)).
  { rewrite len_app. destruct (Z.le_gt_cases (off + len B) (len c)).
    - rewrite zeros_nil by lia. unfold len at 2. cbn [length]. lia.
    - rewrite len_zeros by lia. lia. }
  rewrite len_splice; lia.
Qed.

Lemma at8_written_out c B (off x : Z) :
  0 <= off -> 0 <= x -> x < off \/ off + len B <= x ->
  at8 (splice (c ++ zeros (off + len B - len c)) off B) x = at8 c x.
Proof.
  intros Hoff Hx Hout. pose proof (len_nonneg c) as Hc. pose proof (len_nonneg B) as Hb.
  assert (L : len (c ++ zeros (off + len B - len c)) = Z.max (len c) (off + len B)).
  { rewrite len_app. destruct (Z.le_gt_cases (off + len B) (len c)).
    - rewrite zeros_nil by lia. unfold len at 2. cbn [length]. lia.
    - rewrite len_zeros by lia. lia. }
  rewrite at8_splice_out by lia. apply at8_app_zeros.
Qed.

Lemma at8_written_in c B (off x : Z) :
  0 <= off -> off <= x < off + len B ->
  at8 (splice (c ++ zeros (off + len B - len c)) off B) x = at8 B (x - off).
Proof.
  intros Hoff Hx. pose proof (len_nonneg c) as Hc.
  assert (L : len (c ++ zeros (off + len B - len c)) = Z.max (len c) (off + len B)).
  { rewrite len_app. destruct (Z.le_gt_cases (off + len B) (len c)).
    - rewrite zeros_nil by lia. unfold len at 2. cbn [length]. lia.
    - rewrite len_zeros by lia. lia. }
  apply at8_splice_in; lia.
Qed.

End PagerContents.

(** ** The command, and pages kept in a file *)

Section MainFacts.

Import Pager Main.

Lemma firstn_zeros (k n : Z) : 0 <= k <= n -> firstn (Z.to_nat k) (zeros n) = zeros k.
Proof.
  intros H. unfold zeros.
  replace (Z.to_nat n) with (Z.to_nat k + (Z.to_nat n - Z.to_nat k))%nat by lia.
  rewrite repeat_app. rewrite firstn_app.
  rewrite repeat_length, Nat.sub_diag. cbn [firstn]. rewrite app_nil_r.
  apply firstn_all2. rewrite repeat_length. lia.
Qed.

Lemma NewHeapPage_on_page (buf : list byte) :
  page_inv buf -> HeapPage.NewHeapPage buf = HeapPage.Ret None buf.
Proof.
  intros Hinv. apply NewHeapPage_used; [apply page_inv_len; assumption|].
  destruct Hinv as [Hd _ _ _].
  pose proof (Uint16_range buf 0) as R0. fold (hSlotCount buf) in R0.
  unfold hdrSize, slotSize in *. lia.
Qed.

(** One run of [main] on a file system: the file it leaves. *)
Lemma main_run (prog dbfile : string) (rest : list string) (d : disk) :
  dbfile <> EmptyString -> refused d !! dbfile = None ->
  exists c',
    main (prog :: dbfile :: rest) d = (Done, <[dbfile := c']> d)
    /\ len c' = Z.max 4096 (len (default [] (d !! dbfile)))
    /\ (forall x, 0 <= x < 4 -> at8 c' x = at8 magic x)
    /\ (forall x, 4 <= x -> at8 c' x = at8 (default [] (d !! dbfile)) x).
Proof.
  intros Hne Hr.
  set (c0 := default [] (d !! dbfile)).
  set (p := {| f := {| fname := dbfile; fclosed := false |}; pageSize := 4096 |}).
  set (d0 := match d !! dbfile with Some _ => d | None => <[dbfile := []]> d end).
  assert (Hopen : Open dbfile 4096 d = (inr p, d0))
    by (unfold Open; rewrite (OpenFile_ok dbfile d Hne Hr); reflexivity).
  assert (Hc0 : d0 !! dbfile = Some c0).
  { unfold d0, c0. destruct (d !! dbfile) as [c|] eqn:E; [exact E | apply disk_lookup_insert]. }
  assert (Hd0 : forall x, <[dbfile := x]> d0 = <[dbfile := x]> d).
  { intros x. unfold d0. destruct (d !! dbfile); [reflexivity | apply disk_insert_insert]. }
  pose proof (len_nonneg c0) as Hl0.
  set (c1 := if 0 <? len c0 then c0 else c0 ++ zeros (4096 - len c0)).
  set (d1 := if 0 <? len c0 then d0 else <[dbfile := c0 ++ zeros (4096 - len c0)]> d0).
  assert (Hread : ReadPage p 0 d0 = (inr (page_of c0 0 4096), d1)).
  { assert (Hmax : (0 + 1) * pageSize p <= max_int64) by (vm_compute; discriminate).
    rewrite (ReadPage_result p d0 c0 0 eq_refl Hc0 ltac:(lia) eq_refl Hmax).
    reflexivity. }
  assert (Hc1 : d1 !! dbfile = Some c1).
  { unfold d1, c1. destruct (0 <? len c0); [exact Hc0 | apply disk_lookup_insert]. }
  assert (Hd1 : forall x, <[dbfile := x]> d1 = <[dbfile := x]> d).
  { intros x. unfold d1. destruct (0 <? len c0); [apply Hd0|].
    rewrite disk_insert_insert. apply Hd0. }
  assert (H1 : forall x, at8 c1 x = at8 c0 x).
  { intros x. unfold c1. destruct (0 <? len c0); [reflexivity | apply at8_app_zeros]. }
  assert (L1 : len c1 = if 0 <? len c0 then len c0 else 4096).
  { unfold c1. destruct (Z.ltb_spec 0 (len c0)); [reflexivity|].
    rewrite len_app, len_zeros by lia. lia. }
  set (buf := splice (page_of c0 0 4096) 0 magic).
  assert (Lp : len (page_of c0 0 4096) = 4096) by (apply len_page_of; lia).
  assert (Lm : len magic = 4) by reflexivity.
  assert (Lb : len buf = 4096) by (unfold buf; rewrite len_splice; lia).
  assert (Hwrite : WritePage p 0 buf d1
                   = (None, <[dbfile := splice (c1 ++ zeros (4096 - len c1)) 0 buf]> d)).
  { assert (Hmax : (0 + 1) * pageSize p <= max_int64) by (vm_compute; discriminate).
    rewrite (WritePage_result p d1 c1 0 buf eq_refl Hc1 ltac:(lia) eq_refl Hmax Lb).
    change (fname (f p)) with dbfile. rewrite Hd1. reflexivity. }
  exists (splice (c1 ++ zeros (4096 - len c1)) 0 buf).
  split; [|split; [|split]].
  - unfold main. cbn [length Nat.ltb Nat.leb nth]. cbv zeta.
    rewrite Hopen, Hread. fold buf. rewrite Hwrite. reflexivity.
  - replace 4096 with (0 + len buf) at 1 by lia.
    rewrite len_written by lia. fold c0.
    destruct (Z.ltb_spec 0 (len c0)); lia.
  - intros x Hx. replace 4096 with (0 + len buf) by lia.
    rewrite at8_written_in by lia. rewrite Z.sub_0_r.
    unfold buf. rewrite at8_splice_in by lia. rewrite Z.sub_0_r. reflexivity.
  - intros x Hx. fold c0. replace 4096 with (0 + len buf) by lia.
    destruct (Z.lt_ge_cases x 4096) as [Hin | Hout].
    + rewrite at8_written_in by lia. rewrite Z.sub_0_r.
      unfold buf. rewrite at8_splice_out by lia.
      rewrite at8_page_of by lia. reflexivity.
    + rewrite at8_written_out by lia. apply H1.
Qed.

End MainFacts.


(** ** Properties of the slotted page beyond the specification's list *)

(** X1: when a non-empty record and its directory entry fit, Insert
    returns the former slotCount as slot ID, Get on that ID returns the
    record, and Get on every slot that was live returns the same record
    as before the insert. *)
Theorem Insert_then_Get (buf rec : list byte) :
  page_inv buf -> 0 < len rec ->
  len rec + slotSize <= hFreeEnd buf - hFreeStart buf ->
  exists buf',
    Insert rec buf = Ret (hSlotCount buf, None) buf'
    /\ Get (hSlotCount buf) buf' = Ret (rec, true) buf'
    /\ forall t, live buf t ->
         Get t buf = Ret (record buf t, true) buf
         /\ Get t buf' = Ret (record buf t, true) buf'.
Proof.
  intros Hinv Hpos Hfit.
  destruct (Insert_spec buf rec Hinv Hfit) as (Hins & Hsub & Hsc & Hoff & Hln & _ & _ & Hinv').
  pose proof Hinv as [Hd Hf He Hsl].
  pose proof (Uint16_range buf 4) as R4. fold (hFreeEnd buf) in R4.
  pose proof (Uint16_range buf 2) as R2. fold (hFreeStart buf) in R2.
  assert (El : u16 (len rec) = len rec) by (apply u16_small; unfold slotSize in *; lia).
  exists (insert_image buf rec). split; [exact Hins|]. split.
  - assert (Hl : live (insert_image buf rec) (hSlotCount buf)).
    { pose proof (Uint16_range buf 0) as R0. fold (hSlotCount buf) in R0.
      split; [lia|]. rewrite Hln. lia. }
    rewrite (Get_found _ _ Hinv' Hl). unfold record. rewrite Hoff, Hln.
    replace (hFreeEnd buf - len rec + len rec) with (hFreeEnd buf) by lia.
    rewrite Hsub. reflexivity.
  - intros t Ht. split; [apply Get_found; assumption|].
    destruct (insert_image_live_old buf rec t Hinv ltac:(rewrite El; exact Hfit) Ht)
      as [Hl' <-].
    apply Get_found; assumption.
Qed.

Lemma Insert_then_Get_witness :
  let page := insert_image (fresh_image (zeros 512)) [x41; x42] in
  exists buf',
    Insert [x43; x44; x45] page = Ret (hSlotCount page, None) buf'
    /\ Get (hSlotCount page) buf' = Ret ([x43; x44; x45], true) buf'
    /\ Get 0 buf' = Ret (record page 0, true) buf'.
Proof.
  intros page.
  destruct (Insert_then_Get page [x43; x44; x45]) as (buf' & Hins & Hget & Hold).
  - apply check_page_sound. vm_compute. reflexivity.
  - vm_compute. reflexivity.
  - vm_compute. discriminate.
  - exists buf'. split; [exact Hins|]. split; [exact Hget|].
    apply (Hold 0).
    split; [vm_compute; split; [discriminate | reflexivity] | vm_compute; discriminate].
Defined.

(** X2: Get finds a slot exactly when Delete accepts it, namely when the
    ID is in [0, slotCount) and the stored length is not 0; the bytes Get
    returns have the stored length; a negative ID or an ID of slotCount
    or more is not found by either, and the buffer stays as it was. *)
Theorem Get_Delete_agree (buf : list byte) (s : Z) :
  page_inv buf ->
  ((exists r, Get s buf = Ret (r, true) buf /\ len r = slotLen buf s)
   <-> (exists buf', Delete s buf = Ret None buf'))
  /\ ((exists r, Get s buf = Ret (r, true) buf) <-> live buf s)
  /\ (s < 0 \/ hSlotCount buf <= s ->
      Get s buf = Ret ([], false) buf
      /\ Delete s buf = Ret (Some ErrSlotNotFound) buf).
Proof.
  intros Hinv. pose proof Hinv as [Hd Hf He Hsl].
  assert (Hfound : live buf s ->
            exists r, Get s buf = Ret (r, true) buf /\ len r = slotLen buf s).
  { intros Hl. exists (record buf s). split; [apply Get_found; assumption|].
    destruct Hl as [Hs _]. destruct (Hsl s Hs) as [Hlo Hhi].
    pose proof (Uint16_range buf (hdrSize + s * slotSize + 2)) as R.
    fold (slotLen buf s) in R.
    pose proof (Uint16_range buf 4) as R4. fold (hFreeEnd buf) in R4.
    unfold record. rewrite len_sub; lia. }
  split; [|split].
  - split.
    + intros (r & Hget & _). destruct (live_dec buf s) as [Hl | Hl].
      * exists (delete_image buf s). apply Delete_found; assumption.
      * rewrite (Get_not_found buf s Hinv Hl) in Hget. discriminate.
    + intros (buf' & Hdel). destruct (live_dec buf s) as [Hl | Hl].
      * apply Hfound. exact Hl.
      * rewrite (Delete_not_found buf s Hinv Hl) in Hdel. discriminate.
  - split.
    + intros (r & Hget). destruct (live_dec buf s) as [Hl | Hl]; [exact Hl|].
      rewrite (Get_not_found buf s Hinv Hl) in Hget. discriminate.
    + intros Hl. destruct (Hfound Hl) as (r & Hget & _). exists r. exact Hget.
  - intros Hout.
    assert (Hnl : ~ live buf s) by (intros [Hs _]; lia).
    split; [apply Get_not_found | apply Delete_not_found]; assumption.
Qed.

Lemma Get_Delete_agree_witness :
  let page := insert_image (fresh_image (zeros 512)) [x41; x42] in
  (exists buf', Delete 0 page = Ret None buf')
  /\ Get (-1) page = Ret ([], false) page
  /\ Delete 1 page = Ret (Some ErrSlotNotFound) page.
Proof.
  intros page.
  destruct (Get_Delete_agree page 0) as (Hiff & _ & _);
    [apply check_page_sound; vm_compute; reflexivity|].
  destruct (Get_Delete_agree page (-1)) as (_ & _ & Hneg);
    [apply check_page_sound; vm_compute; reflexivity|].
  destruct (Get_Delete_agree page 1) as (_ & _ & Hbig);
    [apply check_page_sound; vm_compute; reflexivity|].
  split; [|split].
  - apply (proj1 Hiff). exists [x41; x42]. split; vm_compute; reflexivity.
  - apply Hneg. left. vm_compute. reflexivity.
  - apply Hbig. right. vm_compute. discriminate.
Defined.

(** X3: Update on a slot that is absent or tombstoned fails with
    "slot not found" and inserts nothing: the buffer stays as it was,
    also when the new record would fit. *)
Theorem Update_missing_slot (buf rec : list byte) (s : Z) :
  page_inv buf -> ~ live buf s ->
  Update s rec buf = Ret (Some ErrSlotNotFound) buf.
Proof.
  intros Hinv Hnl. apply Update_run_err. apply Delete_not_found; assumption.
Qed.

Lemma Update_missing_slot_witness :
  Update 3 [x41] (fresh_image (zeros 512))
  = Ret (Some ErrSlotNotFound) (fresh_image (zeros 512)).
Proof.
  apply Update_missing_slot.
  - apply check_page_sound. vm_compute. reflexivity.
  - intros [Hs _]. vm_compute in Hs. destruct Hs as [_ Hs]. discriminate Hs.
Defined.

(** X4: a successful Update uses up new space and gives none back:
    freeStart grows by 4, freeEnd drops by the stored length of the new
    record, and the bytes of the old record stay where they were, with
    the old slot keeping its offset. *)
Theorem Update_consumes_space (buf rec buf' : list byte) (s : Z) :
  page_inv buf -> valid_page_size (len buf) = true -> len buf < 65536 ->
  live buf s -> Update s rec buf = Ret None buf' ->
  hFreeStart buf' = hFreeStart buf + slotSize
  /\ hFreeEnd buf' = hFreeEnd buf - u16 (len rec)
  /\ (len rec < 65536 -> hFreeEnd buf' = hFreeEnd buf - len rec)
  /\ slotOff buf' s = slotOff buf s
  /\ sub buf' (slotOff buf s) (slotOff buf s + slotLen buf s) = record buf s.
Proof.
  intros Hinv Hv Hlt Hl Hup. pose proof Hl as [Hs Hln].
  pose proof (page_sized_tame buf Hinv Hv Hlt) as Ht.
  pose proof (delete_image_tame buf s Ht Hs) as Ht1. pose proof Ht1 as [Hinv1 _].
  pose proof (Delete_found buf s Hinv Hl) as Hdel.
  pose proof Hinv as [Hd Hf He Hsl]. pose proof Hinv1 as [Hd1 Hf1 He1 Hsl1].
  assert (Hlen : hdrSize + s * slotSize + 4 <= len buf)
    by (unfold hdrSize, slotSize in *; lia).
  destruct (delete_image_header buf s ltac:(lia) Hlen) as (Esc & Efs & Efe & _).
  destruct (Insert_tame (delete_image buf s) rec Ht1) as [H | [[H _] | [Hfit H]]].
  - rewrite (Update_run_ok _ _ _ _ _ _ Hdel H) in Hup. discriminate.
  - rewrite (Update_run_abort _ _ _ _ _ Hdel H) in Hup. discriminate.
  - rewrite (Update_run_ok _ _ _ _ _ _ Hdel H) in Hup. injection Hup as <-.
    set (b1 := delete_image buf s) in *.
    assert (E1 : hFreeStart (insert_image b1 rec) = hFreeStart b1 + slotSize)
      by (apply insert_image_freeStart; assumption).
    assert (E2 : hFreeEnd (insert_image b1 rec) = hFreeEnd b1 - u16 (len rec))
      by (apply insert_image_freeEnd; assumption).
    assert (E3 : slotOff (insert_image b1 rec) s = slotOff b1 s)
      by (apply insert_image_old_slot; (assumption || lia)).
    destruct (Hsl s Hs) as [Hlo Hhi].
    pose proof (Uint16_range buf (hdrSize + s * slotSize + 2)) as R.
    fold (slotLen buf s) in R.
    pose proof (len_nonneg rec) as Hrec.
    split; [rewrite E1, Efs; reflexivity|].
    split; [rewrite E2, Efe; reflexivity|].
    split; [intros Hsmall; rewrite E2, Efe, u16_small by lia; reflexivity|].
    split; [rewrite E3; subst b1; apply delete_image_slotOff; lia|].
    assert (L1 : len b1 = len buf) by (subst b1; apply len_delete_image; lia).
    unfold record.
    rewrite insert_image_old_bytes by (assumption || lia).
    subst b1. apply delete_image_bytes; unfold hdrSize, slotSize in *; lia.
Qed.

Lemma Update_consumes_space_witness :
  let page := insert_image (fresh_image (zeros 512)) [x41; x42] in
  let page' := insert_image (delete_image page 0) [x43; x44; x45] in
  hFreeStart page' = hFreeStart page + slotSize
  /\ hFreeEnd page' = hFreeEnd page - u16 (len [x43; x44; x45])
  /\ (len [x43; x44; x45] < 65536 -> hFreeEnd page' = hFreeEnd page - len [x43; x44; x45])
  /\ slotOff page' 0 = slotOff page 0
  /\ sub page' (slotOff page 0) (slotOff page 0 + slotLen page 0) = record page 0.
Proof.
  intros page page'.
  apply (Update_consumes_space page [x43; x44; x45] page' 0).
  - apply check_page_sound. vm_compute. reflexivity.
  - vm_compute. reflexivity.
  - vm_compute. reflexivity.
  - split; [vm_compute; split; [discriminate | reflexivity] | vm_compute; discriminate].
  - vm_compute. reflexivity.
Defined.


(** X5: deletion is permanent. On a page of a valid page size below
    65536, after Delete(s) has succeeded, whatever operations follow,
    Get(s) finds nothing, and Delete(s) and Update(s, R) fail with
    "slot not found" without changing the buffer: the slot ID is never
    given to another record. *)
Theorem Delete_is_permanent (buf : list byte) (s : Z) :
  page_inv buf -> valid_page_size (len buf) = true -> len buf < 65536 ->
  live buf s ->
  exists b1,
    Delete s buf = Ret None b1
    /\ forall ops b2 rec,
         run ops b1 = Ret tt b2 ->
         Get s b2 = Ret ([], false) b2
         /\ Delete s b2 = Ret (Some ErrSlotNotFound) b2
         /\ Update s rec b2 = Ret (Some ErrSlotNotFound) b2.
Proof.
  intros Hinv Hv Hlt Hl. pose proof Hl as [Hs _].
  pose proof (page_sized_tame buf Hinv Hv Hlt) as Ht.
  pose proof (delete_image_tame buf s Ht Hs) as Ht1.
  pose proof Hinv as [Hd Hf He Hsl].
  assert (Hlen : hdrSize + s * slotSize + 4 <= len buf)
    by (unfold hdrSize, slotSize in *; lia).
  destruct (delete_image_header buf s ltac:(lia) Hlen) as (Esc & _).
  exists (delete_image buf s). split; [apply Delete_found; assumption|].
  intros ops b2 rec Hrun.
  destruct (run_tame ops _ Ht1) as [(b & Hb & [Hinv2 _] & Hev) | [Hb _]]; [|congruence].
  rewrite Hrun in Hb. injection Hb as <-.
  destruct Hev as (_ & _ & _ & Htomb).
  assert (Hnl : ~ live b2 s).
  { intros [_ H]. apply H. apply Htomb; [lia|].
    apply delete_image_slotLen_same; lia. }
  split; [apply Get_not_found; assumption|].
  split; [apply Delete_not_found; assumption|].
  apply Update_missing_slot; assumption.
Qed.

Lemma Delete_is_permanent_witness :
  let page := insert_image (fresh_image (zeros 512)) [x41; x42] in
  let page' := insert_image (delete_image page 0) [x43] in
  Delete 0 page = Ret None (delete_image page 0)
  /\ run [OpInsert [x43]] (delete_image page 0) = Ret tt page'
  /\ Get 0 page' = Ret ([], false) page'
  /\ Delete 0 page' = Ret (Some ErrSlotNotFound) page'
  /\ Update 0 [x44] page' = Ret (Some ErrSlotNotFound) page'.
Proof.
  intros page page'.
  destruct (Delete_is_permanent page 0) as (b1 & Hdel & Hperm).
  - apply check_page_sound. vm_compute. reflexivity.
  - vm_compute. reflexivity.
  - vm_compute. reflexivity.
  - split; [vm_compute; split; [discriminate | reflexivity] | vm_compute; discriminate].
  - assert (E : Delete 0 page = Ret None (delete_image page 0)) by (vm_compute; reflexivity).
    assert (Hrun : run [OpInsert [x43]] (delete_image page 0) = Ret tt page')
      by (vm_compute; reflexivity).
    rewrite E in Hdel. injection Hdel as <-.
    split; [exact E|]. split; [exact Hrun|].
    apply (Hperm [OpInsert [x43]] page' [x44] Hrun).
Defined.

(** X6: slot IDs only go up. On a page of a valid page size below 65536,
    an Insert that succeeds after another successful Insert, with any
    operations in between (deletions included), returns a strictly
    larger slot ID. *)
Theorem slot_ids_increase (buf r1 r2 b1 b2 b3 : list byte) (ops : list op) (id1 id2 : Z) :
  page_inv buf -> valid_page_size (len buf) = true -> len buf < 65536 ->
  Insert r1 buf = Ret (id1, None) b1 ->
  run ops b1 = Ret tt b2 ->
  Insert r2 b2 = Ret (id2, None) b3 ->
  id1 < id2.
Proof.
  intros Hinv Hv Hlt H1 Hrun H2.
  pose proof (page_sized_tame buf Hinv Hv Hlt) as Ht.
  destruct (Insert_tame_success buf r1 id1 b1 Ht H1) as (-> & Hfit & ->).
  pose proof (insert_image_tame buf r1 Ht Hfit) as Ht1.
  destruct (run_tame ops _ Ht1) as [(b & Hb & Ht2 & Hev) | [Hb _]]; [|congruence].
  rewrite Hrun in Hb. injection Hb as <-.
  destruct (Insert_tame_success b2 r2 id2 b3 Ht2 H2) as (-> & _ & _).
  destruct Hev as (_ & _ & Hsc & _). destruct Hinv as [Hd Hf He Hsl].
  rewrite insert_image_slotCount in Hsc by assumption. lia.
Qed.

Lemma slot_ids_increase_witness :
  let page := fresh_image (zeros 512) in
  let b1 := insert_image page [x41] in
  let b2 := delete_image b1 0 in
  0 < 1
  /\ Insert [x41] page = Ret (0, None) b1
  /\ run [OpDelete 0] b1 = Ret tt b2
  /\ Insert [x42] b2 = Ret (1, None) (insert_image b2 [x42]).
Proof.
  intros page b1 b2.
  assert (H1 : Insert [x41] page = Ret (0, None) b1) by (vm_compute; reflexivity).
  assert (Hrun : run [OpDelete 0] b1 = Ret tt b2) by (vm_compute; reflexivity).
  assert (H2 : Insert [x42] b2 = Ret (1, None) (insert_image b2 [x42]))
    by (vm_compute; reflexivity).
  split; [|split; [exact H1 | split; [exact Hrun | exact H2]]].
  apply (slot_ids_increase page [x41] [x42] b1 b2 (insert_image b2 [x42]) [OpDelete 0] 0 1);
    try assumption.
  - apply check_page_sound. vm_compute. reflexivity.
  - vm_compute. reflexivity.
  - vm_compute. reflexivity.
Defined.

(** X7: every page reached from a freshly initialized page of a valid
    page size below 65536 keeps the layout: the buffer keeps its length,
    8 <= freeStart <= freeEnd <= len(buf), freeStart = 8 + 4 * slotCount,
    every directory entry designates bytes inside [freeEnd, len(buf)),
    and the flags field stays 0. *)
Theorem reached_page_layout (buf page page' : list byte) (ops : list op) :
  valid_page_size (len buf) = true -> len buf < 65536 ->
  firstn 6 buf = zeros 6 ->
  NewHeapPage buf = Ret None page ->
  run ops page = Ret tt page' ->
  len page' = len buf
  /\ hdrSize <= hFreeStart page'
  /\ hFreeStart page' <= hFreeEnd page'
  /\ hFreeEnd page' <= len buf
  /\ hFreeStart page' = hdrSize + slotSize * hSlotCount page'
  /\ (forall i, 0 <= i < hSlotCount page' ->
        hFreeEnd page' <= slotOff page' i
        /\ slotOff page' i + slotLen page' i <= len buf)
  /\ hFlags page' = 0.
Proof.
  intros Hv Hlt Hz Hnew Hrun.
  destruct (fresh_sane buf Hv Hz) as (Hnew' & _ & Htame).
  rewrite Hnew' in Hnew. injection Hnew as <-. specialize (Htame Hlt).
  assert (Hlen : hdrSize <= len buf)
    by (pose proof (valid_page_size_small _ Hv Hlt); unfold hdrSize; lia).
  destruct (fresh_image_header buf Hlen) as (_ & _ & _ & Efl).
  destruct (run_len_flags ops _ page' Htame Hrun) as [El Ef].
  rewrite len_fresh_image in El by assumption.
  destruct (run_tame ops _ Htame) as [(b & Hb & [Hinv _] & _) | [Hb _]]; [|congruence].
  rewrite Hrun in Hb. injection Hb as <-.
  destruct Hinv as [Hd Hf He Hsl].
  pose proof (Uint16_range page' 0) as R0. fold (hSlotCount page') in R0.
  rewrite El in *.
  split; [reflexivity|]. split; [unfold hdrSize, slotSize in *; lia|].
  split; [assumption|]. split; [assumption|]. split; [assumption|].
  split; [assumption|]. rewrite Ef. exact Efl.
Qed.

Lemma reached_page_layout_witness :
  let page := fresh_image (zeros 512) in
  let page' := insert_image (delete_image (insert_image page [x41; x42]) 0) [x43] in
  len page' = len (zeros 512)
  /\ hdrSize <= hFreeStart page'
  /\ hFreeStart page' <= hFreeEnd page'
  /\ hFreeEnd page' <= len (zeros 512)
  /\ hFreeStart page' = hdrSize + slotSize * hSlotCount page'
  /\ (forall i, 0 <= i < hSlotCount page' ->
        hFreeEnd page' <= slotOff page' i
        /\ slotOff page' i + slotLen page' i <= len (zeros 512))
  /\ hFlags page' = 0.
Proof.
  intros page page'.
  apply (reached_page_layout (zeros 512) page page'
           [OpInsert [x41; x42]; OpUpdate 0 [x43]]).
  - vm_compute. reflexivity.
  - vm_compute. reflexivity.
  - vm_compute. reflexivity.
  - vm_compute. reflexivity.
  - vm_compute. reflexivity.
Defined.

(** X8: on every page reached from a freshly initialized page of a valid
    page size below 65536, the byte ranges of the directory entries go
    down the page in slot order, so the records of two different live
    slots never overlap. *)
Theorem live_records_disjoint (buf page page' : list byte) (ops : list op) :
  valid_page_size (len buf) = true -> len buf < 65536 ->
  firstn 6 buf = zeros 6 ->
  NewHeapPage buf = Ret None page ->
  run ops page = Ret tt page' ->
  (forall i j, 0 <= i -> i < j -> j < hSlotCount page' ->
     slotOff page' j + slotLen page' j <= slotOff page' i)
  /\ (forall i j, live page' i -> live page' j -> i <> j -> disjoint_slots page' i j).
Proof.
  intros Hv Hlt Hz Hnew Hrun.
  destruct (fresh_sane buf Hv Hz) as (Hnew' & _ & Htame).
  rewrite Hnew' in Hnew. injection Hnew as <-. specialize (Htame Hlt).
  assert (Hp0 : packed (fresh_image buf)).
  { intros i j Hi Hij Hj.
    destruct (fresh_image_header buf) as (Esc & _).
    - pose proof (valid_page_size_small _ Hv Hlt). unfold hdrSize. lia.
    - rewrite Esc in Hj. lia. }
  pose proof (run_packed ops _ page' Htame Hp0 Hrun) as Hp.
  split; [exact Hp|].
  intros i j [Hi _] [Hj _] Hne. unfold disjoint_slots.
  destruct (Z_lt_dec i j).
  - right. apply Hp; lia.
  - left. apply Hp; lia.
Qed.

Lemma live_records_disjoint_witness :
  let page' := insert_image (insert_image (fresh_image (zeros 512)) [x41; x42]) [x43] in
  disjoint_slots page' 0 1.
Proof.
  intros page'.
  destruct (live_records_disjoint (zeros 512) (fresh_image (zeros 512)) page'
              [OpInsert [x41; x42]; OpInsert [x43]]) as [_ Hdis].
  - vm_compute. reflexivity.
  - vm_compute. reflexivity.
  - vm_compute. reflexivity.
  - vm_compute. reflexivity.
  - vm_compute. reflexivity.
  - apply Hdis.
    + split; [vm_compute; split; [discriminate | reflexivity] | vm_compute; discriminate].
    + split; [vm_compute; split; [discriminate | reflexivity] | vm_compute; discriminate].
    + discriminate.
Defined.

(** X9: stored bytes are never rewritten. On a page of a valid page size
    below 65536, no sequence of operations changes a byte at or above
    the freeEnd the page had at the start, so the bytes of every record
    stored so far, deleted or not, stay in place; the buffer keeps its
    length and its flags field. *)
Theorem data_region_never_rewritten (buf buf' : list byte) (ops : list op) :
  page_inv buf -> valid_page_size (len buf) = true -> len buf < 65536 ->
  run ops buf = Ret tt buf' ->
  (forall j, hFreeEnd buf <= j -> at8 buf' j = at8 buf j)
  /\ (forall lo hi, hFreeEnd buf <= lo -> lo <= hi -> hi <= len buf ->
        sub buf' lo hi = sub buf lo hi)
  /\ len buf' = len buf
  /\ hFlags buf' = hFlags buf.
Proof.
  intros Hinv Hv Hlt Hrun.
  pose proof (page_sized_tame buf Hinv Hv Hlt) as Ht.
  destruct (run_data_region ops buf buf' Ht Hrun) as [_ Hbytes].
  destruct (run_len_flags ops buf buf' Ht Hrun) as [El Ef].
  pose proof (Uint16_range buf 4) as R4. fold (hFreeEnd buf) in R4.
  split; [exact Hbytes|]. split; [|split; assumption].
  intros lo hi Hlo Hle Hhi. apply sub_ext; try lia.
  intros j Hj. apply Hbytes. lia.
Qed.

Lemma data_region_never_rewritten_witness :
  let page := insert_image (fresh_image (zeros 512)) [x41; x42] in
  let page' := insert_image (delete_image page 0) [x43] in
  sub page' 510 512 = sub page 510 512
  /\ len page' = len page
  /\ hFlags page' = hFlags page.
Proof.
  intros page page'.
  destruct (data_region_never_rewritten page page' [OpUpdate 0 [x43]])
    as (_ & Hsub & Hl & Hf).
  - apply check_page_sound. vm_compute. reflexivity.
  - vm_compute. reflexivity.
  - vm_compute. reflexivity.
  - vm_compute. reflexivity.
  - split; [|split; assumption].
    apply Hsub; vm_compute; discriminate.
Defined.

(** X10: a record never changes while its slot is live. On a page of a
    valid page size below 65536 with a live slot t, after any sequence
    of operations Get(t) returns the record it returned at the start, or
    finds nothing. *)
Theorem live_record_stable (buf buf' : list byte) (ops : list op) (t : Z) :
  page_inv buf -> valid_page_size (len buf) = true -> len buf < 65536 ->
  live buf t -> run ops buf = Ret tt buf' ->
  Get t buf = Ret (record buf t, true) buf
  /\ (Get t buf' = Ret (record buf t, true) buf'
      \/ Get t buf' = Ret ([], false) buf').
Proof.
  intros Hinv Hv Hlt Hl Hrun. pose proof Hl as [Ht Hln].
  pose proof (page_sized_tame buf Hinv Hv Hlt) as Htame.
  split; [apply Get_found; assumption|].
  destruct (run_tame ops _ Htame) as [(b & Hb & [Hinv' _] & _) | [Hb _]]; [|congruence].
  rewrite Hrun in Hb. injection Hb as <-.
  destruct (run_slot_entry ops buf buf' t Htame Hrun Ht) as (Hsc & Eo & [El | El]).
  - left.
    assert (Hl' : live buf' t) by (split; [lia | rewrite El; assumption]).
    rewrite (Get_found _ _ Hinv' Hl'). unfold record. rewrite Eo, El.
    destruct (run_data_region ops buf buf' Htame Hrun) as [_ Hbytes].
    destruct (run_len_flags ops buf buf' Htame Hrun) as [Elen _].
    destruct Hinv as [Hd Hf He Hsl]. destruct (Hsl t Ht) as [Hlo Hhi].
    pose proof (Uint16_range buf (hdrSize + t * slotSize + 2)) as R.
    fold (slotLen buf t) in R.
    pose proof (Uint16_range buf 4) as R4. fold (hFreeEnd buf) in R4.
    rewrite (sub_ext buf' buf); try lia; [reflexivity|].
    intros j Hj. apply Hbytes. lia.
  - right. apply Get_not_found; [assumption|]. intros [_ H]. exact (H El).
Qed.

Lemma live_record_stable_witness :
  let page := insert_image (fresh_image (zeros 512)) [x41; x42] in
  let page' := delete_image (insert_image page [x43]) 1 in
  Get 0 page = Ret (record page 0, true) page
  /\ (Get 0 page' = Ret (record page 0, true) page'
      \/ Get 0 page' = Ret ([], false) page').
Proof.
  intros page page'.
  apply (live_record_stable page page' [OpInsert [x43]; OpDelete 1] 0).
  - apply check_page_sound. vm_compute. reflexivity.
  - vm_compute. reflexivity.
  - vm_compute. reflexivity.
  - split; [vm_compute; split; [discriminate | reflexivity] | vm_compute; discriminate].
  - vm_compute. reflexivity.
Defined.






(** X12: constructing a page over a buffer that already holds a page
    resets nothing: a buffer satisfying the layout invariants is
    returned as it is, and constructing again over the result of any
    successful construction changes nothing. *)
Theorem NewHeapPage_keeps_page :
  (forall buf : list byte, page_inv buf -> NewHeapPage buf = Ret None buf)
  /\ (forall buf page : list byte,
        NewHeapPage buf = Ret None page -> NewHeapPage page = Ret None page).
Proof.
  split.
  - intros buf Hinv. apply NewHeapPage_used; [apply page_inv_len; assumption|].
    destruct Hinv as [Hd _ _ _].
    pose proof (Uint16_range buf 0) as R0. fold (hSlotCount buf) in R0.
    unfold hdrSize, slotSize in *. lia.
  - intros buf page Hnew.
    destruct (Z_lt_dec (len buf) hdrSize) as [Hsmall | Hlen].
    { rewrite NewHeapPage_small in Hnew by assumption. discriminate. }
    assert (Hlen' : hdrSize <= len buf) by lia.
    destruct (Z.eq_dec (hSlotCount buf) 0) as [Esc |];
      [destruct (Z.eq_dec (hFreeStart buf) 0) as [Efs |];
       [destruct (Z.eq_dec (hFreeEnd buf) 0) as [Efe |]|]|].
    + rewrite (NewHeapPage_fresh buf Hlen' Esc Efs Efe) in Hnew. injection Hnew as <-.
      destruct (fresh_image_header buf Hlen') as (_ & E & _).
      apply NewHeapPage_used; [rewrite len_fresh_image; assumption|].
      rewrite E. unfold hdrSize. lia.
    + assert (Hu : NewHeapPage buf = Ret None buf) by (apply NewHeapPage_used; [assumption | lia]).
      rewrite Hu in Hnew. injection Hnew as <-. exact Hu.
    + assert (Hu : NewHeapPage buf = Ret None buf) by (apply NewHeapPage_used; [assumption | lia]).
      rewrite Hu in Hnew. injection Hnew as <-. exact Hu.
    + assert (Hu : NewHeapPage buf = Ret None buf) by (apply NewHeapPage_used; [assumption | lia]).
      rewrite Hu in Hnew. injection Hnew as <-. exact Hu.
Qed.

Lemma NewHeapPage_keeps_page_witness :
  let page := insert_image (fresh_image (zeros 512)) [x41; x42] in
  NewHeapPage page = Ret None page
  /\ NewHeapPage (fresh_image (zeros 512)) = Ret None (fresh_image (zeros 512)).
Proof.
  intros page. split.
  - apply (proj1 NewHeapPage_keeps_page). apply check_page_sound. vm_compute. reflexivity.
  - apply (proj2 NewHeapPage_keeps_page (zeros 512)). vm_compute. reflexivity.
Defined.

(** ** The pager: validation, page contents, isolation *)

Section PagerProperties.

Import Pager.

Implicit Types (p q : Pager) (d : disk) (c B : list byte) (pageID ps : Z).

(** X13: Open rejects every page size that is zero, negative or not a
    multiple of 512 with the invalid-page-size error before it touches
    the file system, so no file is created. With a valid page size it
    opens the file. When os.OpenFile fails, as it does for the empty
    path (ENOENT) and for a path the file system refuses (a missing
    directory, missing rights), Open returns that error and leaves the
    file system as it was. Otherwise it returns an open handle whose
    PageSize is that size, creates an absent file empty, keeps the
    contents of a present file, and touches no other file. *)
Theorem Open_page_size_check (path : string) ps d :
  (ps <= 0 \/ Z.rem ps 512 <> 0 ->
   Open path ps d = (inl (ErrInvalidPageSize ps), d))
  /\ (0 < ps -> Z.rem ps 512 = 0 ->
      (path = EmptyString -> Open path ps d = (inl (ErrIO ErrNotExist), d))
      /\ (forall e, path <> EmptyString -> refused d !! path = Some e ->
            Open path ps d = (inl (ErrIO e), d))
      /\ (path <> EmptyString -> refused d !! path = None ->
          exists p d',
            Open path ps d = (inr p, d')
            /\ PageSize p = ps /\ fname (f p) = path /\ fclosed (f p) = false
            /\ d' !! path = Some (default [] (d !! path))
            /\ forall other : string, other <> path -> d' !! other = d !! other)).
Proof.
  split.
  - intros Hbad. unfold Open.
    destruct (Z.leb_spec ps 0) as [Hle | Hgt]; [reflexivity|].
    destruct (Z.eqb_spec (Z.rem ps 512) 0) as [E | Hne]; [lia | reflexivity].
  - intros Hpos Hrem.
    assert (Hsize : (ps <=? 0) || negb (Z.rem ps 512 =? 0) = false).
    { destruct (Z.leb_spec ps 0) as [Hle | Hgt]; [lia|].
      destruct (Z.eqb_spec (Z.rem ps 512) 0) as [E | Hne]; [reflexivity | lia]. }
    split; [|split].
    + intros ->. unfold Open. rewrite Hsize. reflexivity.
    + intros e Hne Hr. unfold Open, OpenFile. rewrite Hsize.
      rewrite String_eqb_empty by exact Hne. rewrite Hr. reflexivity.
    + intros Hne Hr. unfold Open. rewrite Hsize, (OpenFile_ok path d Hne Hr).
      eexists; eexists. split; [reflexivity|].
      unfold PageSize. cbn [f fname fclosed pageSize].
      split; [reflexivity|]. split; [reflexivity|]. split; [reflexivity|].
      destruct (d !! path) as [c|] eqn:Ec.
      * split; [exact Ec | reflexivity].
      * split; [apply disk_lookup_insert|].
        intros other Hother. apply disk_lookup_insert_ne. congruence.
Qed.

Lemma Open_page_size_check_witness :
  let d : disk := {| files := <["db"%string := [x41]]> ∅;
                     refused := <["nodir/db"%string := ErrNotExist]> ∅ |} in
  Open "db" 1000 d = (inl (ErrInvalidPageSize 1000), d)
  /\ Open EmptyString 1024 d = (inl (ErrIO ErrNotExist), d)
  /\ Open "nodir/db" 1024 d = (inl (ErrIO ErrNotExist), d)
  /\ exists p d',
       Open "db" 1024 d = (inr p, d')
       /\ PageSize p = 1024 /\ fclosed (f p) = false
       /\ d' !! "db"%string = Some [x41].
Proof.
  intros d. split; [|split; [|split]].
  - apply (proj1 (Open_page_size_check "db" 1000 d)).
    right. vm_compute. discriminate.
  - apply (proj1 (proj2 (Open_page_size_check EmptyString 1024 d) eq_refl eq_refl)).
    reflexivity.
  - apply (proj1 (proj2 (proj2 (Open_page_size_check "nodir/db" 1024 d) eq_refl eq_refl))).
    + discriminate.
    + vm_compute. reflexivity.
  - destruct (proj2 (Open_page_size_check "db" 1024 d))
      as (_ & _ & Hok).
    + reflexivity.
    + reflexivity.
    + destruct Hok as (p & d' & Hopen & Hps & _ & Hcl & Hc & _).
      * discriminate.
      * vm_compute. reflexivity.
      * exists p, d'. split; [exact Hopen|]. split; [exact Hps|].
        split; [exact Hcl|]. rewrite Hc. vm_compute. reflexivity.
Defined.

(** X14: on an open handle, ReadPage of a page that ends within the
    int64 offsets returns pageSize bytes: byte k is the file's byte at
    pageID * pageSize + k, or zero where the file has ended. A page that
    starts inside the file is read without changing the file system; a
    page that starts at or after the end of the file is returned as
    zeros, and the read extends the file with zeros to the end of that
    page. *)
Theorem ReadPage_contents p d c pageID :
  fclosed (f p) = false -> d !! fname (f p) = Some c ->
  0 <= pageID -> 0 < pageSize p -> (pageID + 1) * pageSize p <= max_int64 ->
  exists B d',
    ReadPage p pageID d = (inr B, d')
    /\ len B = pageSize p
    /\ (forall k, 0 <= k < pageSize p ->
          at8 B k = if pageID * pageSize p + k <? len c
                    then at8 c (pageID * pageSize p + k) else x00)
    /\ (pageID * pageSize p < len c -> d' = d)
    /\ (len c <= pageID * pageSize p ->
          B = zeros (pageSize p)
          /\ d' = <[fname (f p) := c ++ zeros ((pageID + 1) * pageSize p - len c)]> d).
Proof.
  intros Hopen Hc Hid Hps Hmax.
  assert (Hoff : 0 <= pageID * pageSize p) by nia.
  eexists; eexists. split; [apply ReadPage_result; eassumption|].
  split; [apply len_page_of; lia|].
  split; [|split].
  - intros k Hk. rewrite at8_page_of by lia.
    destruct (Z.ltb_spec (pageID * pageSize p + k) (len c)); [reflexivity|].
    apply at8_past_end. lia.
  - intros Hin. destruct (Z.ltb_spec (pageID * pageSize p) (len c)); [reflexivity | lia].
  - intros Hout. split; [apply page_of_past_end; lia|].
    destruct (Z.ltb_spec (pageID * pageSize p) (len c)); [lia | reflexivity].
Qed.

Lemma ReadPage_contents_witness :
  let p := {| f := {| fname := "db"; fclosed := false |}; pageSize := 512 |} in
  let d : disk := <["db"%string := [x41; x42]]> ∅ in
  exists B d',
    ReadPage p 0 d = (inr B, d')
    /\ len B = 512
    /\ at8 B 1 = x42 /\ at8 B 2 = x00
    /\ d' = d.
Proof.
  intros p d.
  destruct (ReadPage_contents p d [x41; x42] 0) as (B & d' & Hr & HB & Hk & Hin & _).
  - reflexivity.
  - reflexivity.
  - lia.
  - vm_compute. reflexivity.
  - vm_compute. discriminate.
  - exists B, d'. split; [exact Hr|]. split; [exact HB|].
    split; [apply (Hk 1); vm_compute; split; [discriminate | reflexivity]|].
    split; [apply (Hk 2); vm_compute; split; [discriminate | reflexivity]|].
    apply Hin. vm_compute. reflexivity.
Defined.



(** X16: pages are isolated. On an open handle, for two different pages
    i >= 0 and j >= 0 that both end within the int64 offsets
    ((i + 1) * pageSize <= 2^63 - 1 and (j + 1) * pageSize <= 2^63 - 1),
    a successful WritePage of page i does not change what ReadPage
    returns for page j, whether page j lies before the written page,
    after it, or past the end of the file. Outside that range the offset
    wraps around in int64 and two page IDs can name the same bytes. *)
Theorem WritePage_keeps_other_pages p d i j B d' :
  opened p d -> 0 < pageSize p ->
  0 <= i -> (i + 1) * pageSize p <= max_int64 ->
  0 <= j -> (j + 1) * pageSize p <= max_int64 ->
  j <> i ->
  WritePage p i B d = (None, d') ->
  fst (ReadPage p j d') = fst (ReadPage p j d).
Proof.
  intros [Hopen (c & Hc)] Hps Hi Himax Hj Hjmax Hne Hw.
  destruct (WritePage_inv p d i B d' Hw) as (HB & _).
  rewrite (WritePage_result p d c i B Hopen Hc Hi Hps Himax HB) in Hw.
  injection Hw as <-.
  set (c' := splice _ _ _).
  assert (Hc' : (<[fname (f p) := c']> d) !! fname (f p) = Some c')
    by apply disk_lookup_insert.
  rewrite (ReadPage_result p _ c' j Hopen Hc' Hj Hps Hjmax).
  rewrite (ReadPage_result p d c j Hopen Hc Hj Hps Hjmax).
  cbn [fst]. f_equal. apply page_of_ext; try nia.
  intros k Hk. unfold c'.
  replace ((i + 1) * pageSize p) with (i * pageSize p + len B) by lia.
  apply at8_written_out; nia.
Qed.

Lemma WritePage_keeps_other_pages_witness :
  let p := {| f := {| fname := "db"; fclosed := false |}; pageSize := 512 |} in
  let d : disk := <["db"%string := repeat x41 1024]> ∅ in
  let d' := snd (WritePage p 1 (repeat xff 512) d) in
  fst (WritePage p 1 (repeat xff 512) d) = None
  /\ fst (ReadPage p 0 d') = fst (ReadPage p 0 d).
Proof.
  intros p d d'. split; [vm_compute; reflexivity|].
  apply (WritePage_keeps_other_pages p d 1 0 (repeat xff 512) d').
  - split; [reflexivity | eexists; reflexivity].
  - vm_compute. reflexivity.
  - lia.
  - vm_compute. discriminate.
  - lia.
  - vm_compute. discriminate.
  - lia.
  - vm_compute. reflexivity.
Defined.

(** X17: the pager never shrinks the file and writes nothing outside
    the page it is asked for. After a successful ReadPage or WritePage
    of a page that ends within the int64 offsets the file has its old
    length or ends exactly at the end of that page, and is no shorter
    than before; every byte outside that page is as before, a byte past
    the old end reading as zero; a file that was a whole number of pages
    long still is and now holds the page; and no other file is
    touched. *)
Theorem pager_file_extent p d c pageID B d' :
  fclosed (f p) = false -> d !! fname (f p) = Some c ->
  0 <= pageID -> 0 < pageSize p -> (pageID + 1) * pageSize p <= max_int64 ->
  ReadPage p pageID d = (inr B, d') \/ WritePage p pageID B d = (None, d') ->
  exists c',
    d' !! fname (f p) = Some c'
    /\ len c <= len c'
    /\ (len c' = len c \/ len c' = (pageID + 1) * pageSize p)
    /\ (forall x, 0 <= x ->
          x < pageID * pageSize p \/ (pageID + 1) * pageSize p <= x ->
          at8 c' x = at8 c x)
    /\ (len c mod pageSize p = 0 ->
        len c' mod pageSize p = 0 /\ (pageID + 1) * pageSize p <= len c')
    /\ (forall other : string, other <> fname (f p) -> d' !! other = d !! other).
Proof.
  intros Hopen Hc Hid Hps Hmax Hop. pose proof (len_nonneg c) as Hlc.
  assert (Hoff : 0 <= pageID * pageSize p) by nia.
  assert (Hmod : forall n, n = Z.max (len c) ((pageID + 1) * pageSize p) ->
                   len c mod pageSize p = 0 ->
                   n mod pageSize p = 0 /\ (pageID + 1) * pageSize p <= n).
  { intros n -> Hm. split; [|lia].
    destruct (Z.max_spec (len c) ((pageID + 1) * pageSize p)) as [[_ ->] | [_ ->]].
    - apply Z.mod_mul. lia.
    - exact Hm. }
  destruct Hop as [Hr | Hw].
  - rewrite (ReadPage_result p d c pageID Hopen Hc Hid Hps Hmax) in Hr.
    injection Hr as _ <-.
    destruct (Z.ltb_spec (pageID * pageSize p) (len c)) as [Hin | Hout].
    + (* a page that starts inside the file *)
      exists c. split; [exact Hc|]. split; [lia|]. split; [left; reflexivity|].
      split; [reflexivity|]. split; [|reflexivity].
      intros Hm. split; [exact Hm|].
      apply Z.mod_divide in Hm; [|lia]. destruct Hm as [n Hn].
      rewrite Hn in *. assert (pageID < n) by nia. nia.
    + exists (c ++ zeros ((pageID + 1) * pageSize p - len c)).
      assert (L : len (c ++ zeros ((pageID + 1) * pageSize p - len c))
                  = (pageID + 1) * pageSize p)
        by (rewrite len_app, len_zeros by lia; lia).
      split; [apply disk_lookup_insert|].
      split; [lia|]. split; [right; exact L|].
      split; [intros x _ _; apply at8_app_zeros|].
      split.
      * apply Hmod. lia.
      * intros other Hne. apply disk_lookup_insert_ne. congruence.
  - destruct (WritePage_inv p d pageID B d' Hw) as (HB & _).
    rewrite (WritePage_result p d c pageID B Hopen Hc Hid Hps Hmax HB) in Hw.
    injection Hw as <-.
    replace ((pageID + 1) * pageSize p) with (pageID * pageSize p + len B) in * by lia.
    set (c' := splice _ _ _).
    assert (L : len c' = Z.max (len c) (pageID * pageSize p + len B))
      by (apply len_written; lia).
    exists c'. split; [apply disk_lookup_insert|].
    split; [lia|]. split; [lia|].
    split; [intros x Hx Hout; apply at8_written_out; lia|].
    split.
    + apply Hmod. exact L.
    + intros other Hne. apply disk_lookup_insert_ne. congruence.
Qed.

Lemma pager_file_extent_witness :
  let p := {| f := {| fname := "db"; fclosed := false |}; pageSize := 512 |} in
  let d : disk := <["db"%string := repeat x41 512]> ∅ in
  let d' := snd (WritePage p 2 (repeat xff 512) d) in
  exists c',
    d' !! "db"%string = Some c'
    /\ len c' = 1536
    /\ at8 c' 100 = x41 /\ at8 c' 600 = x00
    /\ len c' mod 512 = 0.
Proof.
  intros p d d'.
  destruct (pager_file_extent p d (repeat x41 512) 2 (repeat xff 512) d')
    as (c' & Hc' & _ & Hlen & Hout & Hmod & _).
  - reflexivity.
  - reflexivity.
  - lia.
  - vm_compute. reflexivity.
  - vm_compute. discriminate.
  - right. vm_compute. reflexivity.
  - exists c'. split; [exact Hc'|].
    assert (L : len c' = 1536).
    { destruct Hlen as [E | E]; [|exact E].
      destruct Hmod as [_ Hm]; [reflexivity|].
      change (len (repeat x41 512)) with 512 in E.
      change ((2 + 1) * pageSize p) with 1536 in Hm. lia. }
    split; [exact L|].
    split; [rewrite (Hout 100); [reflexivity | lia | left; vm_compute; reflexivity]|].
    split; [rewrite (Hout 600); [reflexivity | lia | left; vm_compute; reflexivity]|].
    apply Hmod. reflexivity.
Defined.

(** X18: a failing call changes nothing. On an open handle ReadPage of a
    negative page identifier fails with the invalid-page-ID error;
    WritePage of a buffer whose length is not the page size fails with
    the invalid-page-size error, whatever the page identifier; and
    WritePage of a negative page identifier, which the code does not
    check, fails in the file write with a negative-offset error when the
    offset does not wrap around. In all three cases the file system is
    left as it was. *)
Theorem Pager_rejects_bad_arguments p d pageID B :
  opened p d -> 0 < pageSize p ->
  (pageID < 0 -> ReadPage p pageID d = (inl (ErrInvalidPageID pageID), d))
  /\ (len B <> pageSize p ->
      WritePage p pageID B d = (Some (ErrInvalidPageSize (len B)), d))
  /\ (len B = pageSize p -> pageID < 0 -> - max_int64 - 1 <= pageID * pageSize p ->
      WritePage p pageID B d = (Some (ErrIO ErrNegativeOffset), d)).
Proof.
  intros [Hopen (c & Hc)] Hps. pose proof (len_nonneg c) as Hlc.
  split; [|split].
  - intros Hneg. unfold ReadPage. destruct (Z.ltb_spec pageID 0); [reflexivity | lia].
  - intros Hlen. unfold WritePage.
    destruct (Z.eqb_spec (len B) (pageSize p)); [lia | reflexivity].
  - intros HB Hneg Hwrap. unfold WritePage.
    destruct (Z.eqb_spec (len B) (pageSize p)); [|lia]. cbn [negb]. cbv zeta.
    rewrite (i64_small (pageID * pageSize p)) by (unfold max_int64 in *; nia).
    rewrite i64_small by (unfold max_int64 in *; nia).
    unfold ensureSize, StatSize. rewrite Hopen, Hc.
    destruct (Z.geb_spec (len c) (pageID * pageSize p + pageSize p)); [|nia].
    unfold WriteAt. rewrite Hopen.
    destruct (Z.ltb_spec (pageID * pageSize p) 0); [reflexivity | nia].
Qed.

Lemma Pager_rejects_bad_arguments_witness :
  let p := {| f := {| fname := "db"; fclosed := false |}; pageSize := 512 |} in
  let d : disk := <["db"%string := [x41; x42]]> ∅ in
  ReadPage p (-1) d = (inl (ErrInvalidPageID (-1)), d)
  /\ WritePage p 0 [x41] d = (Some (ErrInvalidPageSize 1), d)
  /\ WritePage p (-1) (repeat xff 512) d = (Some (ErrIO ErrNegativeOffset), d).
Proof.
  intros p d.
  assert (Hop : opened p d) by (split; [reflexivity | exists [x41; x42]; reflexivity]).
  assert (Hps : 0 < pageSize p) by reflexivity.
  split; [|split].
  - apply (proj1 (Pager_rejects_bad_arguments p d (-1) [] Hop Hps)). lia.
  - apply (proj1 (proj2 (Pager_rejects_bad_arguments p d 0 [x41] Hop Hps))).
    vm_compute. discriminate.
  - apply (proj2 (proj2 (Pager_rejects_bad_arguments p d (-1) (repeat xff 512) Hop Hps))).
    + vm_compute. reflexivity.
    + lia.
    + vm_compute. discriminate.
Defined.



End PagerProperties.

Section MainProperties.

Import Pager Main.

(** X20: the command. Without a file argument main stops at its usage
    message and leaves the file system as it was. With one, when
    os.OpenFile fails on the named file (an empty path, a missing
    directory, missing rights), main stops at its "Error opening
    database file" message with that error and leaves the file system
    as it was. When the file can be opened, main ends at its OK message:
    the named file, created if absent, then starts with the four bytes
    MRDB, is at least one 4096-byte page long and no shorter than
    before, keeps every byte from offset 4 on (a byte past the old end
    reading as zero), no other file is touched, and running the command
    again changes nothing. *)
Theorem main_writes_magic (prog dbfile : string) (rest : list string) (d : disk) :
  main [] d = (Usage, d)
  /\ main [prog] d = (Usage, d)
  /\ (forall e, OpenFile dbfile d = inl e ->
        main (prog :: dbfile :: rest) d = (OpenFailed (ErrIO e), d))
  /\ (forall file d0, OpenFile dbfile d = inr (file, d0) ->
      exists c',
        main (prog :: dbfile :: rest) d = (Done, <[dbfile := c']> d)
        /\ sub c' 0 4 = magic
        /\ len c' = Z.max 4096 (len (default [] (d !! dbfile)))
        /\ (forall x, 4 <= x -> at8 c' x = at8 (default [] (d !! dbfile)) x)
        /\ main (prog :: dbfile :: rest) (<[dbfile := c']> d)
           = (Done, <[dbfile := c']> d)).
Proof.
  split; [reflexivity|]. split; [reflexivity|]. split.
  { intros e He. unfold main. cbn [length Nat.ltb Nat.leb nth]. cbv zeta.
    unfold Open. cbn [Z.leb Z.compare orb negb]. rewrite He. reflexivity. }
  intros file d0 Hfile.
  pose proof (OpenFile_inv dbfile d) as Hi. rewrite Hfile in Hi.
  destruct Hi as (Hne & Hr & _).
  destruct (main_run prog dbfile rest d Hne Hr) as (c' & Hrun & Hlen & Hmagic & Hrest).
  exists c'. split; [exact Hrun|].
  pose proof (len_nonneg (default [] (d !! dbfile))) as Hl0.
  split; [|split; [exact Hlen|split; [exact Hrest|]]].
  - apply at8_ext.
    + rewrite len_sub by lia. reflexivity.
    + intros k Hk. rewrite len_sub in Hk by lia.
      rewrite at8_sub by lia. apply Hmagic. lia.
  - assert (Hr' : refused (<[dbfile := c']> d) !! dbfile = None) by exact Hr.
    destruct (main_run prog dbfile rest _ Hne Hr')
      as (c'' & Hrun' & Hlen' & Hmagic' & Hrest').
    rewrite disk_lookup_insert in Hlen', Hrest'.
    change (default [] (Some c')) with c' in Hlen', Hrest'.
    rewrite disk_insert_insert in Hrun'.
    assert (E : c'' = c').
    { apply at8_ext; [lia|].
      intros x Hx. destruct (Z.lt_ge_cases x 4).
      - rewrite Hmagic, Hmagic' by lia. reflexivity.
      - apply Hrest'. lia. }
    rewrite E in Hrun'. exact Hrun'.
Qed.

Lemma main_writes_magic_witness :
  let d : disk := {| files := ∅; refused := <["nodir/db"%string := ErrNotExist]> ∅ |} in
  main ["minirdb"; "nodir/db"]%string d = (OpenFailed (ErrIO ErrNotExist), d)
  /\ exists c',
       main ["minirdb"; "db"]%string d = (Done, <["db"%string := c']> d)
       /\ sub c' 0 4 = magic
       /\ len c' = 4096.
Proof.
  intros d. split.
  - apply (proj1 (proj2 (proj2 (main_writes_magic "minirdb" "nodir/db" [] d)))).
    vm_compute. reflexivity.
  - destruct (proj2 (proj2 (proj2 (main_writes_magic "minirdb" "db" [] d)))
                {| fname := "db"; fclosed := false |} (<["db"%string := []]> d))
      as (c' & Hrun & Hmagic & Hlen & _).
    + vm_compute. reflexivity.
    + exists c'. split; [exact Hrun|]. split; [exact Hmagic|].
      rewrite Hlen. vm_compute. reflexivity.
Defined.

End MainProperties.

Section StoredPages.

Import Pager.

(** X21: a record stored in a new page of a file is found again after
    the file is reopened. On a handle returned by Open with a page size
    below 65536, for a page that starts at or after the end of the file
    and ends within the int64 offsets
    ((pageID + 1) * pageSize <= 2^63 - 1): ReadPage returns a buffer
    over which NewHeapPage builds an empty page; Insert of a non-empty
    record that fits (len + 4 <= pageSize - 8) gets slot 0; WritePage
    and Flush succeed; and after Open of the same path again, ReadPage
    of that page returns the written bytes, NewHeapPage over them
    changes nothing, and Get of slot 0 returns the record. *)
Theorem record_survives_reopen (path : string) ps d p d0 c pageID (rec : list byte) :
  Open path ps d = (inr p, d0) -> ps < 65536 ->
  d0 !! path = Some c -> len c <= pageID * ps -> (pageID + 1) * ps <= max_int64 ->
  0 < len rec -> len rec + slotSize <= ps - hdrSize ->
  exists B0 d1 page page' d2 q,
    ReadPage p pageID d0 = (inr B0, d1)
    /\ HeapPage.NewHeapPage B0 = HeapPage.Ret None page
    /\ hSlotCount page = 0
    /\ HeapPage.Insert rec page = HeapPage.Ret (0, None) page'
    /\ WritePage p pageID page' d1 = (None, d2)
    /\ Flush p = None
    /\ Open path ps d2 = (inr q, d2)
    /\ ReadPage q pageID d2 = (inr page', d2)
    /\ HeapPage.NewHeapPage page' = HeapPage.Ret None page'
    /\ HeapPage.Get 0 page' = HeapPage.Ret (rec, true) page'.
Proof.
  intros Hopen Hsmall Hc Hnew Hmax Hpos Hfit.
  destruct (Open_inv path ps d p d0 Hopen) as (Hv & Hname & Hps & [Hcl _] & _ & Hne & Hr0).
  destruct (valid_page_size_small ps Hv Hsmall) as [Hlo Hhi].
  pose proof (len_nonneg c) as Hlc.
  assert (Hid : 0 <= pageID) by nia.
  rewrite <- Hname in Hc. rewrite <- Hps in *.
  (* the read extends the file and returns zeros *)
  pose proof (ReadPage_result p d0 c pageID Hcl Hc Hid ltac:(lia) Hmax) as Hread.
  destruct (Z.ltb_spec (pageID * pageSize p) (len c)) as [|_]; [lia|].
  rewrite page_of_past_end in Hread by lia.
  set (d1 := <[fname (f p) := c ++ zeros ((pageID + 1) * pageSize p - len c)]> d0) in *.
  assert (Hop1 : opened p d1)
    by (split; [exact Hcl | eexists; apply disk_lookup_insert]).
  (* the empty page *)
  set (B0 := zeros (pageSize p)) in *.
  assert (LB : len B0 = pageSize p) by (apply len_zeros; lia).
  destruct (fresh_page B0) as (Hnewp & Hinv & Hsc & Hfs & Hfe).
  { unfold hdrSize. lia. }
  { apply (firstn_zeros 6). lia. }
  set (page := fresh_image B0) in *.
  (* the insert *)
  destruct (Insert_spec page rec Hinv) as (Hins & Hsub & Hsc' & Hoff & Hln & _ & _ & Hinv').
  { rewrite Hfs, Hfe, LB. lia. }
  set (page' := insert_image page rec) in *.
  assert (LP : len page' = pageSize p).
  { assert (El : u16 (len rec) = len rec)
      by (apply u16_small; unfold slotSize, hdrSize in *; lia).
    assert (Lpg : len page = pageSize p)
      by (unfold page; rewrite len_fresh_image; [exact LB | unfold hdrSize; lia]).
    unfold page'. rewrite len_insert_image; [exact Lpg | | |].
    - rewrite Hfs, Hsc. unfold hdrSize, slotSize. lia.
    - rewrite Hfe, Lpg, LB. lia.
    - rewrite El, Hfs, Hfe, LB. lia. }
  (* the write, and the reopened file *)
  assert (Eoff : i64 (pageID * pageSize p) = pageID * pageSize p)
    by (apply i64_small; unfold max_int64 in *; nia).
  destruct (WritePage_at p d1 pageID page' Hop1 ltac:(lia) LP
              ltac:(rewrite Eoff; nia) ltac:(rewrite Eoff; lia))
    as (d2 & Hw & Hop2 & Hpage).
  pose proof Hop2 as [_ (c2 & Hc2)].
  assert (Hr2 : refused d2 !! path = None).
  { pose proof (WritePage_refused p d1 pageID page') as E. rewrite Hw in E.
    cbn [snd] in E. rewrite E. exact Hr0. }
  destruct (Open_ok path (pageSize p) d2 Hv Hne Hr2)
    as (q & d2' & Hq & Hqname & Hqps & Hqop & Hkeep).
  rewrite Hname in Hc2. rewrite (Hkeep c2 Hc2) in *.
  exists B0, d1, page, page', d2, q.
  split; [exact Hread|]. split; [exact Hnewp|]. split; [exact Hsc|].
  split; [rewrite Hins, Hsc; reflexivity|].
  split; [exact Hw|].
  split; [unfold Flush, Sync; rewrite Hcl; reflexivity|].
  split; [exact Hq|].
  split.
  { apply ReadPage_on_disk; try assumption; rewrite ?Hqps; try lia.
    rewrite Hqname, <- Hname. exact Hpage. }
  split; [apply NewHeapPage_on_page; exact Hinv'|].
  assert (Hl : live page' 0).
  { split; [rewrite Hsc', Hsc; lia|]. rewrite Hsc in Hln. rewrite Hln. lia. }
  rewrite (Get_found _ _ Hinv' Hl). unfold record.
  rewrite Hsc in Hoff, Hln. rewrite Hoff, Hln.
  replace (hFreeEnd page - len rec + len rec) with (hFreeEnd page) by lia.
  rewrite Hsub. reflexivity.
Qed.

Lemma record_survives_reopen_witness :
  let p := {| f := {| fname := "db"; fclosed := false |}; pageSize := 512 |} in
  let d0 : disk := <["db"%string := []]> ∅ in
  exists B0 d1 page page' d2 q,
    ReadPage p 1 d0 = (inr B0, d1)
    /\ HeapPage.NewHeapPage B0 = HeapPage.Ret None page
    /\ hSlotCount page = 0
    /\ HeapPage.Insert [x41; x42] page = HeapPage.Ret (0, None) page'
    /\ WritePage p 1 page' d1 = (None, d2)
    /\ Flush p = None
    /\ Open "db" 512 d2 = (inr q, d2)
    /\ ReadPage q 1 d2 = (inr page', d2)
    /\ HeapPage.NewHeapPage page' = HeapPage.Ret None page'
    /\ HeapPage.Get 0 page' = HeapPage.Ret ([x41; x42], true) page'.
Proof.
  intros p d0.
  apply (record_survives_reopen "db" 512 ∅ p d0 [] 1 [x41; x42]).
  - vm_compute. reflexivity.
  - lia.
  - reflexivity.
  - vm_compute. discriminate.
  - vm_compute. discriminate.
  - vm_compute. reflexivity.
  - vm_compute. discriminate.
Defined.

End StoredPages.
